(** * Android live-reload session orchestrator

    A shallow embedding of [scripts/run_android_live_reload.py]: the port
    allocator, the device registry, the logcat line filters, the DevTools
    bridge negotiation and the session supervisor, with the properties of
    the design document proved (or refuted) over the embedding.

    Conventions of the embedding:
    - a Python [str] is a list of Unicode code points ([N]);
    - answers of the outside world (sockets, PATH look-ups, child
      processes, signals) are read from explicit oracle values, and every
      observable action is recorded as an event of a trace;
    - an exception is a value of the result type, never a Rocq failure. *)

From Stdlib Require Import ZArith NArith List Bool String Ascii Lia.
From Stdlib Require Import DecimalString.
From Stdlib Require DecimalPos.
Import ListNotations.

Local Open Scope N_scope.

(* ================================================================== *)
(** * Text: Python [str] and the built-ins the script calls           *)
(* ================================================================== *)

Definition char := N.
Definition str := list char.

(** A literal of the source, as code points. *)
Definition lit (s : string) : str := map N_of_ascii (list_ascii_of_string s).
Arguments lit s%_string.

Fixpoint str_eqb (a b : str) : bool :=
  match a, b with
  | [], [] => true
  | x :: a', y :: b' => (x =? y) && str_eqb a' b'
  | _, _ => false
  end.

(** Truthiness of a string: [if s] / [not s]. *)
Definition nonempty (s : str) : bool :=
  match s with [] => false | _ :: _ => true end.

(** Truthiness of an [Optional[str]]: neither [None] nor [""]. *)
Definition truthy (o : option str) : bool :=
  match o with Some s => nonempty s | None => false end.

(** [a or b] on optional strings. *)
Definition or_else (a b : option str) : option str :=
  if truthy a then a else b.

(** [s.startswith(prefix)]. *)
Fixpoint startswith (prefix s : str) : bool :=
  match prefix, s with
  | [], _ => true
  | p :: prefix', c :: s' => (p =? c) && startswith prefix' s'
  | _ :: _, [] => false
  end.

(** [needle in hay] for strings. *)
Fixpoint contains (needle hay : str) : bool :=
  startswith needle hay ||
  match hay with
  | [] => false
  | _ :: hay' => contains needle hay'
  end.

(** The code points [str.split()], [str.strip()] and [str.isspace()]
    treat as white space. *)
Definition is_whitespace (c : char) : bool :=
  ((9 <=? c) && (c <=? 13)) || ((28 <=? c) && (c <=? 32))
  || (c =? 133) || (c =? 160) || (c =? 5760)
  || ((8192 <=? c) && (c <=? 8202))
  || (c =? 8232) || (c =? 8233) || (c =? 8239) || (c =? 8287)
  || (c =? 12288).

(** [s.split()]: maximal runs of non-white-space characters. *)
Fixpoint split_from (field s : str) : list str :=
  match s with
  | [] => if nonempty field then [field] else []
  | c :: rest =>
      if is_whitespace c
      then (if nonempty field then field :: split_from [] rest
            else split_from [] rest)
      else split_from (field ++ [c]) rest
  end.

Definition split (s : str) : list str := split_from [] s.

Fixpoint lstrip_with (space : char -> bool) (s : str) : str :=
  match s with
  | c :: rest => if space c then lstrip_with space rest else s
  | [] => []
  end.

Definition strip_with (space : char -> bool) (s : str) : str :=
  rev (lstrip_with space (rev (lstrip_with space s))).

Definition lstrip (s : str) : str := lstrip_with is_whitespace s.

(** [s.rstrip()]. *)
Definition rstrip (s : str) : str := rev (lstrip (rev s)).

(** [s.strip()]. *)
Definition strip (s : str) : str := strip_with is_whitespace s.

(** Line boundaries of [str.splitlines()] other than the pair CR LF. *)
Definition is_linebreak (c : char) : bool :=
  ((10 <=? c) && (c <=? 13)) || ((28 <=? c) && (c <=? 30))
  || (c =? 133) || (c =? 8232) || (c =? 8233).

(** [s.splitlines()]: the boundary is dropped, CR LF counts once, and no
    empty line is produced after a final boundary. *)
Fixpoint splitlines_from (cur s : str) : list str :=
  match s with
  | [] => if nonempty cur then [cur] else []
  | c :: rest =>
      if c =? 13 then
        match rest with
        | c2 :: rest' =>
            if c2 =? 10 then cur :: splitlines_from [] rest'
            else cur :: splitlines_from [] rest
        | [] => [cur]
        end
      else if is_linebreak c then cur :: splitlines_from [] rest
      else splitlines_from (cur ++ [c]) rest
  end.

Definition splitlines (s : str) : list str := splitlines_from [] s.

(** [str(n)] for an integer. *)
Definition str_of_Z (n : Z) : str :=
  lit (NilEmpty.string_of_int (Z.to_int n)).

(** ASCII upper-casing of one code point. *)
Definition ascii_upper (c : char) : char :=
  if (97 <=? c) && (c <=? 122) then c - 32 else c.

(** Value of an ASCII decimal digit. *)
Definition ascii_digit (c : char) : option Z :=
  if (48 <=? c) && (c <=? 57) then Some (Z.of_N (c - 48)) else None.

(** The parts of the Python runtime the script reaches through
    [str.upper()] and [int()]: two tables of its Unicode character
    database and the limit it puts on the digits of an integer literal.
    They are not of this repository, so the embedding takes them as an
    interface; on ASCII the tables are fixed. *)
Class UnicodeData := {
  (** full upper-case mapping of one code point ([str.upper] maps each
      code point on its own and concatenates) *)
  to_upper_full : char -> list char;
  (** value of a decimal digit (category Nd), as [int()] reads it *)
  decimal_value : char -> option Z;
  (** [sys.get_int_max_str_digits()]: 0 when the interpreter has no limit
      (or is older than the limit), 4300 unless it was configured *)
  int_max_str_digits : nat;
  to_upper_full_ascii :
    forall c, c < 128 -> to_upper_full c = [ascii_upper c];
  decimal_value_ascii :
    forall c, c < 128 -> decimal_value c = ascii_digit c
}.

(** The database restricted to ASCII: every other code point is caseless
    and is not a digit.  The limit is the interpreter's default. *)
#[export] Program Instance ascii_only : UnicodeData | 100 := {
  to_upper_full c := [ascii_upper c];
  decimal_value c := ascii_digit c;
  int_max_str_digits := 4300
}.

Section Builtins.
Context {U : UnicodeData}.

(** [s.upper()]. *)
Definition upper (s : str) : str := flat_map to_upper_full s.

(** Digits of an integer literal: decimal digits, single underscores
    between digits only. *)
Fixpoint int_digits (acc : Z) (after_digit : bool) (s : str) : option Z :=
  match s with
  | [] => if after_digit then Some acc else None
  | c :: rest =>
      if c =? 95 then
        (if after_digit then int_digits acc false rest else None)
      else
        match decimal_value c with
        | Some d => int_digits (10 * acc + d)%Z true rest
        | None => None
        end
  end.

(** The white space [int()] skips around the digits: that of [str.strip()]
    without the four separators U+001C .. U+001F. *)
Definition is_int_space (c : char) : bool :=
  is_whitespace c && negb ((28 <=? c) && (c <=? 31)).

(** What [int()] holds against the interpreter's limit: the digits of the
    literal, leading zeros included, underscores left out. *)
Definition count_digits (s : str) : nat :=
  List.length (filter (fun c => negb (c =? 95)) s).

(** The literal has more digits than the interpreter converts: more than
    the threshold of 640 digits below which it never checks, and more than
    the limit when there is one. *)
Definition exceeds_int_limit (s : str) : bool :=
  (640 <? count_digits s)%nat
  && (0 <? int_max_str_digits)%nat
  && (int_max_str_digits <? count_digits s)%nat.

(** The literal after the sign. *)
Definition int_literal (s : str) : option Z :=
  if exceeds_int_limit s then None else int_digits 0%Z false s.

(** [int(s)] in base ten; [None] stands for [ValueError]. *)
Definition python_int (s : str) : option Z :=
  match strip_with is_int_space s with
  | [] => None
  | c :: rest =>
      if c =? 45 then option_map Z.opp (int_literal rest)
      else if c =? 43 then int_literal rest
      else int_literal (c :: rest)
  end.

(** The decimal form of [n] has more digits than [int()] converts. *)
Definition beyond_int_limit (n : Z) : bool :=
  exceeds_int_limit (str_of_Z (Z.abs n)).
End Builtins.

(* ================================================================== *)
(** * Port allocator                                                   *)
(* ================================================================== *)

(** The exceptions that leave a function of the script. *)
Inductive Raised :=
| KeyboardInterrupt
| PopenOSError (argv : list str)   (* [OSError] of [subprocess.Popen] *)
| OverflowError.                   (* of [socket.bind] *)

(** How a call ends: with a value, or with an exception nobody caught. *)
Inductive Outcome (A : Type) :=
| Returns (a : A)
| Raises (e : Raised).
Arguments Returns {A} a.
Arguments Raises {A} e.

(** How [s.bind((host, port))] ends. *)
Inductive BindOutcome :=
| Bound
| BindOSError          (* the address cannot be bound: it is in use, ... *)
| BindOverflowError.   (* "bind(): port must be 0-65535." *)

Section PortAllocator.
(** [can_bind host port]: the system lets a socket bind to the address. *)
Variable can_bind : str -> Z -> bool.

(** [s.bind((host, port))] on an IPv4 literal such as the script's
    ["127.0.0.1"]: the socket module refuses a port number outside
    0 .. 65535 with [OverflowError] before it asks the system; the system
    binds the socket or refuses with an [OSError]. *)
Definition socket_bind (host : str) (port : Z) : BindOutcome :=
  if ((port <? 0) || (65535 <? port))%Z then BindOverflowError
  else if can_bind host port then Bound
  else BindOSError.

(** The [for port in range(...)] loop, [n] ports left to try from
    [port] on; [None] when the range is exhausted.  Only [OSError] is
    caught. *)
Fixpoint try_ports (host : str) (port : Z) (n : nat) : Outcome (option Z) :=
  match n with
  | O => Returns None
  | S n' =>
      match socket_bind host port with
      | Bound => Returns (Some port)
      | BindOSError => try_ports host (port + 1)%Z n'
      | BindOverflowError => Raises OverflowError
      end
  end.

Definition find_free_port (host : str) (start_port tries : Z) : Outcome Z :=
  match try_ports host start_port (Z.to_nat (Z.max 1 tries)) with
  | Returns (Some port) => Returns port
  | Returns None => Returns start_port
  | Raises e => Raises e
  end.
End PortAllocator.

(* ================================================================== *)
(** * Device registry                                                  *)
(* ================================================================== *)

(** How a [subprocess.run(..., timeout=...)] call ends, as far as the
    script provides for it: the call returned (with the output it gave as
    text), it timed out, or the command could not be started.  An output
    that cannot be decoded and an interrupt during the call are none of the
    three: the script has no handler for them. *)
Inductive RunOutcome :=
| Completed (stdout : str)
| TimeoutExpired
| OSError.

(** A device as the script keeps it: [(serial, is_emulator)]. *)
Definition Device : Type := str * bool.

Definition adb_devices_timeout_warning : str :=
  lit "Warning: `adb devices` timed out. Device detection disabled. Unlock the phone and accept USB debugging prompt, or pass --target.".

(** One turn of the parsing loop; every [continue] leaves [devices] as
    it is. *)
Definition adb_devices_line (devices : list Device) (line : str)
  : list Device :=
  let line := strip line in
  if negb (nonempty line) || startswith (lit "List of devices") line
  then devices
  else
    match split line with
    | serial :: state :: _ =>
        if negb (str_eqb state (lit "device")) then devices
        else devices ++ [(serial, startswith (lit "emulator-") serial)]
    | _ => devices
    end.

(** [list_adb_devices], from the way the [adb devices] call ended: the
    devices returned and the lines printed. *)
Definition list_adb_devices (adb : RunOutcome) : list Device * list str :=
  match adb with
  | TimeoutExpired => ([], [adb_devices_timeout_warning])
  | OSError => ([], [])
  | Completed stdout =>
      (fold_left adb_devices_line (splitlines stdout) [], [])
  end.

(** The [for serial, is_emulator in devices] loop of [choose_target]. *)
Fixpoint first_physical (devices : list Device) : option str :=
  match devices with
  | [] => None
  | (serial, is_emulator) :: rest =>
      if negb is_emulator then Some serial else first_physical rest
  end.

(** The body of [choose_target] after [devices = list_adb_devices(...)]. *)
Definition choose_among (devices : list Device) : option str :=
  match devices with
  | [] => None
  | [d] => Some (fst d)
  | d :: _ :: _ =>
      match first_physical devices with
      | Some serial => Some serial
      | None => Some (fst d)
      end
  end.

Definition choose_target (adb : RunOutcome) : option str * list str :=
  let '(devices, printed) := list_adb_devices adb in
  (choose_among devices, printed).

(* ================================================================== *)
(** * Log filter pipeline                                              *)
(* ================================================================== *)

(** The shared cell [app_pid_holder = {"pid": ...}]: written by the main
    thread after PID discovery, read by the app-mode predicate each time
    the pump hands it a line. *)
Record AppPidHolder := { pid : option Z }.

(** [a == b] on [Optional[int]] values. *)
Definition opt_int_eqb (a b : option Z) : bool :=
  match a, b with
  | Some x, Some y => (x =? y)%Z
  | None, None => true
  | _, _ => false
  end.

Definition is_None {A} (o : option A) : bool :=
  match o with None => true | Some _ => false end.

Section LogFilter.
Context {U : UnicodeData}.

Definition parse_threadtime_pid (line : str) : option Z :=
  let parts := split line in
  if (List.length parts <? 5)%nat then None
  else python_int (nth 2 parts []).

Definition console_tags : list str :=
  [lit "CAPACITOR"; lit "CHROMIUM"; lit "CONSOLE"; lit "WEBVIEW";
   lit "SYSTEMWEBCHROMECLIENT"].

Definition is_console_line (line : str) : bool :=
  let upper := upper line in
  existsb (fun tag => contains tag upper) console_tags.

(** The app-mode predicate of [run]:
    [lambda line: app_pid_holder["pid"] is None
                  or parse_threadtime_pid(line) == app_pid_holder["pid"]].
    The cell is an argument because the lambda reads it at each call. *)
Definition app_line_filter (app_pid_holder : AppPidHolder) (line : str)
  : bool :=
  is_None (pid app_pid_holder)
  || opt_int_eqb (parse_threadtime_pid line) (pid app_pid_holder).

(** The [line_filter] argument [run] gives to [stream_output]. *)
Inductive LineFilter :=
| NoFilter        (* [line_filter=None] *)
| AppFilter       (* the app-mode lambda *)
| ConsoleFilter.  (* [lambda line: is_console_line(line)] *)

(** [line_filter is None or line_filter(line)], the cell being what it
    is when the line is read. *)
Definition passes (line_filter : LineFilter) (app_pid_holder : AppPidHolder)
           (line : str) : bool :=
  match line_filter with
  | NoFilter => true
  | AppFilter => app_line_filter app_pid_holder line
  | ConsoleFilter => is_console_line line
  end.

(** What reaches the pump of [stream_output]: a line of the child's
    output, (between two lines) a write of the main thread to the shared
    cell, or an exception raised in the loop, such as a read or a decoding
    error of the stream, given by the text [str(e)]. *)
Inductive Feed :=
| Line (text : str)
| PidWritten (value : option Z)
| ReadFailed (e : str).

(** [pump] of [stream_output]: the lines printed.  The [except Exception]
    around the loop prints the error and ends the pump. *)
Fixpoint pump (prefix : str) (line_filter : LineFilter)
         (app_pid_holder : AppPidHolder) (feed : list Feed) : list str :=
  match feed with
  | [] => []
  | ReadFailed e :: _ => [prefix ++ lit "Error reading stream: " ++ e]
  | PidWritten value :: rest =>
      pump prefix line_filter {| pid := value |} rest
  | Line line :: rest =>
      if negb (nonempty line)
      then pump prefix line_filter app_pid_holder rest
      else if passes line_filter app_pid_holder line
      then (prefix ++ rstrip line)
             :: pump prefix line_filter app_pid_holder rest
      else pump prefix line_filter app_pid_holder rest
  end.
End LogFilter.

(* ================================================================== *)
(** * Remote debug bridge: the worker [cdp_pump]                       *)
(* ================================================================== *)

(** A connected web socket, by the number the oracle gives it. *)
Definition Socket := N.

(** An exception object, by the text [str(e)] prints. *)
Definition Exception := str.

(** Keyword arguments of [websocket.create_connection] that differ
    between the attempts. *)
Inductive ConnectOptions :=
| SuppressOrigin                 (* [suppress_origin=True] *)
| WithOrigin (origin : str).     (* [origin=...] *)

(** The two requests sent once connected:
    [json.dumps({"id": id, "method": method})]. *)
Record Request := { request_id : Z; request_method : str }.

(** One [ws.recv()] of the session loop and what the loop body does with
    it.  Decoding the message and formatting the printed line are left to
    the oracle: [Handled (Some line)] is a console or log event printed as
    [line], [Handled None] any other message. *)
Inductive Recv :=
| RecvEmpty                       (* [not msg] *)
| Handled (printed : option str)
| RecvTimeout                     (* [WebSocketTimeoutException] *)
| RecvFailed (e : Exception).     (* any other exception of the body *)

Record CdpWorld := {
  (** reply of the [retry_count]-th [get_cdp_websocket_url()] *)
  ws_url_reply : nat -> option str;
  create_connection : str -> ConnectOptions -> Socket + Exception;
  (** [ws.send(...)]: [Some e] when it raises *)
  send_raises : Socket -> Request -> option Exception;
  (** what [ws.recv()] yields, call after call *)
  received : Socket -> list Recv
}.

Inductive CdpEvent :=
| CdpPrint (line : str)
| GetUrl
| CdpSleep (seconds : Z)
| Connect (ws_url : str) (options : ConnectOptions)
| Send (ws : Socket) (request : Request)
| Close (ws : Socket).

Definition is_connect (e : CdpEvent) : bool :=
  match e with Connect _ _ => true | _ => false end.

(** How the worker function ends: it returns, an exception escapes it, or
    it is still blocked in the receive loop when the oracle's replies are
    used up. *)
Inductive WorkerEnd :=
| WorkerReturned
| WorkerRaised (e : Exception)
| WorkerListening.

Definition max_retries : nat := 30.

(** The discovery loop [while retry_count < max_retries], with [fuel]
    turns left: the URL that made it [break], or [None] when [ws_url] is
    still falsy after the last turn. *)
Fixpoint discover (w : CdpWorld) (retry_count fuel : nat)
  : option str * list CdpEvent :=
  match fuel with
  | O => (None, [])
  | S fuel' =>
      let ws_url := ws_url_reply w retry_count in
      if truthy ws_url then (ws_url, [GetUrl])
      else
        let '(found, events) := discover w (S retry_count) fuel' in
        (found, GetUrl :: CdpSleep 1 :: events)
  end.

(** The locals of the negotiation and what it has done so far. *)
Record Negotiation := {
  ws : option Socket;
  last_err : option Exception;
  attempts : list CdpEvent
}.

(** One [try: ws = websocket.create_connection(...); print(...)
         except Exception as e: last_err = e; ws = None]. *)
Definition connect_attempt (w : CdpWorld) (ws_url : str)
           (options : ConnectOptions) (label : str) (n : Negotiation)
  : Negotiation :=
  match create_connection w ws_url options with
  | inl socket =>
      {| ws := Some socket;
         last_err := last_err n;
         attempts := attempts n ++
           [Connect ws_url options;
            CdpPrint (lit "[cdp] Connected to WebView DevTools (" ++ label
                      ++ lit ")")] |}
  | inr e =>
      {| ws := None;
         last_err := Some e;
         attempts := attempts n ++ [Connect ws_url options] |}
  end.

(** The three attempts, each after the first guarded by [if ws is None]. *)
Definition negotiate (w : CdpWorld) (ws_url : str) : Negotiation :=
  let n0 := {| ws := None; last_err := None; attempts := [] |} in
  let n1 := connect_attempt w ws_url SuppressOrigin (lit "no Origin") n0 in
  let n2 :=
    if is_None (ws n1)
    then connect_attempt w ws_url (WithOrigin (lit "chrome://inspect"))
           (lit "Origin chrome://inspect") n1
    else n1 in
  let n3 :=
    if is_None (ws n2)
    then connect_attempt w ws_url (WithOrigin (lit "http://localhost:9222"))
           (lit "Origin http://localhost:9222") n2
    else n2 in
  n3.

(** The [while True] receive loop; [true] when it is left by [break]. *)
Fixpoint receive_loop (replies : list Recv) : list CdpEvent * bool :=
  match replies with
  | [] => ([], false)
  | RecvEmpty :: rest => receive_loop rest
  | RecvTimeout :: rest => receive_loop rest
  | Handled printed :: rest =>
      let '(events, broke) := receive_loop rest in
      (match printed with
       | Some line => CdpPrint line :: events
       | None => events
       end, broke)
  | RecvFailed e :: _ => ([CdpPrint (lit "[cdp] Error: " ++ e)], true)
  end.

Definition runtime_enable : Request :=
  {| request_id := 1; request_method := lit "Runtime.enable" |}.
Definition log_enable : Request :=
  {| request_id := 2; request_method := lit "Log.enable" |}.

(** The protocol session on a connected socket, inside the outer [try]:
    [inr e] when an exception reaches the outer handler. *)
Definition session (w : CdpWorld) (socket : Socket)
  : list CdpEvent * (bool + Exception) :=
  match send_raises w socket runtime_enable with
  | Some e => ([Send socket runtime_enable], inr e)
  | None =>
      match send_raises w socket log_enable with
      | Some e => ([Send socket runtime_enable; Send socket log_enable], inr e)
      | None =>
          let '(events, broke) := receive_loop (received w socket) in
          ([Send socket runtime_enable; Send socket log_enable] ++ events,
           inl broke)
      end
  end.

(** The worker: discovery, negotiation, session, with the outer
    [except Exception as e: print(f"[cdp] Connection error: {e}")] and the
    [finally] that closes the socket. *)
Definition cdp_pump (w : CdpWorld) : list CdpEvent * WorkerEnd :=
  let '(ws_url, found) := discover w 0 max_retries in
  match ws_url with
  | None =>
      (found ++ [CdpPrint (lit "[cdp] Warning: Could not connect to WebView DevTools. Console logs unavailable.")],
       WorkerReturned)
  | Some url =>
      let n := negotiate w url in
      match ws n with
      | None =>
          (* [raise last_err if last_err is not None else RuntimeError(...)],
             caught by the outer handler; [ws] is [None] in [finally] *)
          let e :=
            match last_err n with
            | Some e => e
            | None => lit "CDP websocket connect failed"
            end in
          (found ++ attempts n
             ++ [CdpPrint (lit "[cdp] Connection error: " ++ e)],
           WorkerReturned)
      | Some socket =>
          match session w socket with
          | (events, inr e) =>
              (found ++ attempts n ++ events
                 ++ [CdpPrint (lit "[cdp] Connection error: " ++ e);
                     Close socket],
               WorkerReturned)
          | (events, inl true) =>
              (found ++ attempts n ++ events ++ [Close socket],
               WorkerReturned)
          | (events, inl false) =>
              (found ++ attempts n ++ events, WorkerListening)
          end
      end
  end.

(* ================================================================== *)
(** * Session loop: [run]                                              *)
(* ================================================================== *)

Inductive Mode := Usb | Wifi.
Inductive LogcatMode := ConsoleMode | AppMode | AllMode.

(** The parsed command line ([argparse] namespace). *)
Record Args := {
  args_mode : Mode;
  args_host : option str;
  args_port : Z;
  args_target : option str;
  args_app_id : option str;
  args_logcat : bool;
  args_logcat_mode : LogcatMode;
  args_logcat_tags : option str;
  args_logcat_all : bool;
  args_devtools : bool
}.

(** The three processes [run] starts with [subprocess.Popen], in the
    order it starts them: dev server, log stream, native app runner. *)
Inductive Proc := Dev | Logcat | Cap.

(** [capacitor.config.json] as [read_app_id] finds it. *)
Inductive ConfigFile :=
| ConfigMissing
| ConfigUnreadable                    (* [OSError] or [JSONDecodeError] *)
| ConfigParsed (appId : option str).  (* [data.get("appId")] *)

Definition read_app_id (config : ConfigFile) : option str :=
  match config with
  | ConfigParsed appId => appId
  | _ => None
  end.

(** One connection attempt of [wait_for_port] within the time allowed. *)
Inductive Probe := ProbeConnected | ProbeRefused | ProbeInterrupted.

(** One [adb shell pidof] of [wait_for_pid] within the time allowed. *)
Inductive PidofReply := Pidof (outcome : RunOutcome) | PidofInterrupted.

(** One turn of the supervisory loop: what [poll()] answers for the two
    processes watched, or Ctrl+C. *)
Inductive Tick :=
| Poll (cap_returncode dev_returncode : option Z)
| Interrupt.

(** Everything the session reads from outside. *)
Record World := {
  os_name_nt : bool;                       (* [os.name == "nt"] *)
  which : str -> bool;                     (* [shutil.which(cmd)] finds it *)
  can_bind : str -> Z -> bool;
  adb_devices : RunOutcome;
  capacitor_config : ConfigFile;
  dev_popen_ok : bool;                     (* [false]: [Popen] raises *)
  port_probes : list Probe;
  logcat_popen_ok : bool;
  cap_popen_ok : bool;
  pidof_replies : list PidofReply;
  has_websocket : bool;                    (* [HAS_WEBSOCKET] *)
  cdp_forward : RunOutcome;
  ticks : list Tick;
  logcat_alive_at_exit : bool;             (* [logcat_proc.poll() is None] *)
  logcat_wait_expires : bool;              (* [wait(timeout=5)] raises *)
  dev_wait_expires : bool                  (* [wait(timeout=10)] raises *)
}.

Inductive Event :=
| Print (line : str)
| RunCmd (argv : list str)                 (* [subprocess.run] *)
| Popen (proc : Proc) (argv : list str)    (* [subprocess.Popen] returned *)
| StreamOutput (proc : Proc) (prefix : str) (line_filter : LineFilter)
| StartCdpPump                             (* the bridge worker thread *)
| Terminate (proc : Proc)
| WaitFor (proc : Proc) (timeout : Z)
| Kill (proc : Proc).

(** The local variables of [run] that its [finally] block and its loop
    read, and what the session has done so far. *)
Record Frame := {
  trace : list Event;
  dev_proc : option Proc;
  logcat_proc : option Proc;
  cap_proc : option Proc;
  app_pid_holder : option AppPidHolder
}.

Definition initial : Frame :=
  {| trace := []; dev_proc := None; logcat_proc := None; cap_proc := None;
     app_pid_holder := None |}.

(** How a block of [run] is left: it falls through with a value, executes
    [return code], raises, or is still looping when the oracle's schedule
    is used up. *)
Inductive Res (A : Type) :=
| Normal (a : A)
| Returned (code : Z)
| Raise (e : Raised)
| Running.
Arguments Normal {A} a.
Arguments Returned {A} code.
Arguments Raise {A} e.
Arguments Running {A}.

Definition M (A : Type) : Type := Frame -> Frame * Res A.

Definition ret {A} (a : A) : M A := fun f => (f, Normal a).

Definition bind {A B} (m : M A) (k : A -> M B) : M B :=
  fun f =>
    match m f with
    | (f', Normal a) => k a f'
    | (f', Returned code) => (f', Returned code)
    | (f', Raise e) => (f', Raise e)
    | (f', Running) => (f', Running)
    end.

Declare Scope session_scope.
Delimit Scope session_scope with session.
Notation "x <- m ;; k" := (bind m (fun x => k))
  (at level 61, m at next level, right associativity) : session_scope.
Notation "m ;; k" := (bind m (fun _ => k))
  (at level 61, right associativity) : session_scope.
Local Open Scope session_scope.

Definition return_ {A} (code : Z) : M A := fun f => (f, Returned code).
Definition raise {A} (e : Raised) : M A := fun f => (f, Raise e).
Definition running {A} : M A := fun f => (f, Running).
Definition skip : M unit := ret tt.

(** A call of a function that returns or raises. *)
Definition call {A} (o : Outcome A) : M A :=
  match o with
  | Returns a => ret a
  | Raises e => raise e
  end.

Definition emit (e : Event) : M unit :=
  fun f =>
    ({| trace := trace f ++ [e]; dev_proc := dev_proc f;
        logcat_proc := logcat_proc f; cap_proc := cap_proc f;
        app_pid_holder := app_pid_holder f |}, Normal tt).

Definition print (line : str) : M unit := emit (Print line).

Definition set_dev_proc (p : option Proc) : M unit :=
  fun f =>
    ({| trace := trace f; dev_proc := p; logcat_proc := logcat_proc f;
        cap_proc := cap_proc f; app_pid_holder := app_pid_holder f |},
     Normal tt).

Definition set_logcat_proc (p : option Proc) : M unit :=
  fun f =>
    ({| trace := trace f; dev_proc := dev_proc f; logcat_proc := p;
        cap_proc := cap_proc f; app_pid_holder := app_pid_holder f |},
     Normal tt).

Definition set_cap_proc (p : option Proc) : M unit :=
  fun f =>
    ({| trace := trace f; dev_proc := dev_proc f;
        logcat_proc := logcat_proc f; cap_proc := p;
        app_pid_holder := app_pid_holder f |},
     Normal tt).

Definition set_app_pid_holder (h : option AppPidHolder) : M unit :=
  fun f =>
    ({| trace := trace f; dev_proc := dev_proc f;
        logcat_proc := logcat_proc f; cap_proc := cap_proc f;
        app_pid_holder := h |},
     Normal tt).

Definition get : M Frame := fun f => (f, Normal f).

(** [try: body finally: fin].  The [finally] block runs however the body
    is left, and what it raises or returns replaces the body's own way
    out; a body that is still looping has not reached it. *)
Definition try_finally {A} (body : M A) (fin : M unit) : M A :=
  fun f =>
    match body f with
    | (f1, Running) => (f1, Running)
    | (f1, r) =>
        match fin f1 with
        | (f2, Normal _) => (f2, r)
        | (f2, Returned code) => (f2, Returned code)
        | (f2, Raise e) => (f2, Raise e)
        | (f2, Running) => (f2, Running)
        end
    end.

(** [try: body except KeyboardInterrupt: handler]. *)
Definition except_KeyboardInterrupt {A} (body handler : M A) : M A :=
  fun f =>
    match body f with
    | (f1, Raise KeyboardInterrupt) => handler f1
    | other => other
    end.

Definition unwrap (o : option str) : str :=
  match o with Some s => s | None => [] end.

(** [subprocess.Popen(cmd, ...)] bound to one of the three handles. *)
Definition popen (proc : Proc) (ok : bool) (argv : list str) : M unit :=
  if ok then emit (Popen proc argv) else raise (PopenOSError argv).

Section Session.
Context {U : UnicodeData}.
Variable w : World.

Definition resolve_cmd (name : str) : str :=
  if os_name_nt w then
    let cmd := name ++ lit ".cmd" in
    if which w cmd then cmd else name
  else name.

(** [wait_for_port]: one probe after the other until one connects or
    the time is up. *)
Fixpoint wait_for_port (probes : list Probe) : M bool :=
  match probes with
  | [] => ret false
  | ProbeConnected :: _ => ret true
  | ProbeRefused :: rest => wait_for_port rest
  | ProbeInterrupted :: _ => raise KeyboardInterrupt
  end.

Definition get_app_pid (outcome : RunOutcome) : option Z :=
  match outcome with
  | TimeoutExpired => None
  | OSError => None
  | Completed stdout =>
      let pid_text := strip stdout in
      if negb (nonempty pid_text) then None
      else python_int (nth 0 (split pid_text) [])
  end.

Fixpoint wait_for_pid (adb_cmd app_id : str) (replies : list PidofReply)
  : M (option Z) :=
  match replies with
  | [] => ret None
  | PidofInterrupted :: _ => raise KeyboardInterrupt
  | Pidof outcome :: rest =>
      emit (RunCmd [adb_cmd; lit "shell"; lit "pidof"; lit "-s"; app_id]) ;;
      match get_app_pid outcome with
      | Some pid =>
          if (pid =? 0)%Z then wait_for_pid adb_cmd app_id rest
          else ret (Some pid)
      | None => wait_for_pid adb_cmd app_id rest
      end
  end.

Definition start_logcat (adb_cmd : str) (target tags : option str)
           (all_logs : bool) : M (option Proc) :=
  if negb (which w adb_cmd) then
    print (lit "Warning: adb not found in PATH. Logcat disabled.") ;;
    ret None
  else
    let cmd :=
      [adb_cmd]
      ++ (if truthy target then [lit "-s"; unwrap target] else [])
      ++ [lit "logcat"; lit "-v"; lit "threadtime"]
      ++ (if negb all_logs && truthy tags
          then lit "-s" :: split (unwrap tags) else []) in
    if logcat_popen_ok w then
      emit (Popen Logcat cmd) ;; ret (Some Logcat)
    else
      print (lit "Warning: failed to start adb logcat.") ;; ret None.

(** [start_cdp_console_stream] up to the start of its worker thread. *)
Definition start_cdp_console_stream (adb_cmd : str) (target : option str)
  : M unit :=
  if negb (has_websocket w) then
    print (lit "Warning: websocket-client not installed. Run: pip install websocket-client")
  else
    let forward_cmd :=
      [adb_cmd]
      ++ (if truthy target then [lit "-s"; unwrap target] else [])
      ++ [lit "forward"; lit "tcp:9222";
          lit "localabstract:chrome_devtools_remote"] in
    emit (RunCmd forward_cmd) ;;
    match cdp_forward w with
    | TimeoutExpired => print (lit "Warning: adb forward timed out (CDP).")
    | OSError => print (lit "Warning: Failed to set up CDP port forwarding.")
    | Completed _ => emit StartCdpPump
    end.

(** The two checks of one turn of the supervisory loop. *)
Definition check_cap (returncode : option Z) : M unit :=
  f <- get ;;
  match cap_proc f, returncode with
  | Some _, Some code =>
      print (lit "[cap] process exited with code " ++ str_of_Z code
             ++ lit "; keeping wrapper alive.") ;;
      set_cap_proc None
  | _, _ => skip
  end.

Definition check_dev (returncode : option Z) : M unit :=
  f <- get ;;
  match dev_proc f, returncode with
  | Some _, Some code =>
      print (lit "[dev] process exited with code " ++ str_of_Z code
             ++ lit "; keeping wrapper alive.") ;;
      set_dev_proc None
  | _, _ => skip
  end.

(** [try: while True: ... except KeyboardInterrupt: return 0]. *)
Fixpoint supervise (schedule : list Tick) : M unit :=
  match schedule with
  | [] => running
  | Interrupt :: _ => return_ 0
  | Poll cap_returncode dev_returncode :: rest =>
      check_cap cap_returncode ;;
      check_dev dev_returncode ;;
      supervise rest
  end.

(** The [finally] block of [run], as it runs when no signal arrives while
    it does: the one exception it provides for is the [TimeoutExpired] of
    its two waits. *)
Definition teardown : M unit :=
  f <- get ;;
  (match logcat_proc f with
   | Some p =>
       if logcat_alive_at_exit w then
         emit (Terminate p) ;;
         emit (WaitFor p 5) ;;
         (if logcat_wait_expires w then emit (Kill p) else skip)
       else skip
   | None => skip
   end) ;;
  match dev_proc f with
  | Some p =>
      emit (Terminate p) ;;
      emit (WaitFor p 10) ;;
      (if dev_wait_expires w then emit (Kill p) else skip)
  | None => skip
  end.

Variable args : Args.

Definition is_wifi (m : Mode) : bool :=
  match m with Wifi => true | Usb => false end.
Definition is_app (m : LogcatMode) : bool :=
  match m with AppMode => true | _ => false end.
Definition is_all (m : LogcatMode) : bool :=
  match m with AllMode => true | _ => false end.

(** The [if logcat_mode == "all": ... elif logcat_mode == "app": ...
    else: ...] of [run]: the predicate given to the log stream's pump. *)
Definition logcat_line_filter (logcat_mode : LogcatMode) : LineFilter :=
  match logcat_mode with
  | AllMode => NoFilter
  | AppMode => AppFilter
  | ConsoleMode => ConsoleFilter
  end.

Fixpoint print_all (lines : list str) : M unit :=
  match lines with
  | [] => skip
  | line :: rest => print line ;; print_all rest
  end.

(** The body of the [try] statement of [run], from the values [run] has
    computed before it. *)
Definition session_body (chosen_port : Z) (npx_cmd adb_cmd : str)
           (adb_available : bool) (target app_id : option str)
           (logcat_mode : LogcatMode) : M unit :=
  print (lit "Waiting for Vite on 127.0.0.1:" ++ str_of_Z chosen_port
         ++ lit "...") ;;
  ready <- wait_for_port (port_probes w) ;;
  (if negb ready
   then print (lit "Warning: dev server not ready yet, continuing anyway.")
   else skip) ;;
  logcat_mode <-
    (if args_logcat args then
       logcat_mode <-
         (if is_app logcat_mode && negb (truthy app_id) then
            print (lit "Warning: appId not found; showing all logs.") ;;
            ret AllMode
          else ret logcat_mode) ;;
       let logcat_all := is_all logcat_mode in
       set_app_pid_holder (Some {| pid := None |}) ;;
       emit (RunCmd [adb_cmd; lit "logcat"; lit "-c"]) ;;
       print (lit "Starting adb logcat...") ;;
       proc <- start_logcat adb_cmd target (args_logcat_tags args)
                 logcat_all ;;
       set_logcat_proc proc ;;
       match proc with
       | Some p =>
           emit (StreamOutput p (lit "[logcat] ")
                   (logcat_line_filter logcat_mode))
       | None => skip
       end ;;
       ret logcat_mode
     else ret logcat_mode) ;;
  let cap_host :=
    if is_wifi (args_mode args) then unwrap (args_host args)
    else lit "localhost" in
  let cap_cmd :=
    [npx_cmd; lit "cap"; lit "run"; lit "android"; lit "-l"; lit "--host";
     cap_host; lit "--port"; str_of_Z chosen_port]
    ++ (if is_wifi (args_mode args) then []
        else [lit "--forwardPorts";
              str_of_Z chosen_port ++ lit ":" ++ str_of_Z chosen_port])
    ++ (if truthy target then [lit "--target"; unwrap target] else []) in
  print (lit "Starting Capacitor run...") ;;
  popen Cap (cap_popen_ok w) cap_cmd ;;
  set_cap_proc (Some Cap) ;;
  emit (StreamOutput Cap (lit "[cap] ") NoFilter) ;;
  (if args_logcat args then
     f <- get ;;
     if is_app logcat_mode && truthy app_id && adb_available
        && negb (is_None (app_pid_holder f))
     then
       print (lit "Waiting for app process for logcat (app mode)...") ;;
       found <- except_KeyboardInterrupt
                  (wait_for_pid adb_cmd (unwrap app_id) (pidof_replies w))
                  (ret None) ;;
       set_app_pid_holder (Some {| pid := found |}) ;;
       match found with
       | Some p =>
           if (p =? 0)%Z
           then print (lit "Warning: app pid not found; logcat may be noisy.")
           else print (lit "App PID: " ++ str_of_Z p)
       | None =>
           print (lit "Warning: app pid not found; logcat may be noisy.")
       end
     else skip
   else skip) ;;
  (if adb_available && args_devtools args then
     print (lit "Starting Chrome DevTools Protocol console capture...") ;;
     start_cdp_console_stream adb_cmd target
   else skip) ;;
  print (lit "Live reload running. Logs will appear here (Ctrl+C to stop).") ;;
  supervise (ticks w).

Definition run : M unit :=
  if is_wifi (args_mode args) && negb (truthy (args_host args)) then
    print (lit "Error: --host is required for wifi mode.") ;;
    return_ 2
  else
    chosen_port <-
      call (find_free_port (can_bind w) (lit "127.0.0.1") (args_port args)
              20) ;;
    (if negb (chosen_port =? args_port args)%Z
     then print (lit "Port " ++ str_of_Z (args_port args)
                 ++ lit " is busy; using " ++ str_of_Z chosen_port
                 ++ lit " instead.")
     else skip) ;;
    let npm_cmd := resolve_cmd (lit "npm") in
    let npx_cmd := resolve_cmd (lit "npx") in
    let adb_cmd := resolve_cmd (lit "adb") in
    if negb (which w npm_cmd) then
      print (lit "Error: npm not found in PATH.") ;;
      return_ 2
    else if negb (which w npx_cmd) then
      print (lit "Error: npx not found in PATH.") ;;
      return_ 2
    else
      let adb_available := which w adb_cmd in
      auto_target <-
        (if adb_available then
           emit (RunCmd [adb_cmd; lit "devices"]) ;;
           let '(auto_target, printed) := choose_target (adb_devices w) in
           print_all printed ;;
           (if truthy auto_target
            then print (lit "Using device: " ++ unwrap auto_target)
            else print (lit "Warning: No ready Android devices found.")) ;;
           ret auto_target
         else
           print (lit "Warning: adb not found in PATH. Device detection may fail.") ;;
           ret None) ;;
      (if adb_available && args_devtools args
       then emit (RunCmd [adb_cmd; lit "forward"; lit "tcp:9222";
                          lit "localabstract:chrome_devtools_remote"])
       else skip) ;;
      let target := or_else (args_target args) auto_target in
      let app_id :=
        or_else (args_app_id args) (read_app_id (capacitor_config w)) in
      let logcat_mode :=
        if args_logcat_all args then AllMode else args_logcat_mode args in
      print (lit "Starting Vite dev server...") ;;
      popen Dev (dev_popen_ok w)
        [npm_cmd; lit "run"; lit "dev"; lit "--"; lit "--host";
         lit "0.0.0.0"; lit "--strictPort"; lit "--port";
         str_of_Z chosen_port] ;;
      set_dev_proc (Some Dev) ;;
      emit (StreamOutput Dev (lit "[dev] ") NoFilter) ;;
      set_logcat_proc None ;;
      set_app_pid_holder None ;;
      try_finally
        (session_body chosen_port npx_cmd adb_cmd adb_available target
           app_id logcat_mode)
        teardown.

(** How the process ends: [sys.exit(run())]. *)
Inductive Exit :=
| ExitCode (code : Z)
| Uncaught (e : Raised)
| SessionRunning.

Definition main : list Event * Exit :=
  match run initial with
  | (f, Normal _) => (trace f, ExitCode 0)
  | (f, Returned code) => (trace f, ExitCode code)
  | (f, Raise e) => (trace f, Uncaught e)
  | (f, Running) => (trace f, SessionRunning)
  end.
End Session.

(** The events that start a child process. *)
Definition is_child_process (e : Event) : bool :=
  match e with
  | RunCmd _ => true
  | Popen _ _ => true
  | _ => false
  end.

(** The event that acquires the handle of [proc]. *)
Definition spawns (proc : Proc) (e : Event) : bool :=
  match e, proc with
  | Popen Dev _, Dev => true
  | Popen Logcat _, Logcat => true
  | Popen Cap _, Cap => true
  | _, _ => false
  end.

(** The events that release the handle of [proc]. *)
Definition releases (proc : Proc) (e : Event) : bool :=
  match e, proc with
  | Terminate Dev, Dev => true
  | Terminate Logcat, Logcat => true
  | Terminate Cap, Cap => true
  | Kill Dev, Dev => true
  | Kill Logcat, Logcat => true
  | Kill Cap, Cap => true
  | _, _ => false
  end.

(** ** Vocabulary of the session properties *)

(** A block that always falls through to the statement after it. *)
Definition normal {A} (m : M A) : Prop :=
  forall f, exists f' a, m f = (f', Normal a).

(** A block that always leaves [run] by [return code]. *)
Definition always_returns {A} (code : Z) (m : M A) : Prop :=
  forall f, snd (m f) = Returned code.

(** A block that keeps the property [I] of the frame however it is left,
    and whose value, when it falls through, satisfies [Q]. *)
Definition keeps {A} (I : Frame -> Prop) (m : M A) (Q : A -> Prop) : Prop :=
  forall f, I f ->
    I (fst (m f)) /\ forall a, snd (m f) = Normal a -> Q a.

Definition any {A} (a : A) : Prop := True.

(** No event of the trace releases the native app runner, and the two
    handles the [finally] block reads are those of the dev server and of
    the log stream. *)
Definition cap_never_released (f : Frame) : Prop :=
  existsb (releases Cap) (trace f) = false
  /\ (dev_proc f = None \/ dev_proc f = Some Dev)
  /\ (logcat_proc f = None \/ logcat_proc f = Some Logcat).

(** What the two checks of one turn do to the frame. *)
Definition cap_exit_logged (f : Frame) (code : Z) : Frame :=
  {| trace := trace f
       ++ [Print (lit "[cap] process exited with code " ++ str_of_Z code
                  ++ lit "; keeping wrapper alive.")];
     dev_proc := dev_proc f; logcat_proc := logcat_proc f;
     cap_proc := None; app_pid_holder := app_pid_holder f |}.

Definition dev_exit_logged (f : Frame) (code : Z) : Frame :=
  {| trace := trace f
       ++ [Print (lit "[dev] process exited with code " ++ str_of_Z code
                  ++ lit "; keeping wrapper alive.")];
     dev_proc := None; logcat_proc := logcat_proc f;
     cap_proc := cap_proc f; app_pid_holder := app_pid_holder f |}.

(** ** Inputs used in the examples *)

(** The command line with no option given: the [argparse] defaults. *)
Definition default_args : Args :=
  {| args_mode := Usb; args_host := None; args_port := 5173;
     args_target := None; args_app_id := None; args_logcat := true;
     args_logcat_mode := ConsoleMode; args_logcat_tags := None;
     args_logcat_all := false; args_devtools := false |}.

(** A workstation with every tool installed and one phone attached, on
    which every child process starts and keeps running; the user presses
    Ctrl+C after [turns] turns of the supervisory loop. *)
Definition workstation (turns : nat) : World :=
  {| os_name_nt := false;
     which := fun _ => true;
     can_bind := fun _ _ => true;
     adb_devices := Completed (lit "R58M1234 device");
     capacitor_config := ConfigParsed (Some (lit "com.example.app"));
     dev_popen_ok := true;
     port_probes := [ProbeRefused; ProbeConnected];
     logcat_popen_ok := true;
     cap_popen_ok := true;
     pidof_replies := [];
     has_websocket := false;
     cdp_forward := OSError;
     ticks := repeat (Poll None None) turns ++ [Interrupt];
     logcat_alive_at_exit := true;
     logcat_wait_expires := false;
     dev_wait_expires := false |}.

(** The same workstation without [npm]. *)
Definition workstation_without_npm : World :=
  {| os_name_nt := false;
     which := fun cmd => negb (str_eqb cmd (lit "npm"));
     can_bind := fun _ _ => true;
     adb_devices := Completed (lit "R58M1234 device");
     capacitor_config := ConfigParsed (Some (lit "com.example.app"));
     dev_popen_ok := true;
     port_probes := [ProbeRefused; ProbeConnected];
     logcat_popen_ok := true;
     cap_popen_ok := true;
     pidof_replies := [];
     has_websocket := false;
     cdp_forward := OSError;
     ticks := [Interrupt];
     logcat_alive_at_exit := true;
     logcat_wait_expires := false;
     dev_wait_expires := false |}.

(** The workstation without [npm], with every port up to 65535 taken. *)
Definition workstation_without_npm_ports_taken : World :=
  {| os_name_nt := false;
     which := fun cmd => negb (str_eqb cmd (lit "npm"));
     can_bind := fun _ _ => false;
     adb_devices := Completed (lit "R58M1234 device");
     capacitor_config := ConfigParsed (Some (lit "com.example.app"));
     dev_popen_ok := true;
     port_probes := [ProbeRefused; ProbeConnected];
     logcat_popen_ok := true;
     cap_popen_ok := true;
     pidof_replies := [];
     has_websocket := false;
     cdp_forward := OSError;
     ticks := [Interrupt];
     logcat_alive_at_exit := true;
     logcat_wait_expires := false;
     dev_wait_expires := false |}.

(** [--port 65535]. *)
Definition args_port_65535 : Args :=
  {| args_mode := Usb; args_host := None; args_port := 65535;
     args_target := None; args_app_id := None; args_logcat := true;
     args_logcat_mode := ConsoleMode; args_logcat_tags := None;
     args_logcat_all := false; args_devtools := false |}.

(** [--port 70000]. *)
Definition args_port_70000 : Args :=
  {| args_mode := Usb; args_host := None; args_port := 70000;
     args_target := None; args_app_id := None; args_logcat := true;
     args_logcat_mode := ConsoleMode; args_logcat_tags := None;
     args_logcat_all := false; args_devtools := false |}.

(** A debug endpoint that refuses every web-socket upgrade. *)
Definition strict_runtime : CdpWorld :=
  {| ws_url_reply := fun _ => Some (lit "ws://localhost:9222/devtools/page/1");
     create_connection := fun _ options =>
       match options with
       | SuppressOrigin => inr (lit "Handshake status 403 Forbidden")
       | WithOrigin origin =>
           if str_eqb origin (lit "chrome://inspect")
           then inr (lit "Handshake status 403 Forbidden (inspector)")
           else inr (lit "Handshake status 403 Forbidden (loopback)")
       end;
     send_raises := fun _ _ => None;
     received := fun _ => [] |}.

(* ================================================================== *)
(** * Vocabulary of the further properties                             *)
(* ================================================================== *)

(** ** Well-formed text *)

Definition no_whitespace (t : str) : Prop := existsb is_whitespace t = false.

(** A field: what [str.split()] can return. *)
Definition is_field (t : str) : Prop := t <> [] /\ no_whitespace t.

Definition all_whitespace (t : str) : Prop := forallb is_whitespace t = true.

(** A field with the white space that separates it from the one before. *)
Definition spaced_field (item : str * str) : Prop :=
  fst item <> [] /\ all_whitespace (fst item) /\ is_field (snd item).

(** The line [pad1 field1 pad2 field2 ...]. *)
Fixpoint padded (items : list (str * str)) : str :=
  match items with
  | [] => []
  | (pad, field) :: rest => pad ++ field ++ padded rest
  end.

(** Lines, each ended by a line feed. *)
Definition lines_of (lines : list str) : str :=
  List.concat (map (fun l => l ++ [10]) lines).

(** What [adb devices] prints for a table of (serial, state) rows: the
    header, one [serial TAB state] line per row, an empty line. *)
Definition adb_devices_row (row : str * str) : str :=
  fst row ++ [9] ++ snd row.

Definition adb_devices_output (rows : list (str * str)) : str :=
  lines_of (lit "List of devices attached" :: map adb_devices_row rows ++ [[]]).

(** ** Events of the bridge worker *)

Definition is_get_url (e : CdpEvent) : bool :=
  match e with GetUrl => true | _ => false end.

Definition is_close (e : CdpEvent) : bool :=
  match e with Close _ => true | _ => false end.

(** The socket an event writes to or closes. *)
Definition socket_of (e : CdpEvent) : option Socket :=
  match e with
  | Send ws _ => Some ws
  | Close ws => Some ws
  | _ => None
  end.

(** One unsuccessful turn of the discovery loop. *)
Definition retry : list CdpEvent := [GetUrl; CdpSleep 1].

(** A [recv] that leaves the receive loop where it is: an empty message
    or a time-out. *)
Definition is_idle (r : Recv) : bool :=
  match r with
  | RecvEmpty => true
  | RecvTimeout => true
  | _ => false
  end.

Definition is_failure (r : Recv) : bool :=
  match r with RecvFailed _ => true | _ => false end.

(** What the handled messages print. *)
Definition printed_lines (replies : list Recv) : list CdpEvent :=
  flat_map (fun r => match r with
                     | Handled (Some line) => [CdpPrint line]
                     | _ => []
                     end) replies.

Definition cdp_unavailable_warning : str :=
  lit "[cdp] Warning: Could not connect to WebView DevTools. Console logs unavailable.".

(** ** Feeds of a pump *)

(** The lines a pump reads from a feed: the writes to the shared cell
    left out, and nothing after an error. *)
Fixpoint lines_fed (feed : list Feed) : list str :=
  match feed with
  | [] => []
  | Line line :: rest => line :: lines_fed rest
  | PidWritten _ :: rest => lines_fed rest
  | ReadFailed _ :: _ => []
  end.

(** The error that ends the pump, if one does. *)
Fixpoint read_error (feed : list Feed) : option str :=
  match feed with
  | [] => None
  | ReadFailed e :: _ => Some e
  | _ :: rest => read_error rest
  end.

(** What the pump prints last when an error ended it. *)
Definition error_report (prefix : str) (feed : list Feed) : list str :=
  match read_error feed with
  | Some e => [prefix ++ lit "Error reading stream: " ++ e]
  | None => []
  end.

(** ** Frames *)

(** The frame [f] after [events] more, its variables unchanged. *)
Definition after_events (f : Frame) (events : list Event) : Frame :=
  {| trace := trace f ++ events; dev_proc := dev_proc f;
     logcat_proc := logcat_proc f; cap_proc := cap_proc f;
     app_pid_holder := app_pid_holder f |}.

(** The command [get_app_pid] runs. *)
Definition pidof_cmd (adb_cmd app_id : str) : Event :=
  RunCmd [adb_cmd; lit "shell"; lit "pidof"; lit "-s"; app_id].

Section PidReplies.
Context {U : UnicodeData}.

(** A reply after which [wait_for_pid] asks again: no PID could be read,
    or the PID read is 0. *)
Definition no_pid (outcome : RunOutcome) : Prop :=
  get_app_pid outcome = None \/ get_app_pid outcome = Some 0%Z.
End PidReplies.

(** ** Ways out of a block *)

(** How a block is left when it does not fall through. *)
Inductive Way :=
| ByReturn (code : Z)
| ByRaise (e : Raised)
| StillRunning.

(** Started in a frame that satisfies [P], the block [m] falls through
    with a value and a frame that satisfy [Q], or is left another way in a
    frame that satisfies [X]. *)
Definition triple {A} (P : Frame -> Prop) (m : M A)
           (Q : A -> Frame -> Prop) (X : Way -> Frame -> Prop) : Prop :=
  forall f, P f ->
    match m f with
    | (f', Normal a) => Q a f'
    | (f', Returned code) => X (ByReturn code) f'
    | (f', Raise e) => X (ByRaise e) f'
    | (f', Running) => X StillRunning f'
    end.

(** ** Ways out of the session *)

(** What the ways out of the [try] statement of [run] tell about the
    outside world. *)
Definition session_exit (w : World) (way : Way) : Prop :=
  match way with
  | ByReturn code => code = 0%Z /\ cap_popen_ok w = true
                     /\ In Interrupt (ticks w)
  | ByRaise KeyboardInterrupt => In ProbeInterrupted (port_probes w)
  | ByRaise (PopenOSError _) => cap_popen_ok w = false
  | ByRaise OverflowError => False
  | StillRunning => cap_popen_ok w = true /\ ~ In Interrupt (ticks w)
  end.

(** The session got as far as its supervisory loop: the flags were
    accepted, a port was chosen, the tools were found and the dev server
    and the native app runner were started. *)
Definition session_started (w : World) (args : Args) : Prop :=
  is_wifi (args_mode args) && negb (truthy (args_host args)) = false
  /\ (exists chosen_port,
         find_free_port (can_bind w) (lit "127.0.0.1") (args_port args) 20
         = Returns chosen_port)
  /\ which w (resolve_cmd w (lit "npm")) = true
  /\ which w (resolve_cmd w (lit "npx")) = true
  /\ dev_popen_ok w = true
  /\ cap_popen_ok w = true.

(** A set-up error: the flag combination [run] refuses, or a tool it
    does not find. *)
Definition setup_error (w : World) (args : Args) : Prop :=
  is_wifi (args_mode args) && negb (truthy (args_host args)) = true
  \/ which w (resolve_cmd w (lit "npm")) = false
  \/ which w (resolve_cmd w (lit "npx")) = false.

Definition run_exit (w : World) (args : Args) (way : Way) (f : Frame)
  : Prop :=
  match way with
  | ByReturn code =>
      (code = 2%Z /\ setup_error w args
       /\ existsb is_child_process (trace f) = false)
      \/ (code = 0%Z /\ session_started w args /\ In Interrupt (ticks w))
  | ByRaise KeyboardInterrupt =>
      dev_popen_ok w = true /\ In ProbeInterrupted (port_probes w)
  | ByRaise (PopenOSError _) =>
      dev_popen_ok w = false \/ cap_popen_ok w = false
  | ByRaise OverflowError =>
      find_free_port (can_bind w) (lit "127.0.0.1") (args_port args) 20
      = Raises OverflowError
  | StillRunning => session_started w args /\ ~ In Interrupt (ticks w)
  end.

(** ** Events of the log stream *)

(** The events that belong to the log stream: the [adb logcat] commands,
    the [adb shell pidof] of the PID discovery, and whatever is done with
    the handle of the log stream. *)
Definition is_logcat_event (e : Event) : bool :=
  match e with
  | RunCmd (_ :: sub :: _) =>
      str_eqb sub (lit "logcat") || str_eqb sub (lit "shell")
  | Popen Logcat _ => true
  | StreamOutput Logcat _ _ => true
  | Terminate Logcat => true
  | WaitFor Logcat _ => true
  | Kill Logcat => true
  | _ => false
  end.

(** [--no-logcat]. *)
Definition args_no_logcat : Args :=
  {| args_mode := Usb; args_host := None; args_port := 5173;
     args_target := None; args_app_id := None; args_logcat := false;
     args_logcat_mode := ConsoleMode; args_logcat_tags := None;
     args_logcat_all := false; args_devtools := false |}.

(** Nothing has been done for the log stream, and the handles the
    [finally] block reads are free or that of the dev server. *)
Definition no_logcat (f : Frame) : Prop :=
  existsb is_logcat_event (trace f) = false
  /\ logcat_proc f = None
  /\ (dev_proc f = None \/ dev_proc f = Some Dev).

(** ** The port of the session *)

(** The command line [argv] of the dev server or of the native app runner
    names the port [find_free_port] chose. *)
Definition names_chosen_port (w : World) (args : Args) (proc : Proc)
           (argv : list str) : Prop :=
  exists port,
    find_free_port (can_bind w) (lit "127.0.0.1") (args_port args) 20
    = Returns port
    /\ nth 7 argv [] = lit "--port"
    /\ nth 8 argv [] = str_of_Z port
    /\ (proc = Cap -> args_mode args = Usb ->
        nth 9 argv [] = lit "--forwardPorts"
        /\ nth 10 argv [] = str_of_Z port ++ lit ":" ++ str_of_Z port).

Definition one_port (w : World) (args : Args) (f : Frame) : Prop :=
  forall proc argv,
    In (Popen proc argv) (trace f) -> proc <> Logcat ->
    names_chosen_port w args proc argv.

(** ** Release of the handles [run] holds *)

(** [proc.terminate()], [proc.wait(timeout=...)] and, when the wait
    expired, [proc.kill()]. *)
Definition release (proc : Proc) (timeout : Z) (expires : bool)
  : list Event :=
  Terminate proc :: WaitFor proc timeout
    :: (if expires then [Kill proc] else []).

(** What the supervisory loop prints when the dev server has exited. *)
Definition dev_exit_line (code : Z) : str :=
  lit "[dev] process exited with code " ++ str_of_Z code
  ++ lit "; keeping wrapper alive.".

(** What the [finally] block does for each of the two handles it reads. *)
Definition logcat_release (w : World) (f : Frame) : list Event :=
  match logcat_proc f with
  | Some p =>
      if logcat_alive_at_exit w then release p 5 (logcat_wait_expires w)
      else []
  | None => []
  end.

Definition dev_release (w : World) (f : Frame) : list Event :=
  match dev_proc f with
  | Some p => release p 10 (dev_wait_expires w)
  | None => []
  end.

(** Neither the dev server nor the log stream has been started. *)
Definition unspawned (f : Frame) : Prop :=
  existsb (spawns Dev) (trace f) = false
  /\ existsb (spawns Logcat) (trace f) = false
  /\ dev_proc f = None
  /\ logcat_proc f = None.

(** The handle of the dev server is held, or the loop has seen the dev
    server exit. *)
Definition dev_held (f : Frame) : Prop :=
  dev_proc f = Some Dev
  \/ dev_proc f = None
     /\ exists code, In (Print (dev_exit_line code)) (trace f).

(** The log stream has not been started, or its handle is held. *)
Definition logcat_unspawned (f : Frame) : Prop :=
  existsb (spawns Logcat) (trace f) = false /\ logcat_proc f = None.

Definition held (f : Frame) : Prop :=
  dev_held f /\ (logcat_unspawned f \/ logcat_proc f = Some Logcat).

Definition held_before_logcat (f : Frame) : Prop :=
  dev_held f /\ logcat_unspawned f.

(** The trace of a session that was left with its handles released. *)
Definition released (w : World) (t : list Event) : Prop :=
  (existsb (spawns Dev) t = true ->
   (exists code, In (Print (dev_exit_line code)) t)
   \/ exists before, t = before ++ release Dev 10 (dev_wait_expires w))
  /\ (existsb (spawns Logcat) t = true ->
      logcat_alive_at_exit w = true ->
      exists before after,
        t = before ++ release Logcat 5 (logcat_wait_expires w) ++ after
        /\ (after = [] \/ after = release Dev 10 (dev_wait_expires w))).

(** ** Events of the DevTools bridge *)

(** The events that belong to the DevTools capture: an [adb forward]
    command, with or without [-s serial], and the start of the worker. *)
Definition is_devtools_event (e : Event) : bool :=
  match e with
  | RunCmd argv =>
      str_eqb (nth 1 argv []) (lit "forward")
      || str_eqb (nth 1 argv []) (lit "-s")
         && str_eqb (nth 3 argv []) (lit "forward")
  | StartCdpPump => true
  | _ => false
  end.

(** When an event of the DevTools capture may be in the trace. *)
Definition devtools_allowed (w : World) (args : Args) (e : Event) : Prop :=
  args_devtools args = true
  /\ which w (resolve_cmd w (lit "adb")) = true
  /\ (e = StartCdpPump ->
      has_websocket w = true
      /\ exists stdout, cdp_forward w = Completed stdout).

Definition devtools_opt_in (w : World) (args : Args) (f : Frame) : Prop :=
  forall e, In e (trace f) -> is_devtools_event e = true ->
            devtools_allowed w args e.

(** ** The streams of the session *)

(** The prefix and the filter [run] gives to the output of [proc]. *)
Definition stream_of (args : Args) (app_id : option str) (proc : Proc)
  : str * LineFilter :=
  match proc with
  | Dev => (lit "[dev] ", NoFilter)
  | Cap => (lit "[cap] ", NoFilter)
  | Logcat =>
      (lit "[logcat] ",
       if args_logcat_all args then NoFilter
       else match args_logcat_mode args with
            | AllMode => NoFilter
            | AppMode => if truthy app_id then AppFilter else NoFilter
            | ConsoleMode => ConsoleFilter
            end)
  end.

Definition streams_as_asked (args : Args) (app_id : option str) (f : Frame)
  : Prop :=
  forall proc prefix line_filter,
    In (StreamOutput proc prefix line_filter) (trace f) ->
    (prefix, line_filter) = stream_of args app_id proc
    /\ (proc = Logcat -> args_logcat args = true).

(** ** Reports of the supervisory loop *)

(** The line the supervisory loop prints when the dev server, or the
    native app runner, has exited. *)
Definition is_dev_exit (e : Event) : bool :=
  match e with
  | Print line => startswith (lit "[dev] process exited") line
  | _ => false
  end.

Definition is_cap_exit (e : Event) : bool :=
  match e with
  | Print line => startswith (lit "[cap] process exited") line
  | _ => false
  end.

(** No exit of a child has been reported. *)
Definition unreported (f : Frame) : Prop :=
  filter is_dev_exit (trace f) = [] /\ filter is_cap_exit (trace f) = [].

(** The exit of a child has been reported once at most, and then its
    handle is dropped. *)
Definition reported_once (f : Frame) : Prop :=
  (filter is_dev_exit (trace f) = []
   \/ dev_proc f = None
      /\ List.length (filter is_dev_exit (trace f)) = 1%nat)
  /\ (filter is_cap_exit (trace f) = []
      \/ cap_proc f = None
         /\ List.length (filter is_cap_exit (trace f)) = 1%nat).

(** ** The device of the session *)

(** The device [run] works with: [args.target or auto_target]. *)
Definition session_target (w : World) (args : Args) : option str :=
  or_else (args_target args)
    (if which w (resolve_cmd w (lit "adb"))
     then fst (choose_target (adb_devices w)) else None).

(** The command line of [e] names the device [target], or none when there
    is no target. *)
Definition names_target (w : World) (args : Args) (target : option str)
           (e : Event) : Prop :=
  match e with
  | Popen Logcat argv =>
      exists rest,
        argv = resolve_cmd w (lit "adb")
               :: (if truthy target then [lit "-s"; unwrap target] else [])
               ++ lit "logcat" :: rest
  | Popen Cap argv =>
      exists front,
        List.length front = (if is_wifi (args_mode args) then 9 else 11)%nat
        /\ argv = front ++ (if truthy target
                            then [lit "--target"; unwrap target] else [])
  | RunCmd argv =>
      nth 1 argv [] = lit "-s" ->
      truthy target = true /\ nth 2 argv [] = unwrap target
  | _ => True
  end.

Definition one_device (w : World) (args : Args) (target : option str)
           (f : Frame) : Prop :=
  forall e, In e (trace f) -> names_target w args target e.

(** The port forwarding of the bridge for the device [target]:
    [adb -s target forward ...], or without [-s] when there is no
    target. *)
Definition bridge_forward (w : World) (target : option str) : Event :=
  RunCmd (resolve_cmd w (lit "adb")
          :: (if truthy target then [lit "-s"; unwrap target] else [])
          ++ [lit "forward"; lit "tcp:9222";
              lit "localabstract:chrome_devtools_remote"]).

(** Wherever the worker of the bridge is started, the port forwarding for
    [target] is what was done right before. *)
Definition forwards_first (w : World) (target : option str) (f : Frame)
  : Prop :=
  forall before after,
    trace f = before ++ StartCdpPump :: after ->
    exists earlier, before = earlier ++ [bridge_forward w target].

(** ** Inputs used in the further examples *)

(** A debug endpoint that comes up at the third poll, refuses the
    handshake without Origin and accepts the inspector origin; the page
    then logs one line and the connection breaks. *)
Definition late_runtime : CdpWorld :=
  {| ws_url_reply := fun retry_count =>
       if (retry_count <? 2)%nat then None
       else Some (lit "ws://localhost:9222/devtools/page/1");
     create_connection := fun _ options =>
       match options with
       | SuppressOrigin => inr (lit "Handshake status 403 Forbidden")
       | WithOrigin _ => inl 7
       end;
     send_raises := fun _ _ => None;
     received := fun _ =>
       [RecvEmpty; Handled (Some (lit "[console.log] ready")); RecvTimeout;
        Handled None; RecvFailed (lit "Connection is already closed.")] |}.

(** [--devtools]. *)
Definition args_devtools_on : Args :=
  {| args_mode := Usb; args_host := None; args_port := 5173;
     args_target := None; args_app_id := None; args_logcat := true;
     args_logcat_mode := ConsoleMode; args_logcat_tags := None;
     args_logcat_all := false; args_devtools := true |}.

(** The workstation with the web-socket module installed and a device
    that accepts the port forwarding. *)
Definition debug_workstation : World :=
  {| os_name_nt := false;
     which := fun _ => true;
     can_bind := fun _ _ => true;
     adb_devices := Completed (lit "R58M1234 device");
     capacitor_config := ConfigParsed (Some (lit "com.example.app"));
     dev_popen_ok := true;
     port_probes := [ProbeConnected];
     logcat_popen_ok := true;
     cap_popen_ok := true;
     pidof_replies := [];
     has_websocket := true;
     cdp_forward := Completed [];
     ticks := [Interrupt];
     logcat_alive_at_exit := true;
     logcat_wait_expires := false;
     dev_wait_expires := false |}.

(* ================================================================== *)
(** * Properties                                                       *)
(* ================================================================== *)

(** ** Text *)

Lemma str_eqb_eq (a b : str) : str_eqb a b = true <-> a = b.
Proof.
  revert b; induction a as [|x a IH]; intros [|y b]; simpl;
    try (split; [discriminate | congruence]).
  - split; reflexivity.
  - rewrite andb_true_iff, N.eqb_eq, IH. split.
    + intros [-> ->]; reflexivity.
    + intros E; injection E; auto.
Qed.

Lemma str_eqb_refl (a : str) : str_eqb a a = true.
Proof. apply str_eqb_eq; reflexivity. Qed.

Lemma str_eqb_neq (a b : str) : a <> b -> str_eqb a b = false.
Proof.
  intros H. destruct (str_eqb a b) eqn:E; [|reflexivity].
  apply str_eqb_eq in E. contradiction.
Qed.

Lemma startswith_app (prefix rest : str) : startswith prefix (prefix ++ rest) = true.
Proof.
  induction prefix as [|p prefix IH]; simpl; [reflexivity|].
  rewrite N.eqb_refl, IH. reflexivity.
Qed.

Lemma startswith_inv (prefix s : str) :
  startswith prefix s = true -> exists rest, s = prefix ++ rest.
Proof.
  revert s; induction prefix as [|p prefix IH]; intros s H.
  - exists s; reflexivity.
  - destruct s as [|c s]; simpl in H; [discriminate|].
    apply andb_true_iff in H as [Hc Hs]. apply N.eqb_eq in Hc; subst c.
    destruct (IH _ Hs) as [rest ->]. exists rest; reflexivity.
Qed.

(** [needle in hay] holds exactly when [hay] splits around [needle]. *)
Lemma contains_iff (needle hay : str) :
  contains needle hay = true <-> exists pre post, hay = pre ++ needle ++ post.
Proof.
  split.
  - induction hay as [|c hay IH]; simpl; intros H.
    + rewrite orb_false_r in H. apply startswith_inv in H as [rest ->].
      exists [], rest; reflexivity.
    + apply orb_true_iff in H as [H|H].
      * apply startswith_inv in H as [rest ->]. exists [], rest; reflexivity.
      * destruct (IH H) as (pre & post & ->). exists (c :: pre), post; reflexivity.
  - intros (pre & post & ->). induction pre as [|c pre IH].
    + simpl app. destruct (needle ++ post) eqn:E; simpl.
      * destruct needle; [reflexivity | discriminate].
      * rewrite <- E, startswith_app. reflexivity.
    + simpl. rewrite IH. apply orb_true_r.
Qed.

(** ** Port allocator *)

Section PortAllocatorFacts.
Variable can_bind : str -> Z -> bool.
Local Open Scope Z_scope.

(** A port number [bind] accepts is one of 0 .. 65535. *)
Lemma socket_bind_in_range (host : str) (q : Z) :
  socket_bind can_bind host q <> BindOverflowError <-> 0 <= q <= 65535.
Proof.
  unfold socket_bind.
  destruct (Z.ltb_spec q 0); destruct (Z.ltb_spec 65535 q); simpl;
    try (split; [congruence | lia]).
  split; [lia|]. destruct (can_bind host q); discriminate.
Qed.

(** On a port number in range, a socket that is not bound met [OSError]. *)
Lemma socket_bind_refused (host : str) (q : Z) :
  0 <= q <= 65535 ->
  socket_bind can_bind host q <> Bound ->
  socket_bind can_bind host q = BindOSError.
Proof.
  intros Hq Hn. apply socket_bind_in_range with (host := host) in Hq.
  destruct (socket_bind can_bind host q); congruence.
Qed.

Lemma try_ports_none (host : str) (n : nat) :
  forall p,
    (forall q, p <= q < p + Z.of_nat n ->
               socket_bind can_bind host q = BindOSError) ->
    try_ports can_bind host p n = Returns None.
Proof.
  induction n as [|n IH]; intros p H; simpl; [reflexivity|].
  rewrite (H p) by lia. apply IH. intros q Hq; apply H; lia.
Qed.

Lemma try_ports_first (host : str) (n : nat) :
  forall p r,
    p <= r < p + Z.of_nat n ->
    socket_bind can_bind host r = Bound ->
    (forall q, p <= q < r -> socket_bind can_bind host q = BindOSError) ->
    try_ports can_bind host p n = Returns (Some r).
Proof.
  induction n as [|n IH]; intros p r Hr Hb Hfirst; [lia|]. simpl.
  destruct (Z.eq_dec r p) as [->|Hne].
  - rewrite Hb; reflexivity.
  - rewrite (Hfirst p) by lia. apply IH; [lia | exact Hb |].
    intros q Hq; apply Hfirst; lia.
Qed.

(** The range reaches a number [bind] does not accept before a port that
    can be bound. *)
Lemma try_ports_overflow (host : str) (n : nat) :
  forall p r,
    p <= r < p + Z.of_nat n ->
    socket_bind can_bind host r = BindOverflowError ->
    (forall q, p <= q < r -> socket_bind can_bind host q = BindOSError) ->
    try_ports can_bind host p n = Raises OverflowError.
Proof.
  induction n as [|n IH]; intros p r Hr Hb Hfirst; [lia|]. simpl.
  destruct (Z.eq_dec r p) as [->|Hne].
  - rewrite Hb; reflexivity.
  - rewrite (Hfirst p) by lia. apply (IH (p + 1) r); [lia | exact Hb |].
    intros q Hq; apply Hfirst; lia.
Qed.
End PortAllocatorFacts.

(** C2. For every preferred port [P] and attempt budget [N],
    [find_free_port] returns the first port of [[P, P+N)] on which the
    socket can be bound.  When no port of the range can be bound, it
    returns [P] unchanged as long as the range ends at port 65535 or
    before.  When the range runs past 65535 and every port from [P] to
    65535 is occupied, the call does not return [P]: [bind] raises
    [OverflowError] at port 65536, the loop catches only [OSError], and the
    exception leaves [find_free_port].  So it is with port 65535 in use
    and the twenty attempts [run] asks for. *)
Theorem find_free_port_contract
  (can_bind : str -> Z -> bool) (host : str) (P N : Z) :
  (0 <= P <= 65535)%Z ->
  (forall r : Z,
      (P <= r < P + N)%Z ->
      socket_bind can_bind host r = Bound ->
      (forall q, (P <= q < r)%Z -> socket_bind can_bind host q <> Bound) ->
      find_free_port can_bind host P N = Returns r)
  /\ ((P + Z.max 1 N <= 65536)%Z ->
      (forall q, (P <= q < P + N)%Z ->
                 socket_bind can_bind host q <> Bound) ->
      find_free_port can_bind host P N = Returns P)
  /\ ((65536 < P + N)%Z ->
      (forall q, (P <= q <= 65535)%Z ->
                 socket_bind can_bind host q <> Bound) ->
      find_free_port can_bind host P N = Raises OverflowError)
  /\ find_free_port (fun _ _ => false) (lit "127.0.0.1") 65535 20
     = Raises OverflowError.
Proof.
  intros HP. unfold find_free_port. split; [|split; [|split]].
  - intros r Hr Hb Hfirst.
    assert (Hr' : (0 <= r <= 65535)%Z).
    { apply (socket_bind_in_range can_bind host). rewrite Hb. discriminate. }
    rewrite (try_ports_first can_bind host _ P r); [reflexivity | | exact Hb |].
    + rewrite Z2Nat.id by lia. lia.
    + intros q Hq. apply socket_bind_refused; [lia | apply Hfirst; lia].
  - intros Hend Hocc.
    destruct (Z_lt_le_dec N 1) as [Hn|Hn].
    + replace (Z.max 1 N) with 1%Z by lia. simpl.
      pose proof (proj2 (socket_bind_in_range can_bind host P) HP) as Hv.
      destruct (socket_bind can_bind host P); [reflexivity | reflexivity |].
      exfalso. apply Hv. reflexivity.
    + rewrite (try_ports_none can_bind host); [reflexivity|].
      intros q Hq. rewrite Z2Nat.id in Hq by lia.
      apply socket_bind_refused; [lia | apply Hocc; lia].
  - intros Hpast Hocc.
    rewrite (try_ports_overflow can_bind host _ P 65536); [reflexivity | | |].
    + rewrite Z2Nat.id by lia. lia.
    + reflexivity.
    + intros q Hq. apply socket_bind_refused; [lia | apply Hocc; lia].
  - reflexivity.
Qed.

(** The allocator on a host where 5173 and 5174 are taken, on one where
    nothing can be bound, and on the latter at the end of the port
    range. *)
Lemma find_free_port_contract_witness :
  find_free_port (fun _ p => (5175 <=? p)%Z) (lit "127.0.0.1") 5173 20
  = Returns 5175%Z
  /\ find_free_port (fun _ _ => false) (lit "127.0.0.1") 5173 20
     = Returns 5173%Z
  /\ find_free_port (fun _ _ => false) (lit "127.0.0.1") 65530 20
     = Raises OverflowError.
Proof.
  split; [|split].
  - apply (proj1 (find_free_port_contract
                    (fun _ p => (5175 <=? p)%Z) (lit "127.0.0.1") 5173 20
                    ltac:(lia))).
    + lia.
    + reflexivity.
    + intros q Hq. unfold socket_bind.
      destruct (Z.ltb_spec q 0); [lia|].
      destruct (Z.ltb_spec 65535 q); [lia|]. simpl.
      destruct (Z.leb_spec 5175 q); [lia | discriminate].
  - apply (proj1 (proj2 (find_free_port_contract
                           (fun _ _ => false) (lit "127.0.0.1") 5173 20
                           ltac:(lia)))).
    + lia.
    + intros q Hq. unfold socket_bind.
      destruct (Z.ltb_spec q 0); [lia|].
      destruct (Z.ltb_spec 65535 q); [lia | discriminate].
  - apply (proj1 (proj2 (proj2 (find_free_port_contract
                                  (fun _ _ => false) (lit "127.0.0.1")
                                  65530 20 ltac:(lia))))).
    + lia.
    + intros q Hq. unfold socket_bind.
      destruct (Z.ltb_spec q 0); [lia|].
      destruct (Z.ltb_spec 65535 q); [lia | discriminate].
Defined.

(** ** Device registry *)

Lemma first_physical_found (emulators : list Device) (serial : str)
      (rest : list Device) :
  forallb snd emulators = true ->
  first_physical (emulators ++ (serial, false) :: rest) = Some serial.
Proof.
  induction emulators as [|[s e] emulators IH]; simpl; intros H.
  - reflexivity.
  - apply andb_true_iff in H as [-> H]. simpl. exact (IH H).
Qed.

Lemma first_physical_none (devices : list Device) :
  forallb snd devices = true -> first_physical devices = None.
Proof.
  induction devices as [|[s e] devices IH]; simpl; intros H.
  - reflexivity.
  - apply andb_true_iff in H as [-> H]. simpl. exact (IH H).
Qed.

(** A list with a physical device splits at the first one. *)
Lemma first_physical_split (devices : list Device) :
  existsb (fun d => negb (snd d)) devices = true ->
  exists emulators serial rest,
    devices = emulators ++ (serial, false) :: rest
    /\ forallb snd emulators = true.
Proof.
  induction devices as [|[s e] devices IH]; simpl; intros H.
  - discriminate.
  - destruct e; simpl in H.
    + destruct (IH H) as (emulators & serial & rest & -> & Hall).
      exists ((s, true) :: emulators), serial, rest. split; [reflexivity|].
      simpl. exact Hall.
    + exists [], s, devices. split; reflexivity.
Qed.

Lemma choose_among_first_physical (emulators : list Device) (serial : str)
      (rest : list Device) :
  forallb snd emulators = true ->
  choose_among (emulators ++ (serial, false) :: rest) = Some serial.
Proof.
  intros Hall. unfold choose_among.
  pose proof (first_physical_found emulators serial rest Hall) as Hf.
  destruct (emulators ++ (serial, false) :: rest) as [|d [|d' tl]] eqn:E.
  - destruct emulators; discriminate.
  - destruct emulators as [|x [|y emulators]]; simpl in E.
    + injection E as <-. reflexivity.
    + discriminate.
    + discriminate.
  - rewrite Hf. reflexivity.
Qed.

(** Each turn of the parsing loop appends to the list, whatever the list
    holds already. *)
Lemma adb_devices_line_app (devices : list Device) (line : str) :
  adb_devices_line devices line = devices ++ adb_devices_line [] line.
Proof.
  unfold adb_devices_line.
  destruct (negb (nonempty (strip line))
            || startswith (lit "List of devices") (strip line));
    [rewrite app_nil_r; reflexivity|].
  destruct (split (strip line)) as [|serial [|state rest]];
    try (rewrite app_nil_r; reflexivity).
  destruct (negb (str_eqb state (lit "device")));
    [rewrite app_nil_r; reflexivity | reflexivity].
Qed.

Lemma fold_adb_devices_line (lines : list str) :
  forall devices,
    fold_left adb_devices_line lines devices
    = devices ++ flat_map (adb_devices_line []) lines.
Proof.
  induction lines as [|line lines IH]; intros devices; simpl.
  - rewrite app_nil_r; reflexivity.
  - rewrite IH, adb_devices_line_app, app_assoc. reflexivity.
Qed.

(** What one line contributes: nothing, or one record whose flag is read
    off its serial. *)
Lemma adb_devices_line_cases (line : str) :
  adb_devices_line [] line = []
  \/ exists serial rest,
       split (strip line) = serial :: lit "device" :: rest
       /\ startswith (lit "List of devices") (strip line) = false
       /\ adb_devices_line [] line
          = [(serial, startswith (lit "emulator-") serial)].
Proof.
  unfold adb_devices_line.
  destruct (nonempty (strip line)); cbn [negb orb]; [|left; reflexivity].
  destruct (startswith (lit "List of devices") (strip line)) eqn:Hh;
    [left; reflexivity|].
  destruct (split (strip line)) as [|serial [|state rest]];
    try (left; reflexivity).
  destruct (str_eqb state (lit "device")) eqn:Hs; cbn [negb];
    [|left; reflexivity].
  apply str_eqb_eq in Hs; subst state.
  right. exists serial, rest. repeat split; reflexivity.
Qed.

(** Every record [list_adb_devices] returns carries the flag
    [serial.startswith("emulator-")]. *)
Lemma list_adb_devices_flags (adb : RunOutcome) (serial : str) (e : bool) :
  In (serial, e) (fst (list_adb_devices adb)) ->
  e = startswith (lit "emulator-") serial.
Proof.
  destruct adb as [stdout| |]; simpl; try contradiction.
  rewrite fold_adb_devices_line. simpl.
  intros H. apply in_flat_map in H as (line & _ & H).
  destruct (adb_devices_line_cases line) as [E | (s & rest & _ & _ & E)];
    rewrite E in H; simpl in H.
  - contradiction.
  - destruct H as [H|[]]. injection H as <- <-. reflexivity.
Qed.

(** C3. For every device list, [choose_target] picks nothing from an
    empty list, the sole entry of a one-device list, and otherwise the
    first non-emulator device, falling back to the first entry when every
    device is an emulator; so whenever some entry is not an emulator the
    serial chosen is that of a non-emulator entry (through
    [list_adb_devices]: a serial that does not start with ["emulator-"]). *)
Theorem choose_target_prefers_physical (devices : list Device) :
  (devices = [] -> choose_among devices = None)
  /\ (forall d, devices = [d] -> choose_among devices = Some (fst d))
  /\ (forall emulators serial rest,
         devices = emulators ++ (serial, false) :: rest ->
         forallb snd emulators = true ->
         choose_among devices = Some serial)
  /\ (forall d rest,
         devices = d :: rest -> forallb snd devices = true ->
         choose_among devices = Some (fst d))
  /\ (existsb (fun d => negb (snd d)) devices = true ->
      exists serial,
        In (serial, false) devices /\ choose_among devices = Some serial)
  /\ (forall adb,
         devices = fst (list_adb_devices adb) ->
         existsb (fun d => negb (snd d)) devices = true ->
         fst (choose_target adb) = choose_among devices
         /\ exists serial,
              choose_among devices = Some serial
              /\ startswith (lit "emulator-") serial = false).
Proof.
  assert (Hsome : existsb (fun d => negb (snd d)) devices = true ->
                  exists serial,
                    In (serial, false) devices
                    /\ choose_among devices = Some serial).
  { intros H.
    destruct (first_physical_split devices H)
      as (emulators & serial & rest & -> & Hall).
    exists serial. split.
    - apply in_or_app; right; left; reflexivity.
    - apply choose_among_first_physical; exact Hall. }
  split; [intros ->; reflexivity|].
  split; [intros d ->; reflexivity|].
  split; [intros emulators serial rest -> Hall;
          apply choose_among_first_physical; exact Hall|].
  split.
  { intros d rest -> Hall. unfold choose_among.
    rewrite (first_physical_none _ Hall). destruct rest; reflexivity. }
  split; [exact Hsome|].
  intros adb -> Hex. split.
  - unfold choose_target. destruct (list_adb_devices adb); reflexivity.
  - destruct (Hsome Hex) as (serial & Hin & Hc).
    exists serial. split; [exact Hc|].
    symmetry. exact (list_adb_devices_flags adb serial false Hin).
Qed.

(** Two devices ready, the emulator listed first. *)
Lemma choose_target_prefers_physical_witness :
  choose_among [(lit "emulator-5554", true); (lit "R58M1234", false)]
  = Some (lit "R58M1234").
Proof.
  apply (proj1 (proj2 (proj2
           (choose_target_prefers_physical
              [(lit "emulator-5554", true); (lit "R58M1234", false)])))
           [(lit "emulator-5554", true)] (lit "R58M1234") []).
  - reflexivity.
  - reflexivity.
Defined.

(** The claim C8 as the design document words it (an empty list and a
    warning both on time-out and when the bridge binary cannot be run)
    fails: the [except OSError] branch returns without printing. *)
Lemma list_adb_devices_OSError_is_silent :
  ~ (forall adb : RunOutcome,
        adb = TimeoutExpired \/ adb = OSError ->
        fst (list_adb_devices adb) = []
        /\ snd (list_adb_devices adb) <> []).
Proof.
  intros H. destruct (H OSError (or_intror eq_refl)) as [_ Hw].
  apply Hw. reflexivity.
Qed.

(** C8 (amended). [list_adb_devices] turns the enumeration output into
    device records line by line, in order: a header line, a line with
    fewer than two fields and a device whose state is not ["device"] give
    nothing, any other line gives [(serial, serial starts with
    "emulator-")].  On time-out it returns the empty list and prints a
    warning; when the bridge binary cannot be run ([OSError]) it returns
    the empty list and prints nothing.  These are the two failures of the
    call the function handles, and it returns on both. *)
Theorem list_adb_devices_contract (stdout line : str) :
  list_adb_devices (Completed stdout)
  = (flat_map (adb_devices_line []) (splitlines stdout), [])
  /\ (forall serial e,
         In (serial, e) (fst (list_adb_devices (Completed stdout))) <->
         exists l rest,
           In l (splitlines stdout)
           /\ startswith (lit "List of devices") (strip l) = false
           /\ split (strip l) = serial :: lit "device" :: rest
           /\ e = startswith (lit "emulator-") serial)
  /\ (startswith (lit "List of devices") (strip line) = true ->
      adb_devices_line [] line = [])
  /\ ((List.length (split (strip line)) < 2)%nat ->
      adb_devices_line [] line = [])
  /\ (forall serial state rest,
         split (strip line) = serial :: state :: rest ->
         state <> lit "device" ->
         adb_devices_line [] line = [])
  /\ (forall serial rest,
         startswith (lit "List of devices") (strip line) = false ->
         split (strip line) = serial :: lit "device" :: rest ->
         adb_devices_line [] line
         = [(serial, startswith (lit "emulator-") serial)])
  /\ list_adb_devices TimeoutExpired = ([], [adb_devices_timeout_warning])
  /\ list_adb_devices OSError = ([], []).
Proof.
  assert (Hready : forall l serial rest,
             startswith (lit "List of devices") (strip l) = false ->
             split (strip l) = serial :: lit "device" :: rest ->
             adb_devices_line [] l
             = [(serial, startswith (lit "emulator-") serial)]).
  { intros l serial rest Hh Hs. unfold adb_devices_line.
    rewrite Hh, Hs, str_eqb_refl.
    destruct (strip l); [discriminate Hs | reflexivity]. }
  split.
  { simpl. rewrite fold_adb_devices_line. reflexivity. }
  split.
  { intros serial e. simpl. rewrite fold_adb_devices_line. simpl.
    rewrite in_flat_map. split.
    - intros (l & Hl & Hin).
      destruct (adb_devices_line_cases l) as [E | (s & rest & Hs & Hh & E)];
        rewrite E in Hin; simpl in Hin; [contradiction|].
      destruct Hin as [Hin|[]]. injection Hin as <- <-.
      exists l, rest. repeat split; assumption.
    - intros (l & rest & Hl & Hh & Hs & ->).
      exists l. split; [exact Hl|].
      rewrite (Hready l serial rest Hh Hs). left; reflexivity. }
  split.
  { intros Hh. unfold adb_devices_line. rewrite Hh, orb_true_r. reflexivity. }
  split.
  { intros Hlen. unfold adb_devices_line.
    destruct (negb (nonempty (strip line))
              || startswith (lit "List of devices") (strip line));
      [reflexivity|].
    destruct (split (strip line)) as [|serial [|state rest]];
      [reflexivity | reflexivity | simpl in Hlen; lia]. }
  split.
  { intros serial state rest Hs Hne. unfold adb_devices_line.
    rewrite Hs, (str_eqb_neq _ _ Hne).
    destruct (negb (nonempty (strip line))
              || startswith (lit "List of devices") (strip line));
      reflexivity. }
  split; [exact (Hready line)|].
  split; reflexivity.
Qed.

(** The enumeration of one emulator, one phone and one phone that is
    not authorised yet. *)
Lemma list_adb_devices_contract_witness :
  adb_devices_line [] (lit "R58M1234       device")
  = [(lit "R58M1234", false)]
  /\ adb_devices_line [] (lit "R58M1234   unauthorized") = [].
Proof.
  split.
  - apply (proj1 (proj2 (proj2 (proj2 (proj2 (proj2
             (list_adb_devices_contract [] (lit "R58M1234       device")))))))
             (lit "R58M1234") []).
    + reflexivity.
    + reflexivity.
  - apply (proj1 (proj2 (proj2 (proj2 (proj2
             (list_adb_devices_contract [] (lit "R58M1234   unauthorized"))))))
             (lit "R58M1234") (lit "unauthorized") []).
    + reflexivity.
    + discriminate.
Defined.

(** ** Log filter pipeline *)

Section LogFilterFacts.
Context {U : UnicodeData}.

Lemma upper_app (a b : str) : upper (a ++ b) = upper a ++ upper b.
Proof. unfold upper. apply flat_map_app. Qed.

Lemma ascii_upper_below (c : char) : ascii_upper c < 128 -> c < 128.
Proof.
  unfold ascii_upper.
  destruct ((97 <=? c) && (c <=? 122)) eqn:E; [|trivial].
  apply andb_true_iff in E as [_ E]. apply N.leb_le in E. lia.
Qed.

(** On ASCII text [str.upper()] is the ASCII upper-casing. *)
Lemma upper_ascii (word : str) :
  Forall (fun c => c < 128) (map ascii_upper word) ->
  upper word = map ascii_upper word.
Proof.
  induction word as [|c word IH]; simpl; intros H; [reflexivity|].
  inversion H as [|? ? Hc Hrest]; subst.
  unfold upper in *. simpl.
  rewrite (to_upper_full_ascii c (ascii_upper_below c Hc)), (IH Hrest).
  reflexivity.
Qed.

Lemma parse_threadtime_pid_none (line : str) :
  (List.length (split line) < 5)%nat
  \/ python_int (nth 2 (split line) []) = None ->
  parse_threadtime_pid line = None.
Proof.
  unfold parse_threadtime_pid. intros [H|H].
  - apply Nat.ltb_lt in H. rewrite H. reflexivity.
  - rewrite H. destruct (List.length (split line) <? 5)%nat; reflexivity.
Qed.

Lemma opt_int_eqb_some (a : option Z) (P : Z) :
  opt_int_eqb a (Some P) = true <-> a = Some P.
Proof.
  destruct a as [x|]; simpl.
  - rewrite Z.eqb_eq. split; [intros ->; reflexivity | congruence].
  - split; discriminate.
Qed.

(** C4. The console-mode predicate is true exactly for the lines whose
    upper-cased text contains one of the five fixed tags, hence true for
    every line that contains CONSOLE in any letter case and false for
    every line with none of the tags; and it does not read the PID
    cell. *)
Theorem is_console_line_contract (line : str) :
  (is_console_line line = true <->
   exists tag pre post,
     In tag console_tags /\ upper line = pre ++ tag ++ post)
  /\ (forall pre word post,
         line = pre ++ word ++ post ->
         map ascii_upper word = lit "CONSOLE" ->
         is_console_line line = true)
  /\ ((forall tag pre post,
          In tag console_tags -> upper line <> pre ++ tag ++ post) ->
      is_console_line line = false)
  /\ (forall holder holder' : AppPidHolder,
         passes (logcat_line_filter ConsoleMode) holder line
         = passes (logcat_line_filter ConsoleMode) holder' line)
  /\ (forall holder : AppPidHolder,
         passes (logcat_line_filter ConsoleMode) holder line
         = is_console_line line).
Proof.
  assert (Hiff : is_console_line line = true <->
                 exists tag pre post,
                   In tag console_tags /\ upper line = pre ++ tag ++ post).
  { unfold is_console_line. rewrite existsb_exists. split.
    - intros (tag & Hin & Hc). apply contains_iff in Hc as (pre & post & E).
      exists tag, pre, post. split; assumption.
    - intros (tag & pre & post & Hin & E). exists tag. split; [exact Hin|].
      apply contains_iff. exists pre, post. exact E. }
  split; [exact Hiff|].
  split.
  { intros pre word post -> Hword. apply Hiff.
    exists (lit "CONSOLE"), (upper pre), (upper post). split.
    - unfold console_tags. simpl. tauto.
    - rewrite !upper_app, (upper_ascii word); rewrite Hword;
        [reflexivity|].
      repeat (constructor; [reflexivity|]). constructor. }
  split.
  { intros Hnone. destruct (is_console_line line) eqn:E; [|reflexivity].
    destruct (proj1 Hiff eq_refl) as (tag & pre & post & Hin & Hup).
    exfalso. exact (Hnone tag pre post Hin Hup). }
  split; reflexivity.
Qed.

(** C10. Once a PID [P] has been discovered, the app-mode predicate
    drops every line no PID can be parsed from: a line with fewer than
    five white-space separated fields, or one whose third field is not
    an integer. *)
Theorem app_line_filter_drops_unparsed (P : Z) (line : str) :
  (List.length (split line) < 5)%nat
  \/ python_int (nth 2 (split line) []) = None ->
  parse_threadtime_pid line = None
  /\ passes (logcat_line_filter AppMode) {| pid := Some P |} line = false.
Proof.
  intros H. apply parse_threadtime_pid_none in H.
  split; [exact H|].
  simpl. unfold app_line_filter. simpl. rewrite H. reflexivity.
Qed.
End LogFilterFacts.

(** A banner line of the log stream has four fields; a stack-trace line
    has a third field that is not a number. *)
Lemma app_line_filter_drops_unparsed_witness :
  (parse_threadtime_pid (lit "--------- beginning of main") = None
   /\ passes (logcat_line_filter AppMode) {| pid := Some 4321%Z |}
        (lit "--------- beginning of main") = false)
  /\ (parse_threadtime_pid (lit "   at com.example.Main.run(Main.java:10) [x]")
      = None
      /\ passes (logcat_line_filter AppMode) {| pid := Some 4321%Z |}
           (lit "   at com.example.Main.run(Main.java:10) [x]") = false).
Proof.
  split.
  - apply (app_line_filter_drops_unparsed 4321
             (lit "--------- beginning of main")).
    left. vm_compute. lia.
  - apply (app_line_filter_drops_unparsed 4321
             (lit "   at com.example.Main.run(Main.java:10) [x]")).
    right. vm_compute. reflexivity.
Defined.

(** A line of the web view's console, in lower case. *)
Lemma is_console_line_contract_witness :
  is_console_line
    (lit "01-02 10:00:00.000  4321  4400 I chromium: [INFO:console(12)] ready")
  = true.
Proof.
  apply (proj1 (proj2 (is_console_line_contract
           (lit "01-02 10:00:00.000  4321  4400 I chromium: [INFO:console(12)] ready")))
           (lit "01-02 10:00:00.000  4321  4400 I chromium: [INFO:")
           (lit "console")
           (lit "(12)] ready")).
  - reflexivity.
  - reflexivity.
Defined.

(** ** Remote debug bridge *)

Lemma discover_truthy (w : CdpWorld) (fuel : nat) :
  forall retry_count ws_url found,
    discover w retry_count fuel = (Some ws_url, found) ->
    nonempty ws_url = true.
Proof.
  induction fuel as [|fuel IH]; intros retry_count ws_url found H; simpl in H.
  - discriminate.
  - destruct (truthy (ws_url_reply w retry_count)) eqn:E.
    + injection H as H _. rewrite H in E. exact E.
    + destruct (discover w (S retry_count) fuel) as [found' events] eqn:D.
      injection H as -> _. exact (IH _ _ _ D).
Qed.

(** C6. The bridge tries to connect in the fixed order (1) no Origin
    header, (2) origin chrome://inspect, (3) origin http://localhost:9222,
    and stops at the first attempt that succeeds; when all three fail it
    makes no fourth attempt, prints the error of the third, and the worker
    function returns: no exception leaves the worker thread. *)
Theorem cdp_negotiation_order (w : CdpWorld) (ws_url : str) :
  let first := Connect ws_url SuppressOrigin in
  let second := Connect ws_url (WithOrigin (lit "chrome://inspect")) in
  let third := Connect ws_url (WithOrigin (lit "http://localhost:9222")) in
  let n := negotiate w ws_url in
  (forall s,
      create_connection w ws_url SuppressOrigin = inl s ->
      filter is_connect (attempts n) = [first] /\ ws n = Some s)
  /\ (forall e1 s,
         create_connection w ws_url SuppressOrigin = inr e1 ->
         create_connection w ws_url (WithOrigin (lit "chrome://inspect"))
         = inl s ->
         filter is_connect (attempts n) = [first; second] /\ ws n = Some s)
  /\ (forall e1 e2 s,
         create_connection w ws_url SuppressOrigin = inr e1 ->
         create_connection w ws_url (WithOrigin (lit "chrome://inspect"))
         = inr e2 ->
         create_connection w ws_url (WithOrigin (lit "http://localhost:9222"))
         = inl s ->
         filter is_connect (attempts n) = [first; second; third]
         /\ ws n = Some s)
  /\ (forall e1 e2 e3,
         create_connection w ws_url SuppressOrigin = inr e1 ->
         create_connection w ws_url (WithOrigin (lit "chrome://inspect"))
         = inr e2 ->
         create_connection w ws_url (WithOrigin (lit "http://localhost:9222"))
         = inr e3 ->
         attempts n = [first; second; third]
         /\ ws n = None /\ last_err n = Some e3
         /\ forall found,
              discover w 0 max_retries = (Some ws_url, found) ->
              cdp_pump w
              = (found ++ [first; second; third;
                           CdpPrint (lit "[cdp] Connection error: " ++ e3)],
                 WorkerReturned))
  /\ (List.length (filter is_connect (attempts n)) <= 3)%nat.
Proof.
  intros first second third n. subst n first second third.
  unfold negotiate, connect_attempt.
  destruct (create_connection w ws_url SuppressOrigin) as [s1|x1] eqn:E1;
    cbn [ws is_None last_err attempts app].
  { split; [intros s H; injection H as <-; split; reflexivity|].
    split; [intros; discriminate|].
    split; [intros; discriminate|].
    split; [intros; discriminate | cbn; lia]. }
  destruct (create_connection w ws_url (WithOrigin (lit "chrome://inspect")))
    as [s2|x2] eqn:E2; cbn [ws is_None last_err attempts app].
  { split; [intros; discriminate|].
    split; [intros e1 s _ H; injection H as <-; split; reflexivity|].
    split; [intros; discriminate|].
    split; [intros; discriminate | cbn; lia]. }
  destruct (create_connection w ws_url
              (WithOrigin (lit "http://localhost:9222")))
    as [s3|x3] eqn:E3; cbn [ws is_None last_err attempts app].
  { split; [intros; discriminate|].
    split; [intros; discriminate|].
    split; [intros e1 e2 s _ _ H; injection H as <-; split; reflexivity|].
    split; [intros; discriminate | cbn; lia]. }
  split; [intros; discriminate|].
  split; [intros; discriminate|].
  split; [intros; discriminate|].
  split; [|cbn; lia].
  intros e1 e2 e3 _ _ H3. injection H3 as <-.
  split; [reflexivity|]. split; [reflexivity|]. split; [reflexivity|].
  intros found Hd. unfold cdp_pump. rewrite Hd.
  unfold negotiate, connect_attempt. rewrite E1.
  cbn [ws is_None last_err attempts app]. rewrite E2.
  cbn [ws is_None last_err attempts app]. rewrite E3.
  cbn [ws is_None last_err attempts app]. reflexivity.
Qed.

(** Against a runtime that refuses all three handshakes the worker prints
    the third refusal and returns. *)
Lemma cdp_negotiation_order_witness :
  cdp_pump strict_runtime
  = ([GetUrl;
      Connect (lit "ws://localhost:9222/devtools/page/1") SuppressOrigin;
      Connect (lit "ws://localhost:9222/devtools/page/1")
        (WithOrigin (lit "chrome://inspect"));
      Connect (lit "ws://localhost:9222/devtools/page/1")
        (WithOrigin (lit "http://localhost:9222"));
      CdpPrint (lit "[cdp] Connection error: Handshake status 403 Forbidden (loopback)")],
     WorkerReturned).
Proof.
  apply (proj2 (proj2 (proj2 (proj1 (proj2 (proj2 (proj2
           (cdp_negotiation_order strict_runtime
              (lit "ws://localhost:9222/devtools/page/1")))))
           (lit "Handshake status 403 Forbidden")
           (lit "Handshake status 403 Forbidden (inspector)")
           (lit "Handshake status 403 Forbidden (loopback)")
           eq_refl eq_refl eq_refl)))
           [GetUrl]).
  reflexivity.
Defined.

(** ** Session loop *)

Lemma bind_ret_l {A B} (a : A) (k : A -> M B) (f : Frame) :
  bind (ret a) k f = k a f.
Proof. reflexivity. Qed.

Lemma normal_ret {A} (a : A) : normal (ret a).
Proof. intros f; exists f, a; reflexivity. Qed.

Lemma normal_emit (e : Event) : normal (emit e).
Proof. intros f; eexists; exists tt; reflexivity. Qed.

Lemma normal_get : normal get.
Proof. intros f; exists f, f; reflexivity. Qed.

Lemma normal_set_dev_proc p : normal (set_dev_proc p).
Proof. intros f; eexists; exists tt; reflexivity. Qed.

Lemma normal_set_logcat_proc p : normal (set_logcat_proc p).
Proof. intros f; eexists; exists tt; reflexivity. Qed.

Lemma normal_set_cap_proc p : normal (set_cap_proc p).
Proof. intros f; eexists; exists tt; reflexivity. Qed.

Lemma normal_set_app_pid_holder h : normal (set_app_pid_holder h).
Proof. intros f; eexists; exists tt; reflexivity. Qed.

Lemma normal_bind {A B} (m : M A) (k : A -> M B) :
  normal m -> (forall a, normal (k a)) -> normal (bind m k).
Proof.
  intros Hm Hk f. unfold bind.
  destruct (Hm f) as (f1 & a & ->). exact (Hk a f1).
Qed.

Lemma returns_bind {A B} (code : Z) (m : M A) (k : A -> M B) :
  normal m -> (forall a, always_returns code (k a)) ->
  always_returns code (bind m k).
Proof.
  intros Hm Hk f. unfold bind.
  destruct (Hm f) as (f1 & a & ->). exact (Hk a f1).
Qed.

Lemma returns_try_finally {A} (code : Z) (body : M A) (fin : M unit) :
  always_returns code body -> normal fin ->
  always_returns code (try_finally body fin).
Proof.
  intros Hb Hf f. unfold try_finally.
  specialize (Hb f). destruct (body f) as [f1 r]. simpl in Hb; subst r.
  destruct (Hf f1) as (f2 & [] & ->). reflexivity.
Qed.

Create HintDb session.

#[local] Hint Resolve normal_ret normal_emit normal_get normal_set_dev_proc
  normal_set_logcat_proc normal_set_cap_proc normal_set_app_pid_holder
  : session.

(** Falls through, whatever the tests on the way decide. *)
Ltac fall_through :=
  repeat first
    [ progress auto with session
    | apply normal_bind; [|intros ?]
    | match goal with
      | |- normal (if ?b then _ else _) => destruct b
      | |- normal (match ?x with _ => _ end) => destruct x
      | |- normal (print _) => apply normal_emit
      | |- normal skip => apply normal_ret
      end ].

Lemma normal_print_all (lines : list str) : normal (print_all lines).
Proof. induction lines; simpl; fall_through. Qed.

Lemma normal_check_cap (returncode : option Z) : normal (check_cap returncode).
Proof. unfold check_cap. fall_through. Qed.

Lemma normal_check_dev (returncode : option Z) : normal (check_dev returncode).
Proof. unfold check_dev. fall_through. Qed.

Lemma normal_teardown (w : World) : normal (teardown w).
Proof. unfold teardown. fall_through. Qed.

Lemma normal_start_logcat (w : World) adb_cmd target tags all_logs :
  normal (start_logcat w adb_cmd target tags all_logs).
Proof. unfold start_logcat. fall_through. Qed.

Lemma normal_start_cdp_console_stream (w : World) adb_cmd target :
  normal (start_cdp_console_stream w adb_cmd target).
Proof. unfold start_cdp_console_stream. fall_through. Qed.

Lemma normal_wait_for_port (probes : list Probe) :
  ~ In ProbeInterrupted probes -> normal (wait_for_port probes).
Proof.
  induction probes as [|[] probes IH]; simpl; intros H.
  - apply normal_ret.
  - apply normal_ret.
  - apply IH. tauto.
  - exfalso. apply H. left; reflexivity.
Qed.

#[local] Hint Resolve normal_print_all normal_check_cap normal_check_dev
  normal_teardown normal_start_logcat normal_start_cdp_console_stream
  normal_wait_for_port : session.

Lemma supervise_returns (schedule : list Tick) :
  In Interrupt schedule -> always_returns 0 (supervise schedule).
Proof.
  induction schedule as [|[cap_rc dev_rc|] rest IH]; intros H.
  - contradiction.
  - simpl. apply returns_bind; [fall_through | intros _].
    apply returns_bind; [fall_through | intros _].
    apply IH. destruct H as [H|H]; [discriminate | exact H].
  - intros f. reflexivity.
Qed.

Lemma supervise_running (schedule : list Tick) :
  ~ In Interrupt schedule ->
  forall f, snd (supervise schedule f) = Running.
Proof.
  induction schedule as [|[cap_rc dev_rc|] rest IH]; intros H f.
  - reflexivity.
  - simpl. unfold bind at 1.
    destruct (normal_check_cap cap_rc f) as (f1 & [] & ->).
    unfold bind at 1.
    destruct (normal_check_dev dev_rc f1) as (f2 & [] & ->).
    apply IH. intros Hin. apply H. right; exact Hin.
  - exfalso. apply H. left; reflexivity.
Qed.

Section SessionFacts.
Context {U : UnicodeData}.

(** [wait_for_pid] ends with a value or with the interrupt. *)
Lemma wait_for_pid_ends (adb_cmd app_id : str) (replies : list PidofReply) :
  forall f, exists f',
    (exists found, wait_for_pid adb_cmd app_id replies f = (f', Normal found))
    \/ wait_for_pid adb_cmd app_id replies f = (f', Raise KeyboardInterrupt).
Proof.
  induction replies as [|[outcome|] replies IH]; intros f; simpl.
  - exists f. left. exists None. reflexivity.
  - unfold bind at 1. simpl.
    destruct (get_app_pid outcome) as [found|]; [|apply IH].
    destruct (found =? 0)%Z; [apply IH|].
    eexists. left. exists (Some found). reflexivity.
  - exists f. right. reflexivity.
Qed.

Lemma normal_wait_for_pid_guarded (adb_cmd app_id : str)
      (replies : list PidofReply) :
  normal (except_KeyboardInterrupt
            (wait_for_pid adb_cmd app_id replies) (ret None)).
Proof.
  intros f. unfold except_KeyboardInterrupt.
  destruct (wait_for_pid_ends adb_cmd app_id replies f)
    as (f' & [(found & ->) | ->]).
  - exists f', found. reflexivity.
  - exists f', None. reflexivity.
Qed.

#[local] Hint Resolve normal_wait_for_pid_guarded : session.

Lemma session_body_returns (w : World) (args : Args) chosen_port npx_cmd
      adb_cmd adb_available target app_id logcat_mode :
  ~ In ProbeInterrupted (port_probes w) ->
  cap_popen_ok w = true ->
  In Interrupt (ticks w) ->
  always_returns 0
    (session_body w args chosen_port npx_cmd adb_cmd adb_available target
       app_id logcat_mode).
Proof.
  intros Hprobes Hcap Hint. unfold session_body, popen. rewrite Hcap.
  repeat (apply returns_bind; [solve [fall_through] | intros ?]).
  apply supervise_returns. exact Hint.
Qed.

(** Once the preliminary checks pass and the two [Popen] calls succeed,
    Ctrl+C in the supervisory loop makes [run] return 0. *)
Lemma run_returns_0 (w : World) (args : Args) (chosen_port : Z) :
  is_wifi (args_mode args) && negb (truthy (args_host args)) = false ->
  find_free_port (can_bind w) (lit "127.0.0.1") (args_port args) 20
  = Returns chosen_port ->
  which w (resolve_cmd w (lit "npm")) = true ->
  which w (resolve_cmd w (lit "npx")) = true ->
  dev_popen_ok w = true ->
  ~ In ProbeInterrupted (port_probes w) ->
  cap_popen_ok w = true ->
  In Interrupt (ticks w) ->
  always_returns 0 (run w args).
Proof.
  intros Hflags Hport Hnpm Hnpx Hdev Hprobes Hcap Hint.
  unfold run, popen. rewrite Hflags, Hport, Hnpm, Hnpx, Hdev.
  cbv zeta. cbn [negb call].
  repeat (apply returns_bind; [solve [fall_through] | intros ?]).
  apply returns_try_finally; [|apply normal_teardown].
  apply session_body_returns; assumption.
Qed.

(** A flag combination [run] refuses: it returns 2 and has only printed. *)
Lemma run_refuses_flags (w : World) (args : Args) :
  is_wifi (args_mode args) && negb (truthy (args_host args)) = true ->
  snd (run w args initial) = Returned 2
  /\ existsb is_child_process (trace (fst (run w args initial))) = false.
Proof.
  intros H. unfold run. rewrite H. split; reflexivity.
Qed.

(** A required tool is missing: [run] has only printed when it is left,
    and it is left by [return 2] when the search for a free port, which
    comes first, returned. *)
Lemma run_misses_tool (w : World) (args : Args) :
  which w (resolve_cmd w (lit "npm")) = false
  \/ which w (resolve_cmd w (lit "npx")) = false ->
  existsb is_child_process (trace (fst (run w args initial))) = false
  /\ (forall chosen_port,
         find_free_port (can_bind w) (lit "127.0.0.1") (args_port args) 20
         = Returns chosen_port ->
         snd (run w args initial) = Returned 2).
Proof.
  intros H. unfold run.
  destruct (is_wifi (args_mode args) && negb (truthy (args_host args)));
    [split; [reflexivity | intros; reflexivity]|].
  destruct (find_free_port (can_bind w) (lit "127.0.0.1") (args_port args) 20)
    as [chosen|e]; cbn [call]; [|split; [reflexivity | intros; discriminate]].
  rewrite !bind_ret_l. cbv zeta.
  destruct (negb (chosen =? args_port args)%Z);
    (destruct (which w (resolve_cmd w (lit "npm")));
     [|split; [reflexivity | intros; reflexivity]]);
    (destruct (which w (resolve_cmd w (lit "npx")));
     [|split; [reflexivity | intros; reflexivity]]);
    destruct H as [H|H]; discriminate.
Qed.

(** C7 (the code departs from the claim). If local-network mode is
    selected without a host address the program exits with code 2 and has
    started no child process.  If [npm] or [npx] is not found on PATH it
    has started no child process either, and exits with code 2 provided
    the search for a free port that [run] makes before the check returned;
    with [npm] missing and [--port 65535] while port 65535 is taken, or
    [--port 70000], that search raises [OverflowError] and the program
    ends on the uncaught exception instead.  Ctrl+C during the running
    session gives exit code 0. *)
Theorem run_exit_codes (w : World) (args : Args) :
  (args_mode args = Wifi /\ truthy (args_host args) = false ->
   snd (main w args) = ExitCode 2
   /\ existsb is_child_process (fst (main w args)) = false)
  /\ (which w (resolve_cmd w (lit "npm")) = false
      \/ which w (resolve_cmd w (lit "npx")) = false ->
      existsb is_child_process (fst (main w args)) = false
      /\ forall chosen_port,
           find_free_port (can_bind w) (lit "127.0.0.1") (args_port args) 20
           = Returns chosen_port ->
           snd (main w args) = ExitCode 2)
  /\ (forall chosen_port,
         ~ (args_mode args = Wifi /\ truthy (args_host args) = false) ->
         find_free_port (can_bind w) (lit "127.0.0.1") (args_port args) 20
         = Returns chosen_port ->
         which w (resolve_cmd w (lit "npm")) = true ->
         which w (resolve_cmd w (lit "npx")) = true ->
         dev_popen_ok w = true ->
         ~ In ProbeInterrupted (port_probes w) ->
         cap_popen_ok w = true ->
         In Interrupt (ticks w) ->
         snd (main w args) = ExitCode 0)
  /\ (forall schedule f,
         In Interrupt schedule ->
         snd (try_finally (supervise schedule) (teardown w) f)
         = Returned 0)
  /\ which workstation_without_npm_ports_taken
        (resolve_cmd workstation_without_npm_ports_taken (lit "npm")) = false
  /\ main workstation_without_npm_ports_taken args_port_65535
     = ([], Uncaught OverflowError)
  /\ which workstation_without_npm
        (resolve_cmd workstation_without_npm (lit "npm")) = false
  /\ main workstation_without_npm args_port_70000
     = ([], Uncaught OverflowError).
Proof.
  split; [|split; [|split; [|split; [|split; [|split; [|split]]]]]].
  - intros [Hm Hh].
    assert (H' : is_wifi (args_mode args) && negb (truthy (args_host args))
                 = true) by (rewrite Hm, Hh; reflexivity).
    destruct (run_refuses_flags w args H') as [Hr Ht]. unfold main.
    destruct (run w args initial) as [f r]. simpl in Hr, Ht. subst r.
    split; [reflexivity | exact Ht].
  - intros H. destruct (run_misses_tool w args H) as [Ht Hr]. unfold main.
    destruct (run w args initial) as [f r]. simpl in Hr, Ht.
    split; [destruct r; exact Ht|].
    intros chosen_port Hp. rewrite (Hr chosen_port Hp). reflexivity.
  - intros chosen_port Hflags Hport Hnpm Hnpx Hdev Hprobes Hcap Hint.
    assert (Hf : is_wifi (args_mode args)
                 && negb (truthy (args_host args)) = false).
    { destruct (args_mode args); [reflexivity|].
      destruct (truthy (args_host args)); [reflexivity|].
      exfalso. apply Hflags. split; reflexivity. }
    pose proof (run_returns_0 w args chosen_port Hf Hport Hnpm Hnpx Hdev
                  Hprobes Hcap Hint initial) as Hr.
    unfold main. destruct (run w args initial) as [f r].
    simpl in Hr. subst r. reflexivity.
  - intros schedule f Hint.
    apply (returns_try_finally 0 (supervise schedule) (teardown w));
      [apply supervise_returns; exact Hint | apply normal_teardown].
  - reflexivity.
  - vm_compute. reflexivity.
  - reflexivity.
  - vm_compute. reflexivity.
Qed.
End SessionFacts.

(** On the workstation, without [npm] the program stops with code 2
    before any child process; with it, Ctrl+C ends the session with
    code 0. *)
Lemma run_exit_codes_witness :
  (existsb is_child_process (fst (main workstation_without_npm default_args))
   = false
   /\ snd (main workstation_without_npm default_args) = ExitCode 2)
  /\ snd (main (workstation 3) default_args) = ExitCode 0.
Proof.
  split.
  - destruct (proj1 (proj2 (run_exit_codes workstation_without_npm
                              default_args))
                (or_introl eq_refl)) as [Ht Hr].
    split; [exact Ht|]. apply (Hr 5173%Z). reflexivity.
  - apply (proj1 (proj2 (proj2 (run_exit_codes (workstation 3) default_args)))
             5173%Z).
    + intros [H _]. discriminate H.
    + reflexivity.
    + reflexivity.
    + reflexivity.
    + reflexivity.
    + simpl. intros [H|[H|[]]]; discriminate H.
    + reflexivity.
    + simpl. right. right. right. left. reflexivity.
Defined.

Lemma supervise_ends (schedule : list Tick) :
  forall f,
    snd (supervise schedule f) = Running /\ ~ In Interrupt schedule
    \/ snd (supervise schedule f) = Returned 0 /\ In Interrupt schedule.
Proof.
  induction schedule as [|[cap_rc dev_rc|] rest IH]; intros f.
  - left. split; [reflexivity | intros []].
  - cbn [supervise].
    destruct (normal_check_cap cap_rc f) as (f1 & [] & E1).
    destruct (normal_check_dev dev_rc f1) as (f2 & [] & E2).
    unfold bind. rewrite E1. cbv beta iota. rewrite E2.
    destruct (IH f2) as [[Hr Hn]|[Hr Hi]].
    + left. split; [exact Hr|]. intros [H|H]; [discriminate | exact (Hn H)].
    + right. split; [exact Hr | right; exact Hi].
  - right. split; [reflexivity | left; reflexivity].
Qed.

(** C9. When the native app runner or the dev server has exited, the
    supervisory loop prints its exit code, sets the handle to [None] and
    goes on to the next check; a turn of the loop never leaves it; and the
    loop ends only by the [return 0] of the interrupt handler: with no
    interrupt in the schedule the session is still running, whatever exit
    codes the children report. *)
Theorem supervise_survives_child_exits (f : Frame) (schedule : list Tick) :
  (forall p code,
      cap_proc f = Some p ->
      check_cap (Some code) f = (cap_exit_logged f code, Normal tt))
  /\ (forall p code,
         dev_proc f = Some p ->
         check_dev (Some code) f = (dev_exit_logged f code, Normal tt))
  /\ (forall returncode,
         returncode = None \/ cap_proc f = None ->
         check_cap returncode f = (f, Normal tt))
  /\ (forall returncode,
         returncode = None \/ dev_proc f = None ->
         check_dev returncode f = (f, Normal tt))
  /\ (forall cap_returncode dev_returncode rest,
         schedule = Poll cap_returncode dev_returncode :: rest ->
         exists f',
           (check_cap cap_returncode ;; check_dev dev_returncode)%session f
           = (f', Normal tt)
           /\ supervise schedule f = supervise rest f')
  /\ (~ In Interrupt schedule -> snd (supervise schedule f) = Running)
  /\ (snd (supervise schedule f) = Running /\ ~ In Interrupt schedule
      \/ snd (supervise schedule f) = Returned 0 /\ In Interrupt schedule).
Proof.
  split.
  { intros p code Hp. unfold check_cap, bind, get. rewrite Hp. reflexivity. }
  split.
  { intros p code Hp. unfold check_dev, bind, get. rewrite Hp. reflexivity. }
  split.
  { intros rc [-> | Hp]; unfold check_cap, bind, get.
    - destruct (cap_proc f); reflexivity.
    - rewrite Hp. reflexivity. }
  split.
  { intros rc [-> | Hp]; unfold check_dev, bind, get.
    - destruct (dev_proc f); reflexivity.
    - rewrite Hp. reflexivity. }
  split.
  { intros cap_rc dev_rc rest ->. cbn [supervise].
    destruct (normal_check_cap cap_rc f) as (f1 & [] & E1).
    destruct (normal_check_dev dev_rc f1) as (f2 & [] & E2).
    exists f2. unfold bind. rewrite E1. cbv beta iota. rewrite E2.
    split; reflexivity. }
  split; [intros H; apply supervise_running; exact H|].
  apply supervise_ends.
Qed.

(** The dev server exits with code 1 in the first turn and nobody
    interrupts: the exit is printed, the handle dropped, the session
    runs on. *)
Lemma supervise_survives_child_exits_witness :
  check_dev (Some 1%Z)
    {| trace := []; dev_proc := Some Dev; logcat_proc := None;
       cap_proc := Some Cap; app_pid_holder := None |}
  = ({| trace := [Print (lit "[dev] process exited with code 1; keeping wrapper alive.")];
        dev_proc := None; logcat_proc := None; cap_proc := Some Cap;
        app_pid_holder := None |}, Normal tt)
  /\ snd (supervise [Poll None (Some 1%Z); Poll None None]
            {| trace := []; dev_proc := Some Dev; logcat_proc := None;
               cap_proc := Some Cap; app_pid_holder := None |})
     = Running.
Proof.
  split.
  - apply (proj1 (proj2 (supervise_survives_child_exits
             {| trace := []; dev_proc := Some Dev; logcat_proc := None;
                cap_proc := Some Cap; app_pid_holder := None |} []))
             Dev 1%Z).
    reflexivity.
  - apply (proj1 (proj2 (proj2 (proj2 (proj2 (proj2
             (supervise_survives_child_exits
                {| trace := []; dev_proc := Some Dev; logcat_proc := None;
                   cap_proc := Some Cap; app_pid_holder := None |}
                [Poll None (Some 1%Z); Poll None None]))))))).
    simpl. intros [H|[H|[]]]; discriminate H.
Defined.

(** ** Release of the process handles *)

Lemma keeps_bind {A B} I (m : M A) (k : A -> M B) (Q : A -> Prop)
      (R : B -> Prop) :
  keeps I m Q -> (forall a, Q a -> keeps I (k a) R) -> keeps I (bind m k) R.
Proof.
  intros Hm Hk f Hf. unfold bind.
  destruct (Hm f Hf) as [Hi Hq]. destruct (m f) as [f1 [a|code|e|]];
    simpl in *; try (split; [exact Hi | intros; discriminate]).
  exact (Hk a (Hq a eq_refl) f1 Hi).
Qed.

Lemma keeps_any {A} I (m : M A) (Q : A -> Prop) : keeps I m Q -> keeps I m any.
Proof.
  intros H f Hf. destruct (H f Hf) as [Hi _]. split; [exact Hi|].
  intros; exact Logic.I.
Qed.

Lemma keeps_ret {A} I (a : A) (Q : A -> Prop) : Q a -> keeps I (ret a) Q.
Proof.
  intros Hq f Hf. split; [exact Hf|]. simpl. intros b E.
  injection E as <-. exact Hq.
Qed.

Lemma keeps_leave {A} I (r : Res A) (Q : A -> Prop) :
  (forall a, r <> Normal a) -> keeps I (fun f => (f, r)) Q.
Proof.
  intros Hr f Hf. split; [exact Hf|]. simpl. intros a E.
  exfalso. exact (Hr a E).
Qed.

Lemma keeps_get I : keeps I get I.
Proof.
  intros f Hf. split; [exact Hf|]. simpl. intros a E.
  injection E as <-. exact Hf.
Qed.

Lemma keeps_emit (e : Event) :
  releases Cap e = false -> keeps cap_never_released (emit e) any.
Proof.
  intros He f (Ht & Hd & Hl). split; [|intros; exact Logic.I].
  unfold cap_never_released, emit.
  cbn [fst trace dev_proc logcat_proc].
  split; [|split; assumption].
  rewrite existsb_app, Ht. cbn [existsb orb]. rewrite He. reflexivity.
Qed.

Lemma keeps_set_dev_proc (p : option Proc) :
  p = None \/ p = Some Dev ->
  keeps cap_never_released (set_dev_proc p) any.
Proof.
  intros Hp f (Ht & Hd & Hl). split; [|intros; exact Logic.I].
  simpl. split; [exact Ht | split; assumption].
Qed.

Lemma keeps_set_logcat_proc (p : option Proc) :
  p = None \/ p = Some Logcat ->
  keeps cap_never_released (set_logcat_proc p) any.
Proof.
  intros Hp f (Ht & Hd & Hl). split; [|intros; exact Logic.I].
  simpl. split; [exact Ht | split; assumption].
Qed.

Lemma keeps_set_cap_proc (p : option Proc) :
  keeps cap_never_released (set_cap_proc p) any.
Proof.
  intros f (Ht & Hd & Hl). split; [|intros; exact Logic.I].
  simpl. split; [exact Ht | split; assumption].
Qed.

Lemma keeps_set_app_pid_holder (h : option AppPidHolder) :
  keeps cap_never_released (set_app_pid_holder h) any.
Proof.
  intros f (Ht & Hd & Hl). split; [|intros; exact Logic.I].
  simpl. split; [exact Ht | split; assumption].
Qed.

Lemma keeps_try_finally {A} I (body : M A) (fin : M unit) :
  keeps I body any -> keeps I fin any -> keeps I (try_finally body fin) any.
Proof.
  intros Hb Hf f Hi. split; [|intros; exact Logic.I].
  unfold try_finally. destruct (Hb f Hi) as [H1 _].
  destruct (body f) as [f1 r]. simpl in H1.
  destruct (Hf f1 H1) as [H2 _].
  destruct r; try exact H1; destruct (fin f1) as [f2 []]; exact H2.
Qed.

Lemma keeps_except_KeyboardInterrupt {A} I (body handler : M A) :
  keeps I body any -> keeps I handler any ->
  keeps I (except_KeyboardInterrupt body handler) any.
Proof.
  intros Hb Hh f Hi. split; [|intros; exact Logic.I].
  unfold except_KeyboardInterrupt. destruct (Hb f Hi) as [H1 _].
  destruct (body f) as [f1 [a|code|[|argv|]|]]; simpl in *; try exact H1.
  exact (proj1 (Hh f1 H1)).
Qed.

#[local] Hint Resolve keeps_set_cap_proc keeps_set_app_pid_holder : session.

(** Keeps [cap_never_released], whatever the tests on the way decide. *)
Ltac keep_going :=
  repeat first
    [ progress auto with session
    | apply keeps_bind with (Q := any); [|intros ? _]
    | apply keeps_emit; reflexivity
    | apply keeps_ret; exact Logic.I
    | apply keeps_leave; intros ?; discriminate
    | apply keeps_set_dev_proc; auto
    | apply keeps_set_logcat_proc; auto
    | apply (keeps_any _ _ _ (keeps_get _))
    | match goal with
      | |- keeps _ (if ?b then _ else _) _ => destruct b
      | |- keeps _ (match ?x with _ => _ end) _ => destruct x
      end ].

Lemma keeps_print_all (lines : list str) :
  keeps cap_never_released (print_all lines) any.
Proof.
  induction lines; simpl; unfold skip, print; keep_going.
Qed.

Lemma keeps_wait_for_port (probes : list Probe) :
  keeps cap_never_released (wait_for_port probes) any.
Proof.
  induction probes as [|[] probes IH]; simpl; unfold raise; keep_going.
Qed.

Lemma keeps_supervise (schedule : list Tick) :
  keeps cap_never_released (supervise schedule) any.
Proof.
  induction schedule as [|[cap_rc dev_rc|] rest IH]; simpl;
    unfold running, return_, check_cap, check_dev, skip, print; keep_going.
Qed.

Lemma keeps_start_logcat (w : World) adb_cmd target tags all_logs :
  keeps cap_never_released (start_logcat w adb_cmd target tags all_logs)
    (fun proc => proc = None \/ proc = Some Logcat).
Proof.
  unfold start_logcat, print.
  destruct (negb (which w adb_cmd)).
  - apply keeps_bind with (Q := any); [keep_going | intros ? _].
    apply keeps_ret. left; reflexivity.
  - destruct (logcat_popen_ok w).
    + apply keeps_bind with (Q := any); [keep_going | intros ? _].
      apply keeps_ret. right; reflexivity.
    + apply keeps_bind with (Q := any); [keep_going | intros ? _].
      apply keeps_ret. left; reflexivity.
Qed.

Lemma keeps_start_cdp_console_stream (w : World) adb_cmd target :
  keeps cap_never_released (start_cdp_console_stream w adb_cmd target) any.
Proof. unfold start_cdp_console_stream, print. keep_going. Qed.

(** The [finally] block releases the log stream, then the dev server,
    and nothing else. *)
Lemma keeps_teardown (w : World) : keeps cap_never_released (teardown w) any.
Proof.
  unfold teardown, skip.
  apply keeps_bind with (Q := cap_never_released); [apply keeps_get|].
  intros f (_ & Hd & Hl).
  apply keeps_bind with (Q := any).
  - destruct Hl as [-> | ->]; keep_going.
  - intros ? _. destruct Hd as [-> | ->]; keep_going.
Qed.

#[local] Hint Resolve keeps_print_all keeps_wait_for_port keeps_supervise
  keeps_start_cdp_console_stream keeps_teardown : session.

Section ReleaseFacts.
Context {U : UnicodeData}.

Lemma keeps_wait_for_pid (adb_cmd app_id : str) (replies : list PidofReply) :
  keeps cap_never_released (wait_for_pid adb_cmd app_id replies) any.
Proof.
  induction replies as [|[outcome|] replies IH]; simpl; unfold raise;
    keep_going.
Qed.

#[local] Hint Resolve keeps_wait_for_pid : session.

Lemma keeps_session_body (w : World) (args : Args) chosen_port npx_cmd
      adb_cmd adb_available target app_id logcat_mode :
  keeps cap_never_released
    (session_body w args chosen_port npx_cmd adb_cmd adb_available target
       app_id logcat_mode) any.
Proof.
  unfold session_body, popen, print, skip, raise.
  apply keeps_bind with (Q := any); [keep_going | intros ? _].
  apply keeps_bind with (Q := any); [keep_going | intros ? _].
  apply keeps_bind with (Q := any); [keep_going | intros ? _].
  apply keeps_bind with (Q := any).
  { destruct (args_logcat args); [|keep_going].
    apply keeps_bind with (Q := any); [keep_going | intros ? _].
    apply keeps_bind with (Q := any); [keep_going | intros ? _].
    apply keeps_bind with (Q := any); [keep_going | intros ? _].
    apply keeps_bind with (Q := any); [keep_going | intros ? _].
    apply keeps_bind with (Q := fun proc => proc = None \/ proc = Some Logcat);
      [apply keeps_start_logcat | intros proc Hproc].
    apply keeps_bind with (Q := any);
      [apply keeps_set_logcat_proc; exact Hproc | intros ? _].
    keep_going. }
  intros ? _. keep_going.
  apply keeps_except_KeyboardInterrupt; keep_going.
Qed.

Lemma keeps_run (w : World) (args : Args) :
  keeps cap_never_released (run w args) any.
Proof.
  unfold run, popen, call, print, skip, raise, return_. cbv zeta.
  keep_going.
  apply keeps_try_finally; [apply keeps_session_body | apply keeps_teardown].
Qed.
End ReleaseFacts.

Section HandleRelease.
Context {U : UnicodeData}.

(** C1 (the code departs from the claim). However [run] is left, its
    trace holds no [terminate] and no [kill] of the native app runner.
    On the workstation, where the runner is started and keeps running,
    Ctrl+C ends the session with code 0: the log stream and the dev
    server are terminated, in that order, and the runner's handle is
    still held and was never released. *)
Theorem run_never_releases_cap_runner (w : World) (args : Args) :
  existsb (releases Cap) (fst (main w args)) = false
  /\ (let session := main (workstation 2) default_args in
      snd session = ExitCode 0
      /\ existsb (spawns Cap) (fst session) = true
      /\ cap_proc (fst (run (workstation 2) default_args initial))
         = Some Cap
      /\ existsb (releases Cap) (fst session) = false
      /\ filter (fun e => releases Logcat e || releases Dev e)
           (fst session)
         = [Terminate Logcat; Terminate Dev]).
Proof.
  split.
  - assert (Hi : cap_never_released initial).
    { split; [reflexivity | split; left; reflexivity]. }
    destruct (keeps_run w args initial Hi) as [(Ht & _) _].
    unfold main. destruct (run w args initial) as [f []]; exact Ht.
  - vm_compute. repeat split; reflexivity.
Qed.
End HandleRelease.

(* ================================================================== *)
(** * Further properties                                               *)
(* ================================================================== *)

(** ** Fields of a line *)

Lemma split_from_fields (s : str) :
  forall field, no_whitespace field ->
    Forall is_field (split_from field s).
Proof.
  induction s as [|c s IH]; intros field Hf; simpl.
  - destruct field; simpl; constructor; [|constructor].
    split; [discriminate | exact Hf].
  - destruct (is_whitespace c) eqn:Hc.
    + destruct field as [|x field]; simpl.
      * apply IH. reflexivity.
      * constructor; [split; [discriminate | exact Hf]|]. apply IH. reflexivity.
    + apply IH. unfold no_whitespace in *. rewrite existsb_app, Hf. simpl.
      rewrite Hc. reflexivity.
Qed.

Lemma split_fields (s : str) : Forall is_field (split s).
Proof. apply split_from_fields. reflexivity. Qed.

Lemma split_from_app_field (t : str) :
  forall acc s, no_whitespace t ->
    split_from acc (t ++ s) = split_from (acc ++ t) s.
Proof.
  induction t as [|c t IH]; intros acc s Ht; simpl.
  - rewrite app_nil_r. reflexivity.
  - unfold no_whitespace in Ht. simpl in Ht. apply orb_false_iff in Ht as [Hc Ht].
    rewrite Hc, IH by exact Ht. rewrite <- app_assoc. reflexivity.
Qed.

Lemma split_from_pad (pad : str) :
  forall s, all_whitespace pad -> split_from [] (pad ++ s) = split_from [] s.
Proof.
  induction pad as [|c pad IH]; intros s Hp; simpl; [reflexivity|].
  unfold all_whitespace in Hp. simpl in Hp. apply andb_true_iff in Hp as [Hc Hp].
  rewrite Hc. apply IH. exact Hp.
Qed.

Lemma split_from_pad_after (pad : str) :
  forall acc s, acc <> [] -> pad <> [] -> all_whitespace pad ->
    split_from acc (pad ++ s) = acc :: split_from [] s.
Proof.
  intros acc s Ha Hne Hp. destruct pad as [|c pad]; [contradiction|].
  unfold all_whitespace in Hp. simpl in Hp. apply andb_true_iff in Hp as [Hc Hp].
  simpl. rewrite Hc. destruct acc; [contradiction|]. simpl.
  f_equal. apply split_from_pad. exact Hp.
Qed.

(** Fields separated by white space are read back by [split]: leading and
    trailing white space are ignored. *)
Lemma split_padded (pad0 field0 : str) (items : list (str * str)) (tail : str) :
  all_whitespace pad0 -> is_field field0 ->
  Forall spaced_field items ->
  all_whitespace tail ->
  split (padded ((pad0, field0) :: items) ++ tail)
  = field0 :: map snd items.
Proof.
  intros Hp0 Hf0 Hitems Htail. unfold split. simpl.
  rewrite <- !app_assoc. rewrite split_from_pad by exact Hp0.
  rewrite split_from_app_field by apply Hf0. simpl.
  revert field0 Hf0. induction Hitems as [|[pad field] items (Hne & Hpad & Hfield) _ IH];
    intros field0 Hf0; simpl.
  - destruct tail as [|c tail].
    + destruct field0; [destruct Hf0; contradiction | reflexivity].
    + pose proof (split_from_pad_after (c :: tail) field0 []
                    (proj1 Hf0) ltac:(discriminate) Htail) as E.
      rewrite app_nil_r in E. rewrite E. reflexivity.
  - simpl in *. rewrite <- !app_assoc.
    rewrite split_from_pad_after; [| apply Hf0 | exact Hne | exact Hpad].
    f_equal. rewrite split_from_app_field by apply Hfield. simpl.
    apply IH. exact Hfield.
Qed.

Lemma lstrip_with_id (space : char -> bool) (s : str) :
  existsb space s = false -> lstrip_with space s = s.
Proof.
  destruct s as [|c s]; simpl; [reflexivity|]. intros H.
  apply orb_false_iff in H as [-> _]. reflexivity.
Qed.

Lemma existsb_rev_false {A} (p : A -> bool) (l : list A) :
  existsb p l = false -> existsb p (rev l) = false.
Proof.
  induction l as [|a l IH]; simpl; intros H; [reflexivity|].
  apply orb_false_iff in H as [Ha Hl].
  rewrite existsb_app, (IH Hl). simpl. rewrite Ha. reflexivity.
Qed.

Lemma strip_with_id (space : char -> bool) (s : str) :
  existsb space s = false -> strip_with space s = s.
Proof.
  intros H. unfold strip_with.
  rewrite (lstrip_with_id space s H).
  rewrite (lstrip_with_id space (rev s) (existsb_rev_false space s H)).
  apply rev_involutive.
Qed.

Lemma digits_are_digits (u : Decimal.uint) :
  Forall (fun c => 48 <= c <= 57) (lit (NilEmpty.string_of_uint u)).
Proof.
  induction u; simpl; constructor; try assumption; cbv; split; discriminate.
Qed.

Lemma digits_no_space (space : char -> bool) (s : str) :
  (forall c, 48 <= c <= 57 -> space c = false) ->
  Forall (fun c => 48 <= c <= 57) s -> existsb space s = false.
Proof.
  intros Hs H. induction H as [|c s Hc _ IH]; simpl; [reflexivity|].
  rewrite (Hs c Hc), IH. reflexivity.
Qed.

Lemma N_leb_false (a b : N) : b < a -> (a <=? b) = false.
Proof. intros H. apply N.leb_gt. exact H. Qed.

Lemma N_eqb_false (a b : N) : a <> b -> (a =? b) = false.
Proof. intros H. apply N.eqb_neq. exact H. Qed.

Lemma digit_not_whitespace (c : char) : 48 <= c <= 57 -> is_whitespace c = false.
Proof.
  intros [H1 H2]. unfold is_whitespace.
  rewrite (N_leb_false c 13), (N_leb_false c 32), (N_leb_false 8192 c),
    (N_eqb_false c 133), (N_eqb_false c 160), (N_eqb_false c 5760),
    (N_eqb_false c 8232), (N_eqb_false c 8233), (N_eqb_false c 8239),
    (N_eqb_false c 8287), (N_eqb_false c 12288) by lia.
  rewrite !andb_false_r. reflexivity.
Qed.

Lemma digit_not_int_space (c : char) : 48 <= c <= 57 -> is_int_space c = false.
Proof.
  intros H. unfold is_int_space. rewrite (digit_not_whitespace c H). reflexivity.
Qed.

Section IntFacts.
Context {U : UnicodeData}.

Lemma int_digits_digit (d : N) (acc : Z) (b : bool) (s : str) :
  d < 10 ->
  int_digits acc b (48 + d :: s) = int_digits (10 * acc + Z.of_N d)%Z true s.
Proof.
  intros Hd. cbn [int_digits].
  destruct (N.eqb_spec (48 + d) 95) as [E|_]; [lia|].
  rewrite decimal_value_ascii by lia. unfold ascii_digit.
  destruct (N.leb_spec 48 (48 + d)); [|lia].
  destruct (N.leb_spec (48 + d) 57); [|lia]. cbn [andb].
  replace (48 + d - 48) with d by lia. reflexivity.
Qed.

Ltac digit_step k :=
  match goal with
  | |- context [lit (NilEmpty.string_of_uint (?D ?u))] =>
      change (lit (NilEmpty.string_of_uint (D u)))
        with (48 + k :: lit (NilEmpty.string_of_uint u));
      rewrite (int_digits_digit k) by reflexivity
  end.

Lemma int_digits_acc (u : Decimal.uint) :
  forall p b, int_digits (Z.pos p) b (lit (NilEmpty.string_of_uint u))
              = if b || negb (match u with Decimal.Nil => true | _ => false end)
                then Some (Z.pos (Pos.of_uint_acc u p)) else None.
Proof.
  induction u; intros p b; cbn [negb orb Pos.of_uint_acc];
    [ destruct b; reflexivity
    | digit_step 0 | digit_step 1 | digit_step 2 | digit_step 3 | digit_step 4
    | digit_step 5 | digit_step 6 | digit_step 7 | digit_step 8 | digit_step 9 ];
    rewrite orb_true_r;
    match goal with
    | |- int_digits ?z _ _ = Some (Z.pos (Pos.of_uint_acc _ ?q)) =>
        replace z with (Z.pos q) by lia
    end;
    rewrite IHu; reflexivity.
Qed.

Lemma int_digits_zero (u : Decimal.uint) :
  forall b, int_digits 0 b (lit (NilEmpty.string_of_uint u))
            = if b || negb (match u with Decimal.Nil => true | _ => false end)
              then Some (Z.of_N (Pos.of_uint u)) else None.
Proof.
  induction u; intros b; cbn [negb orb Pos.of_uint];
    [ destruct b; reflexivity
    | digit_step 0 | digit_step 1 | digit_step 2 | digit_step 3 | digit_step 4
    | digit_step 5 | digit_step 6 | digit_step 7 | digit_step 8 | digit_step 9 ];
    rewrite orb_true_r;
    [ change (10 * 0 + Z.of_N 0)%Z with 0%Z; rewrite IHu; reflexivity | ..];
    match goal with
    | |- int_digits ?z _ _ = Some (Z.of_N (N.pos (Pos.of_uint_acc _ ?q))) =>
        change z with (Z.pos q)
    end;
    rewrite int_digits_acc; reflexivity.
Qed.

Lemma python_int_unsigned (s : str) :
  s <> [] -> Forall (fun c => 48 <= c <= 57) s ->
  python_int s = int_literal s.
Proof.
  intros Hne Hd. unfold python_int.
  rewrite strip_with_id
    by (apply digits_no_space; [apply digit_not_int_space | exact Hd]).
  destruct s as [|c rest]; [contradiction|].
  inversion Hd as [|? ? Hc _]; subst.
  destruct (N.eqb_spec c 45); [lia|]. destruct (N.eqb_spec c 43); [lia|].
  reflexivity.
Qed.

Lemma python_int_negative (s : str) :
  Forall (fun c => 48 <= c <= 57) s ->
  python_int (45 :: s) = option_map Z.opp (int_literal s).
Proof.
  intros Hd. unfold python_int.
  rewrite strip_with_id; [reflexivity|].
  simpl. apply digits_no_space; [apply digit_not_int_space | exact Hd].
Qed.

Lemma digits_nonempty (p : positive) :
  lit (NilEmpty.string_of_uint (Pos.to_uint p)) <> [].
Proof.
  pose proof (DecimalPos.Unsigned.to_uint_nonnil p) as Hn.
  destruct (Pos.to_uint p); try contradiction; discriminate.
Qed.

Lemma int_digits_to_uint (p : positive) :
  int_digits 0 false (lit (NilEmpty.string_of_uint (Pos.to_uint p)))
  = Some (Z.pos p).
Proof.
  rewrite int_digits_zero, (DecimalPos.Unsigned.of_to p).
  pose proof (DecimalPos.Unsigned.to_uint_nonnil p) as Hn.
  destruct (Pos.to_uint p); try contradiction; reflexivity.
Qed.

(** [int(str(n)) == n], unless [n] has more digits than [int()] converts:
    then it is a [ValueError]. *)
Lemma python_int_str_of_Z (n : Z) :
  python_int (str_of_Z n) = if beyond_int_limit n then None else Some n.
Proof.
  unfold beyond_int_limit, str_of_Z.
  destruct n as [|p|p]; cbn [Z.abs Z.to_int NilEmpty.string_of_int].
  - cbn. rewrite decimal_value_ascii by reflexivity. reflexivity.
  - rewrite python_int_unsigned;
      [|apply digits_nonempty | apply digits_are_digits].
    unfold int_literal. rewrite int_digits_to_uint. reflexivity.
  - change (lit (String "-" (NilEmpty.string_of_uint (Pos.to_uint p))))
      with (45 :: lit (NilEmpty.string_of_uint (Pos.to_uint p))).
    rewrite python_int_negative by apply digits_are_digits.
    unfold int_literal. rewrite int_digits_to_uint.
    destruct (exceeds_int_limit _); reflexivity.
Qed.

(** [str(n)] has no white space and is not empty. *)
Lemma str_of_Z_field (n : Z) :
  str_of_Z n <> [] /\ existsb is_whitespace (str_of_Z n) = false.
Proof.
  unfold str_of_Z. destruct n as [|p|p]; cbn [Z.to_int NilEmpty.string_of_int].
  - split; [discriminate | reflexivity].
  - split; [apply digits_nonempty|].
    apply digits_no_space; [apply digit_not_whitespace | apply digits_are_digits].
  - split; [discriminate|].
    change (lit (String "-" (NilEmpty.string_of_uint (Pos.to_uint p))))
      with (45 :: lit (NilEmpty.string_of_uint (Pos.to_uint p))).
    simpl. apply digits_no_space; [apply digit_not_whitespace | apply digits_are_digits].
Qed.
End IntFacts.

Lemma lstrip_with_split (space : char -> bool) (s : str) :
  exists pad, s = pad ++ lstrip_with space s /\ forallb space pad = true.
Proof.
  induction s as [|c s (pad & E & Hp)]; simpl.
  - exists []. split; reflexivity.
  - destruct (space c) eqn:Hc.
    + exists (c :: pad). split; [simpl; f_equal; exact E|]. simpl. rewrite Hc. exact Hp.
    + exists []. split; reflexivity.
Qed.

Lemma forallb_rev {A} (p : A -> bool) (l : list A) :
  forallb p l = true -> forallb p (rev l) = true.
Proof.
  induction l as [|a l IH]; simpl; intros H; [reflexivity|].
  apply andb_true_iff in H as [Ha Hl].
  rewrite forallb_app, (IH Hl). simpl. rewrite Ha. reflexivity.
Qed.

(** [s.strip()] takes white space off both ends and nothing else. *)
Lemma strip_split (s : str) :
  exists pad tail,
    s = pad ++ strip s ++ tail /\ all_whitespace pad /\ all_whitespace tail.
Proof.
  unfold strip, strip_with.
  destruct (lstrip_with_split is_whitespace s) as (pad & E1 & Hp).
  destruct (lstrip_with_split is_whitespace (rev (lstrip_with is_whitespace s)))
    as (tail & E2 & Ht).
  exists pad, (rev tail). split; [|split; [exact Hp | apply forallb_rev; exact Ht]].
  rewrite <- rev_app_distr, <- E2, rev_involutive. exact E1.
Qed.

Lemma split_from_tail (s tail : str) :
  all_whitespace tail ->
  forall acc, split_from acc (s ++ tail) = split_from acc s.
Proof.
  intros Ht. induction s as [|c s IH]; intros acc; simpl.
  - destruct tail as [|c tail]; [reflexivity|].
    destruct acc as [|a acc].
    + rewrite <- (app_nil_r (c :: tail)), split_from_pad by exact Ht. reflexivity.
    + pose proof (split_from_pad_after (c :: tail) (a :: acc) []
                    ltac:(discriminate) ltac:(discriminate) Ht) as E.
      rewrite app_nil_r in E. exact E.
  - destruct (is_whitespace c); [|apply IH].
    destruct (nonempty acc); rewrite IH; reflexivity.
Qed.

(** Stripping a line does not change its fields. *)
Lemma split_strip (s : str) : split (strip s) = split s.
Proof.
  destruct (strip_split s) as (pad & tail & E & Hp & Ht).
  rewrite E at 2. unfold split.
  rewrite split_from_pad by exact Hp. rewrite split_from_tail by exact Ht.
  reflexivity.
Qed.

Lemma strip_empty_split (s : str) : strip s = [] -> split s = [].
Proof. intros E. rewrite <- split_strip, E. reflexivity. Qed.

Lemma split_all_whitespace (s : str) : all_whitespace s -> split s = [].
Proof.
  intros H. unfold split. rewrite <- (app_nil_r s), split_from_pad by exact H.
  reflexivity.
Qed.

Lemma strip_all_whitespace (s : str) : all_whitespace s -> strip s = [].
Proof.
  intros H. unfold strip, strip_with.
  assert (E : forall t, forallb is_whitespace t = true -> lstrip_with is_whitespace t = []).
  { induction t as [|c t IH]; simpl; [reflexivity|]. intros Ht.
    apply andb_true_iff in Ht as [-> Ht]. exact (IH Ht). }
  rewrite (E s H). reflexivity.
Qed.

Section PidFacts.
Context {U : UnicodeData}.

(** A line of five or more fields whose third field is the decimal form
    of [P]: [int()] gives [P], unless [P] has more digits than it
    converts. *)
Lemma parse_threadtime_pid_third_field
      (P : Z) (pad0 field0 : str) (items : list (str * str)) (tail : str) :
  all_whitespace pad0 -> is_field field0 ->
  Forall spaced_field items ->
  all_whitespace tail ->
  (4 <= List.length items)%nat ->
  nth 1 (map snd items) [] = str_of_Z P ->
  parse_threadtime_pid (padded ((pad0, field0) :: items) ++ tail)
  = if beyond_int_limit P then None else Some P.
Proof.
  intros Hp0 Hf0 Hitems Htail Hlen Hpid.
  unfold parse_threadtime_pid.
  rewrite (split_padded pad0 field0 items tail Hp0 Hf0 Hitems Htail).
  cbn [List.length nth]. rewrite length_map.
  destruct (Nat.ltb_spec (S (List.length items)) 5); [lia|].
  rewrite Hpid. apply python_int_str_of_Z.
Qed.

(** C5. In app mode, while the PID cell is unset every line passes; once
    the cell holds [Q], a line passes exactly when the PID parsed from it
    is [Q].  The PID parsed from a line of five or more fields whose third
    field is the decimal form of [P] is [P], so such a line passes exactly
    when [P = Q]; the one exception is a [P] of more digits than [int()]
    converts, which no process has and which is parsed as no PID.  The pump
    reads the cell anew for each line, so a stream shows every line up to
    the write and only the matching ones after it. *)
Theorem app_line_filter_contract (line : str) :
  passes (logcat_line_filter AppMode) {| pid := None |} line = true
  /\ (forall P : Z,
         passes (logcat_line_filter AppMode) {| pid := Some P |} line = true
         <-> parse_threadtime_pid line = Some P)
  /\ (forall (P Q : Z) (pad0 field0 : str) (items : list (str * str))
             (tail : str),
         all_whitespace pad0 -> is_field field0 ->
         Forall spaced_field items ->
         all_whitespace tail ->
         (4 <= List.length items)%nat ->
         nth 1 (map snd items) [] = str_of_Z P ->
         line = padded ((pad0, field0) :: items) ++ tail ->
         parse_threadtime_pid line
         = (if beyond_int_limit P then None else Some P)
         /\ passes (logcat_line_filter AppMode) {| pid := Some Q |} line
            = negb (beyond_int_limit P) && (P =? Q)%Z)
  /\ (forall prefix lines,
         pump prefix (logcat_line_filter AppMode) {| pid := None |}
              (map Line lines)
         = map (fun l => prefix ++ rstrip l) (filter nonempty lines))
  /\ (forall prefix holder P lines,
         pump prefix (logcat_line_filter AppMode) holder
              (PidWritten (Some P) :: map Line lines)
         = map (fun l => prefix ++ rstrip l)
             (filter (fun l => nonempty l
                               && opt_int_eqb (parse_threadtime_pid l)
                                    (Some P)) lines)).
Proof.
  split; [reflexivity|].
  split; [intros P; simpl; unfold app_line_filter; simpl;
          apply opt_int_eqb_some|].
  split.
  { intros P Q pad0 field0 items tail Hp0 Hf0 Hitems Htail Hlen Hpid ->.
    pose proof (parse_threadtime_pid_third_field P pad0 field0 items tail
                  Hp0 Hf0 Hitems Htail Hlen Hpid) as E.
    split; [exact E|].
    cbn [logcat_line_filter passes]. unfold app_line_filter. rewrite E.
    cbn [pid is_None orb]. destruct (beyond_int_limit P); reflexivity. }
  split.
  - intros prefix lines. cbn [logcat_line_filter].
    induction lines as [|l lines IH]; simpl; [reflexivity|].
    destruct (nonempty l); simpl; rewrite IH; reflexivity.
  - intros prefix holder P lines. cbn [logcat_line_filter pump].
    induction lines as [|l lines IH]; simpl; [reflexivity|].
    destruct (nonempty l); simpl; [|exact IH].
    unfold app_line_filter at 1. simpl.
    destruct (opt_int_eqb (parse_threadtime_pid l) (Some P)); simpl;
      rewrite IH; reflexivity.
Qed.

(** X1. [get_app_pid] returns the PID that [pidof] printed: the first
    field of the output read as an integer, whatever white space and
    further fields surround it.  It returns [None] when that integer has
    more digits than [int()] converts, when the output is blank, when its
    first field is not an integer, and when the command timed out or could
    not be started. *)
Theorem get_app_pid_reads_pidof (pid : Z) (pad0 : str) (items : list (str * str))
        (tail stdout : str) :
  (all_whitespace pad0 ->
   Forall spaced_field items ->
   all_whitespace tail ->
   get_app_pid (Completed (padded ((pad0, str_of_Z pid) :: items) ++ tail))
   = if beyond_int_limit pid then None else Some pid)
  /\ (all_whitespace stdout -> get_app_pid (Completed stdout) = None)
  /\ (forall first rest,
         split stdout = first :: rest -> python_int first = None ->
         get_app_pid (Completed stdout) = None)
  /\ get_app_pid TimeoutExpired = None
  /\ get_app_pid OSError = None.
Proof.
  split; [|split; [|split; [|split; reflexivity]]].
  - intros Hp Hi Ht. unfold get_app_pid.
    pose proof (split_padded pad0 (str_of_Z pid) items tail Hp
                  (str_of_Z_field pid) Hi Ht) as E.
    rewrite split_strip, E. cbn [nth].
    destruct (strip (padded ((pad0, str_of_Z pid) :: items) ++ tail)) eqn:Es.
    + apply strip_empty_split in Es. rewrite Es in E. discriminate.
    + cbn [nonempty negb]. apply python_int_str_of_Z.
  - intros H. unfold get_app_pid. rewrite (strip_all_whitespace _ H). reflexivity.
  - intros first rest Hs Hi. unfold get_app_pid. rewrite split_strip, Hs.
    cbn [nth]. rewrite Hi. destruct (negb (nonempty (strip stdout))); reflexivity.
Qed.

(** X2. On a line of five or more fields whose third field is the decimal
    form of [P], [parse_threadtime_pid] returns [P], unless [P] has more
    digits than [int()] converts: then it returns [None].  Hence, once the
    shared cell holds [Q], the app-mode filter lets the line through
    exactly when [P] is within that limit and [P = Q]. *)
Theorem parse_threadtime_pid_reads_third_field
        (P : Z) (pad0 field0 : str) (items : list (str * str)) (tail : str) :
  all_whitespace pad0 -> is_field field0 ->
  Forall spaced_field items ->
  all_whitespace tail ->
  (4 <= List.length items)%nat ->
  nth 1 (map snd items) [] = str_of_Z P ->
  let line := padded ((pad0, field0) :: items) ++ tail in
  parse_threadtime_pid line = (if beyond_int_limit P then None else Some P)
  /\ forall Q, passes (logcat_line_filter AppMode) {| pid := Some Q |} line
               = negb (beyond_int_limit P) && (P =? Q)%Z.
Proof.
  intros Hp0 Hf0 Hitems Htail Hlen Hpid line.
  pose proof (parse_threadtime_pid_third_field P pad0 field0 items tail
                Hp0 Hf0 Hitems Htail Hlen Hpid) as E.
  fold line in E.
  split; [exact E|]. intros Q. cbn [logcat_line_filter passes].
  unfold app_line_filter. rewrite E.
  cbn [pid is_None orb]. destruct (beyond_int_limit P); reflexivity.
Qed.
End PidFacts.

Lemma linebreak_is_whitespace (c : char) :
  is_linebreak c = true -> is_whitespace c = true.
Proof.
  unfold is_linebreak.
  rewrite !orb_true_iff, !andb_true_iff, !N.leb_le, !N.eqb_eq.
  intros H. unfold is_whitespace.
  destruct H as [[[[[H1 H2]|[H1 H2]]| ->]| ->]| ->]; try reflexivity.
  - destruct (N.leb_spec 9 c); [|lia]. destruct (N.leb_spec c 13); [|lia].
    reflexivity.
  - destruct (N.leb_spec 28 c); [|lia]. destruct (N.leb_spec c 32); [|lia].
    rewrite !orb_true_r. reflexivity.
Qed.

Lemma splitlines_from_line (line : str) :
  existsb is_linebreak line = false ->
  forall cur rest,
    splitlines_from cur (line ++ 10 :: rest)
    = (cur ++ line) :: splitlines_from [] rest.
Proof.
  induction line as [|c line IH]; intros H cur rest.
  - rewrite app_nil_r. reflexivity.
  - simpl in H. apply orb_false_iff in H as [Hc Hl]. simpl.
    destruct (N.eqb_spec c 13) as [->|_]; [discriminate Hc|].
    rewrite Hc, (IH Hl), <- app_assoc. reflexivity.
Qed.

Lemma splitlines_lines_of (lines : list str) :
  Forall (fun l => existsb is_linebreak l = false) lines ->
  splitlines (lines_of lines) = lines.
Proof.
  unfold splitlines, lines_of. induction 1 as [|l lines Hl _ IH]; simpl.
  - reflexivity.
  - rewrite <- app_assoc. simpl. rewrite splitlines_from_line by exact Hl.
    simpl. f_equal. exact IH.
Qed.

Lemma no_whitespace_no_linebreak (s : str) :
  no_whitespace s -> existsb is_linebreak s = false.
Proof.
  unfold no_whitespace. induction s as [|c s IH]; simpl; [reflexivity|].
  intros H. apply orb_false_iff in H as [Hc Hs]. rewrite (IH Hs), orb_false_r.
  destruct (is_linebreak c) eqn:E; [|reflexivity].
  apply linebreak_is_whitespace in E. congruence.
Qed.

Lemma lstrip_field (t rest : str) :
  is_field t -> lstrip (t ++ rest) = t ++ rest.
Proof.
  intros [Hne Hws]. destruct t as [|c t]; [contradiction|].
  unfold no_whitespace in Hws. simpl in Hws.
  apply orb_false_iff in Hws as [Hc _]. unfold lstrip. simpl. rewrite Hc. reflexivity.
Qed.

Lemma rev_field (t : str) : is_field t -> is_field (rev t).
Proof.
  intros [Hne Hws]. split.
  - intros E. apply Hne. rewrite <- (rev_involutive t), E. reflexivity.
  - apply existsb_rev_false. exact Hws.
Qed.

(** A line that starts and ends with a field is its own [strip]. *)
Lemma strip_between_fields (a mid b : str) :
  is_field a -> is_field b -> strip (a ++ mid ++ b) = a ++ mid ++ b.
Proof.
  intros Ha Hb. unfold strip, strip_with.
  change (lstrip_with is_whitespace) with lstrip.
  rewrite (lstrip_field a _ Ha).
  rewrite !rev_app_distr, <- app_assoc.
  rewrite (lstrip_field (rev b) _ (rev_field b Hb)).
  rewrite !rev_app_distr, !rev_involutive, <- app_assoc. reflexivity.
Qed.

Lemma startswith_field_mismatch (a b : str) :
  no_whitespace a ->
  forall field rest, no_whitespace field ->
    startswith (a ++ 32 :: b) (field ++ 9 :: rest) = false.
Proof.
  unfold no_whitespace.
  induction a as [|x a IH]; intros Ha field rest Hf.
  - destruct field as [|c field]; [reflexivity|].
    cbn [existsb] in Hf. apply orb_false_iff in Hf as [Hc _].
    cbn [app startswith].
    destruct (N.eqb_spec 32 c) as [<-|_]; [discriminate Hc | reflexivity].
  - cbn [existsb] in Ha. apply orb_false_iff in Ha as [Hx Ha].
    destruct field as [|c field]; cbn [app startswith].
    + destruct (N.eqb_spec x 9) as [->|_]; [discriminate Hx | reflexivity].
    + cbn [existsb] in Hf. apply orb_false_iff in Hf as [_ Hf].
      rewrite (IH Ha field rest Hf). apply andb_false_r.
Qed.

(** One row of the table, [serial TAB state], as the parsing loop reads it. *)
Lemma adb_devices_row_parsed (serial state : str) :
  is_field serial -> is_field state ->
  adb_devices_line [] (adb_devices_row (serial, state))
  = if str_eqb state (lit "device")
    then [(serial, startswith (lit "emulator-") serial)] else [].
Proof.
  intros Hs Ht. unfold adb_devices_line, adb_devices_row. cbn [fst snd].
  cbv zeta. rewrite (strip_between_fields serial _ state Hs Ht).
  assert (E : split (serial ++ ([9] : str) ++ state) = [serial; state]).
  { pose proof (split_padded [] serial [([9], state)] [] eq_refl Hs) as E.
    cbn [padded fst snd map] in E. rewrite !app_nil_r in E. apply E.
    - constructor; [|constructor]. cbn [fst snd].
      split; [discriminate | split; [reflexivity | exact Ht]].
    - reflexivity. }
  rewrite E.
  change (lit "List of devices") with (lit "List" ++ 32 :: lit "of devices").
  change (([9] : str) ++ state) with (9 :: state).
  rewrite (startswith_field_mismatch (lit "List") (lit "of devices") eq_refl
             serial state (proj2 Hs)).
  destruct serial as [|c serial]; [destruct Hs; contradiction|].
  cbn [app nonempty negb orb]. destruct (str_eqb state (lit "device")); reflexivity.
Qed.

(** X3. [list_adb_devices] reads back the table [adb devices] prints:
    the header, one [serial TAB state] row per device, an empty line.  It
    returns the serials of the rows whose state is [device], in the order
    of the table, each flagged as an emulator exactly when it starts with
    [emulator-], and prints nothing. *)
Theorem list_adb_devices_reads_table (rows : list (str * str)) :
  Forall (fun row => is_field (fst row) /\ is_field (snd row)) rows ->
  list_adb_devices (Completed (adb_devices_output rows))
  = (map (fun row => (fst row, startswith (lit "emulator-") (fst row)))
       (filter (fun row => str_eqb (snd row) (lit "device")) rows), []).
Proof.
  intros Hrows. unfold list_adb_devices, adb_devices_output.
  rewrite fold_adb_devices_line. cbn [app]. f_equal.
  rewrite splitlines_lines_of.
  - cbn [flat_map]. change (adb_devices_line [] (lit "List of devices attached")) with (@nil Device).
    cbn [app]. rewrite flat_map_app. cbn [flat_map].
    change (adb_devices_line [] []) with (@nil Device). rewrite !app_nil_r.
    induction Hrows as [|[serial state] rows [Hs Ht] _ IH]; [reflexivity|].
    cbn [map flat_map filter fst snd].
    rewrite (adb_devices_row_parsed serial state Hs Ht), IH.
    destruct (str_eqb state (lit "device")); reflexivity.
  - constructor; [reflexivity|]. apply Forall_app. split; [|repeat constructor].
    induction Hrows as [|[serial state] rows [Hs Ht] _ IH]; constructor; [|exact IH].
    unfold adb_devices_row. cbn [fst snd] in *. rewrite existsb_app.
    rewrite (no_whitespace_no_linebreak _ (proj2 Hs)). cbn [orb app existsb].
    rewrite (no_whitespace_no_linebreak _ (proj2 Ht)). reflexivity.
Qed.

(** ** Targets the device registry can return *)

Lemma first_physical_in (devices : list Device) (serial : str) :
  first_physical devices = Some serial -> In (serial, false) devices.
Proof.
  induction devices as [|[s e] devices IH]; simpl; [discriminate|].
  destruct e; simpl.
  - intros H. right. exact (IH H).
  - intros H. injection H as <-. left. reflexivity.
Qed.

Lemma choose_among_in (devices : list Device) (serial : str) :
  choose_among devices = Some serial ->
  exists e, In (serial, e) devices.
Proof.
  unfold choose_among. intros H. destruct devices as [|[s e] [|d' rest]].
  - discriminate.
  - injection H as <-. exists e. left. reflexivity.
  - match type of H with
    | context [first_physical ?l] =>
        destruct (first_physical l) as [found|] eqn:E
    end.
    + injection H as ->. exists false. exact (first_physical_in _ _ E).
    + injection H as <-. exists e. left. reflexivity.
Qed.

Lemma list_adb_devices_serial_field (adb : RunOutcome) (serial : str) (e : bool) :
  In (serial, e) (fst (list_adb_devices adb)) -> is_field serial.
Proof.
  destruct adb as [stdout| |]; simpl; try contradiction.
  rewrite fold_adb_devices_line. simpl.
  intros H. apply in_flat_map in H as (line & _ & H).
  destruct (adb_devices_line_cases line) as [E | (s & rest & Hs & _ & E)];
    rewrite E in H; simpl in H; [contradiction|].
  destruct H as [H|[]]. injection H as <- _.
  pose proof (split_fields (strip line)) as Hf. rewrite Hs in Hf.
  inversion Hf; assumption.
Qed.

(** X4. [choose_target] returns a target exactly when [list_adb_devices]
    found a ready device, and the target is the serial of one of them: a
    non-empty token without white space, hence truthy and usable as one
    argument of a command line. *)
Theorem choose_target_some_iff_ready (adb : RunOutcome) :
  (fst (choose_target adb) = None <-> fst (list_adb_devices adb) = [])
  /\ forall serial,
       fst (choose_target adb) = Some serial ->
       is_field serial
       /\ truthy (Some serial) = true
       /\ exists e, In (serial, e) (fst (list_adb_devices adb)).
Proof.
  unfold choose_target.
  pose proof (list_adb_devices_serial_field adb) as Hfield.
  destruct (list_adb_devices adb) as [devices printed]. cbn [fst] in *.
  split.
  - unfold choose_among. destruct devices as [|d [|d' rest]].
    + split; reflexivity.
    + split; discriminate.
    + destruct (first_physical (d :: d' :: rest)); split; discriminate.
  - intros serial H. destruct (choose_among_in devices serial H) as [e Hin].
    pose proof (Hfield serial e Hin) as Hf.
    split; [exact Hf|]. split; [|exists e; exact Hin].
    destruct serial; [destruct Hf; contradiction | reflexivity].
Qed.

(** The table of an emulator, a phone and a phone waiting for
    authorisation. *)
Lemma list_adb_devices_reads_table_witness :
  list_adb_devices
    (Completed (adb_devices_output
                  [(lit "emulator-5554", lit "device");
                   (lit "R58M1234", lit "device");
                   (lit "ZY22", lit "unauthorized")]))
  = ([(lit "emulator-5554", true); (lit "R58M1234", false)], []).
Proof.
  apply (list_adb_devices_reads_table
           [(lit "emulator-5554", lit "device");
            (lit "R58M1234", lit "device");
            (lit "ZY22", lit "unauthorized")]).
  repeat (constructor;
          [split; (split; [discriminate | reflexivity])|]).
  constructor.
Defined.

(** A line of the log stream in [threadtime] format. *)
Lemma parse_threadtime_pid_reads_third_field_witness :
  parse_threadtime_pid
    (lit "01-02 10:00:00.000  4321  4400 I chromium: ready")
  = Some 4321%Z
  /\ forall Q,
       passes (logcat_line_filter AppMode) {| pid := Some Q |}
         (lit "01-02 10:00:00.000  4321  4400 I chromium: ready")
       = (4321 =? Q)%Z.
Proof.
  apply (parse_threadtime_pid_reads_third_field 4321 [] (lit "01-02")
           [(lit " ", lit "10:00:00.000"); (lit "  ", lit "4321");
            (lit "  ", lit "4400"); (lit " ", lit "I");
            (lit " ", lit "chromium:"); (lit " ", lit "ready")] []).
  - reflexivity.
  - split; [discriminate | reflexivity].
  - repeat (constructor;
            [split; [discriminate
                    | split; [reflexivity
                             | split; [discriminate | reflexivity]]]|]).
    constructor.
  - reflexivity.
  - simpl. lia.
  - reflexivity.
Defined.

(** ** What the port allocator can return *)

Section PortAllocatorResult.
Variable can_bind : str -> Z -> bool.
Local Open Scope Z_scope.

Lemma try_ports_result (host : str) (n : nat) :
  forall p,
    match try_ports can_bind host p n with
    | Returns (Some r) =>
        p <= r < p + Z.of_nat n
        /\ socket_bind can_bind host r = Bound
        /\ forall q, p <= q < r -> socket_bind can_bind host q = BindOSError
    | Returns None =>
        forall q, p <= q < p + Z.of_nat n ->
                  socket_bind can_bind host q = BindOSError
    | Raises e =>
        e = OverflowError
        /\ exists r,
             p <= r < p + Z.of_nat n
             /\ socket_bind can_bind host r = BindOverflowError
             /\ forall q, p <= q < r ->
                          socket_bind can_bind host q = BindOSError
    end.
Proof.
  induction n as [|n IH]; intros p; cbn [try_ports].
  - intros q Hq. lia.
  - destruct (socket_bind can_bind host p) eqn:E.
    + split; [lia | split; [exact E | intros q Hq; lia]].
    + specialize (IH (p + 1)).
      destruct (try_ports can_bind host (p + 1) n) as [[r|]|e].
      * destruct IH as (Hr & Hb & Hfirst).
        split; [lia | split; [exact Hb|]].
        intros q Hq. destruct (Z.eq_dec q p) as [->|Hne]; [exact E|].
        apply Hfirst. lia.
      * intros q Hq. destruct (Z.eq_dec q p) as [->|Hne]; [exact E|].
        apply IH. lia.
      * destruct IH as (He & r & Hr & Hb & Hfirst).
        split; [exact He|]. exists r.
        split; [lia | split; [exact Hb|]].
        intros q Hq. destruct (Z.eq_dec q p) as [->|Hne]; [exact E|].
        apply Hfirst. lia.
    + split; [reflexivity|]. exists p.
      split; [lia | split; [exact E | intros q Hq; lia]].
Qed.

(** X5. What [find_free_port] returns lies in the range it tried,
    [P .. P + max(1, N) - 1], and every port before it met [OSError]; it
    is a port the socket was bound to, or it is [P] itself after every port
    of the range met [OSError].  An exception that leaves it is the
    [OverflowError] of a port number outside 0 .. 65535 in the range tried,
    every port before that one having met [OSError]. *)
Theorem find_free_port_result (host : str) (P N : Z) :
  match find_free_port can_bind host P N with
  | Returns r =>
      P <= r < P + Z.max 1 N
      /\ (forall q, P <= q < r -> socket_bind can_bind host q = BindOSError)
      /\ (socket_bind can_bind host r = Bound
          \/ r = P
             /\ forall q, P <= q < P + Z.max 1 N ->
                          socket_bind can_bind host q = BindOSError)
  | Raises e =>
      e = OverflowError
      /\ exists r,
           P <= r < P + Z.max 1 N
           /\ (r < 0 \/ 65535 < r)
           /\ forall q, P <= q < r ->
                        socket_bind can_bind host q = BindOSError
  end.
Proof.
  unfold find_free_port.
  pose proof (try_ports_result host (Z.to_nat (Z.max 1 N)) P) as H.
  rewrite Z2Nat.id in H by lia.
  destruct (try_ports can_bind host P (Z.to_nat (Z.max 1 N))) as [[r|]|e].
  - destruct H as (Hr & Hb & Hfirst).
    split; [exact Hr | split; [exact Hfirst | left; exact Hb]].
  - split; [lia | split; [intros q Hq; lia | right; split; [reflexivity | exact H]]].
  - destruct H as (He & r & Hr & Hb & Hfirst).
    split; [exact He|]. exists r. split; [exact Hr | split; [|exact Hfirst]].
    destruct (Z_le_dec 0 r); [|lia]. destruct (Z_le_dec r 65535); [|lia].
    exfalso. apply (proj2 (socket_bind_in_range can_bind host r)); [lia | exact Hb].
Qed.
End PortAllocatorResult.

(** ** The bridge worker *)

Lemma discover_none (w : CdpWorld) (fuel : nat) :
  forall retry_count,
    (forall i, (retry_count <= i < retry_count + fuel)%nat ->
               truthy (ws_url_reply w i) = false) ->
    discover w retry_count fuel = (None, List.concat (repeat retry fuel)).
Proof.
  induction fuel as [|fuel IH]; intros retry_count H; simpl.
  - reflexivity.
  - rewrite (H retry_count) by lia.
    rewrite (IH (S retry_count)) by (intros i Hi; apply H; lia).
    reflexivity.
Qed.

Lemma discover_first (w : CdpWorld) (url : str) (k : nat) :
  forall fuel retry_count,
    (k < fuel)%nat ->
    (forall i, (retry_count <= i < retry_count + k)%nat ->
               truthy (ws_url_reply w i) = false) ->
    ws_url_reply w (retry_count + k) = Some url ->
    nonempty url = true ->
    discover w retry_count fuel
    = (Some url, List.concat (repeat retry k) ++ [GetUrl]).
Proof.
  induction k as [|k IH]; intros fuel retry_count Hk Hfalsy Hurl Hne;
    (destruct fuel as [|fuel]; [lia|]); simpl.
  - rewrite Nat.add_0_r in Hurl. rewrite Hurl. simpl. rewrite Hne. reflexivity.
  - rewrite (Hfalsy retry_count) by lia.
    rewrite (IH fuel (S retry_count)); [reflexivity | lia | | | exact Hne].
    + intros i Hi. apply Hfalsy. lia.
    + rewrite <- Hurl. f_equal. lia.
Qed.

Lemma discover_polls (w : CdpWorld) (fuel : nat) :
  forall retry_count,
    (List.length (filter is_get_url (snd (discover w retry_count fuel)))
     <= fuel)%nat
    /\ Forall (fun e => socket_of e = None /\ is_connect e = false)
         (snd (discover w retry_count fuel)).
Proof.
  induction fuel as [|fuel IH]; intros retry_count; simpl.
  - split; [lia | constructor].
  - destruct (truthy (ws_url_reply w retry_count)).
    + split; [simpl; lia | repeat constructor].
    + destruct (IH (S retry_count)) as [Hl Hq].
      destruct (discover w (S retry_count) fuel) as [found events].
      simpl in *. split; [lia | repeat constructor; exact Hq].
Qed.

Lemma receive_loop_prints (replies : list Recv) :
  Forall (fun e => socket_of e = None /\ is_connect e = false
                   /\ is_get_url e = false)
    (fst (receive_loop replies)).
Proof.
  induction replies as [|[|[line|]| |e] replies IH]; simpl;
    try exact IH; try (repeat constructor).
  - destruct (receive_loop replies) as [events broke]. simpl in *.
    repeat constructor. exact IH.
  - destruct (receive_loop replies) as [events broke]. exact IH.
Qed.

(** X6. The receive loop of the bridge: empty messages and time-outs
    change nothing; without a failing [recv] the loop prints what the
    handled messages print and goes on listening; at the first failing
    [recv] it prints the error and is left, whatever would have come
    after. *)
Theorem receive_loop_contract (replies : list Recv) :
  receive_loop (filter (fun r => negb (is_idle r)) replies)
  = receive_loop replies
  /\ (existsb is_failure replies = false ->
      receive_loop replies = (printed_lines replies, false))
  /\ (forall pre e post,
         replies = pre ++ RecvFailed e :: post ->
         existsb is_failure pre = false ->
         receive_loop replies
         = (printed_lines pre ++ [CdpPrint (lit "[cdp] Error: " ++ e)], true)).
Proof.
  split; [|split].
  - induction replies as [|[|printed| |e] replies IH]; simpl;
      try exact IH; try reflexivity.
    rewrite IH. reflexivity.
  - induction replies as [|[|[line|]| |e] replies IH]; simpl; intros H;
      try (rewrite (IH H)); try reflexivity; try (exact (IH H)).
    discriminate.
  - intros pre e post ->.
    induction pre as [|[|[line|]| |e'] pre IH]; simpl; intros H;
      try (rewrite (IH H)); try reflexivity; try (exact (IH H)).
    discriminate.
Qed.

Lemma quiet_no_close (events : list CdpEvent) :
  Forall (fun e => socket_of e = None /\ is_connect e = false) events ->
  filter is_close events = []
  /\ filter is_connect events = []
  /\ forall e, In e events -> socket_of e = None /\ is_connect e = false.
Proof.
  intros H. split; [|split].
  - induction H as [|e events [He _] _ IH]; simpl; [reflexivity|].
    destruct e; try discriminate He; exact IH.
  - induction H as [|e events [_ He] _ IH]; simpl; [reflexivity|].
    rewrite He. exact IH.
  - apply Forall_forall. exact H.
Qed.

Lemma receive_loop_quiet (replies : list Recv) :
  Forall (fun e => socket_of e = None /\ is_connect e = false)
    (fst (receive_loop replies))
  /\ filter is_get_url (fst (receive_loop replies)) = [].
Proof.
  pose proof (receive_loop_prints replies) as H. split.
  - eapply Forall_impl; [|exact H]. intros e (H1 & H2 & _). split; assumption.
  - induction H as [|e events (_ & _ & He) _ IH]; simpl; [reflexivity|].
    rewrite He. exact IH.
Qed.

(** Case analysis of the worker: the discovery, the three attempts, the two
    requests and the way the receive loop is left. *)
Ltac worker_cases w :=
  unfold cdp_pump;
  let Hl := fresh "Hl" in
  let Hq := fresh "Hq" in
  destruct (discover_polls w max_retries 0) as [Hl Hq];
  let url := fresh "url" in
  let found := fresh "found" in
  destruct (discover w 0 max_retries) as [[url|] found]; cbn [snd] in Hl, Hq;
  [ unfold negotiate, connect_attempt;
    destruct (create_connection w url SuppressOrigin) eqn:?;
    cbn [ws is_None last_err attempts app];
    [|destruct (create_connection w url (WithOrigin (lit "chrome://inspect")))
        eqn:?;
      cbn [ws is_None last_err attempts app];
      [|destruct (create_connection w url
                    (WithOrigin (lit "http://localhost:9222"))) eqn:?;
        cbn [ws is_None last_err attempts app]]];
    [ unfold session .. | ];
    repeat match goal with
      | |- context [send_raises w ?s ?r] =>
          destruct (send_raises w s r) eqn:?
      | |- context [receive_loop ?l] =>
          let Hr := fresh "Hr" in
          let Hg := fresh "Hg" in
          destruct (receive_loop_quiet l) as [Hr Hg];
          let events := fresh "events" in
          destruct (receive_loop l) as [events []]; cbn [fst] in Hr, Hg
      end
  | ];
  cbn [fst snd].

Ltac in_quiet :=
  match goal with
  | Hq : Forall _ ?l, Hin : In ?e ?l |- _ =>
      let H1 := fresh in let H2 := fresh in
      destruct (proj2 (proj2 (quiet_no_close l Hq)) e Hin) as [H1 H2];
      simpl in H1, H2; try discriminate H1; try discriminate H2; try congruence
  end.

(** X7. The worker asks for the DevTools URL at most 30 times.  When none
    of the 30 replies is a usable URL it has slept one second 30 times,
    prints the warning and returns without a connection attempt; when
    reply number [k] is the first usable one it has slept [k] times, and
    the first connection attempt follows at once, to that URL and without
    Origin. *)
Theorem cdp_pump_discovery (w : CdpWorld) :
  (List.length (filter is_get_url (fst (cdp_pump w))) <= max_retries)%nat
  /\ ((forall i, (i < max_retries)%nat -> truthy (ws_url_reply w i) = false) ->
      cdp_pump w
      = (List.concat (repeat retry max_retries)
           ++ [CdpPrint cdp_unavailable_warning],
         WorkerReturned))
  /\ (forall k url,
         (k < max_retries)%nat ->
         (forall i, (i < k)%nat -> truthy (ws_url_reply w i) = false) ->
         ws_url_reply w k = Some url ->
         nonempty url = true ->
         exists rest,
           fst (cdp_pump w)
           = List.concat (repeat retry k)
               ++ GetUrl :: Connect url SuppressOrigin :: rest).
Proof.
  split; [|split].
  - worker_cases w;
      rewrite ?filter_app, ?length_app; cbn [filter is_get_url List.length app];
      rewrite ?filter_app, ?length_app, ?Hg; cbn [filter is_get_url List.length app];
      lia.
  - intros H. unfold cdp_pump.
    rewrite (discover_none w max_retries 0) by (intros i Hi; apply H; lia).
    reflexivity.
  - intros k url Hk Hfalsy Hurl Hne. unfold cdp_pump.
    rewrite (discover_first w url k max_retries 0 Hk)
      by (try exact Hne; try exact Hurl; intros i Hi; apply Hfalsy; lia).
    unfold negotiate, connect_attempt.
    destruct (create_connection w url SuppressOrigin);
      cbn [ws is_None last_err attempts app].
    + destruct (session w s) as [events [[|]|e]]; cbn [fst];
        rewrite <- app_assoc; cbn [app]; eexists; reflexivity.
    + destruct (create_connection w url (WithOrigin (lit "chrome://inspect")));
        cbn [ws is_None last_err attempts app].
      * destruct (session w s) as [events [[|]|e']]; cbn [fst];
          rewrite <- app_assoc; cbn [app]; eexists; reflexivity.
      * destruct (create_connection w url
                    (WithOrigin (lit "http://localhost:9222")));
          cbn [ws is_None last_err attempts app].
        -- destruct (session w s) as [events [[|]|e']]; cbn [fst];
             rewrite <- app_assoc; cbn [app]; eexists; reflexivity.
        -- rewrite <- app_assoc; cbn [app]; eexists; reflexivity.
Qed.

Lemma last_app_cons {A} (l : list A) (x : A) (l' : list A) (d : A) :
  last (l ++ x :: l') d = last (x :: l') d.
Proof.
  induction l as [|a l IH]; [reflexivity|].
  cbn [app]. rewrite <- IH. destruct l; reflexivity.
Qed.

Lemma last_cons_cons {A} (x y : A) (l : list A) (d : A) :
  last (x :: y :: l) d = last (y :: l) d.
Proof. reflexivity. Qed.

Lemma last_cons_app {A} (x : A) (l : list A) (y : A) (l' : list A) (d : A) :
  last (x :: l ++ y :: l') d = last (l ++ y :: l') d.
Proof. destruct l; reflexivity. Qed.

(** X8. No exception leaves the worker.  It sends on and closes only a
    socket that one of its own connection attempts returned; when it
    returns after an attempt that succeeded, closing that socket is the
    last thing it did and the only close; while it is listening nothing
    has been closed. *)
Theorem cdp_pump_socket_discipline (w : CdpWorld) :
  (forall e, snd (cdp_pump w) <> WorkerRaised e)
  /\ (forall e s,
         In e (fst (cdp_pump w)) -> socket_of e = Some s ->
         exists url options,
           create_connection w url options = inl s
           /\ In (Connect url options) (fst (cdp_pump w)))
  /\ (snd (cdp_pump w) = WorkerReturned ->
      forall url options s,
        In (Connect url options) (fst (cdp_pump w)) ->
        create_connection w url options = inl s ->
        filter is_close (fst (cdp_pump w)) = [Close s]
        /\ last (fst (cdp_pump w)) GetUrl = Close s)
  /\ (snd (cdp_pump w) = WorkerListening ->
      filter is_close (fst (cdp_pump w)) = []).
Proof.
  split; [|split; [|split]].
  - intros e. worker_cases w; discriminate.
  - intros e s. worker_cases w; intros Hin Hs;
      repeat (rewrite in_app_iff in Hin; cbn [In] in Hin);
      repeat match type of Hin with
        | _ \/ _ => destruct Hin as [Hin|Hin]
        | False => contradiction
        end;
      try in_quiet; try (subst e; cbn [socket_of] in Hs);
      try discriminate Hs;
      injection Hs as <-;
      eexists _, _; (split; [eassumption|]);
      rewrite !in_app_iff; cbn [In]; tauto.
  - worker_cases w; intros Hend; try discriminate Hend;
      intros url' options s' Hin Hc;
      repeat (rewrite in_app_iff in Hin; cbn [In] in Hin);
      repeat match type of Hin with
        | _ \/ _ => destruct Hin as [Hin|Hin]
        | False => contradiction
        end;
      try in_quiet; try discriminate Hin;
      try (injection Hin as <- <-); try congruence;
      (assert (Es : s' = s) by congruence; subst s');
      (split;
       [ rewrite !filter_app; cbn [filter is_close app];
         rewrite ?filter_app, ?(proj1 (quiet_no_close _ Hq)),
           ?(proj1 (quiet_no_close _ Hr)); reflexivity
       | repeat first [ rewrite last_app_cons | rewrite last_cons_cons
                      | rewrite last_cons_app ];
         reflexivity ]).
  - worker_cases w; intros Hend; try discriminate Hend;
      rewrite !filter_app; cbn [filter is_close app];
      rewrite ?filter_app, ?(proj1 (quiet_no_close _ Hq)),
        ?(proj1 (quiet_no_close _ Hr)); reflexivity.
Qed.

(** ** The pump of [stream_output] *)

Section PumpFacts.
Context {U : UnicodeData}.

Lemma pump_app (prefix : str) (line_filter : LineFilter) (lines : list str) :
  forall (holder : AppPidHolder) (feed : list Feed),
    pump prefix line_filter holder (map Line lines ++ feed)
    = pump prefix line_filter holder (map Line lines)
        ++ pump prefix line_filter holder feed.
Proof.
  induction lines as [|line lines IH]; intros holder feed; cbn [map app pump].
  - reflexivity.
  - rewrite IH.
    destruct (negb (nonempty line)); [reflexivity|].
    destruct (passes line_filter holder line); reflexivity.
Qed.

Lemma pump_lines (prefix : str) (line_filter : LineFilter)
      (holder : AppPidHolder) (lines : list str) :
  pump prefix line_filter holder (map Line lines)
  = map (fun line => prefix ++ rstrip line)
      (filter (fun line => nonempty line && passes line_filter holder line)
         lines).
Proof.
  induction lines as [|line lines IH]; cbn [map pump filter]; [reflexivity|].
  rewrite IH. destruct (nonempty line); cbn [negb andb]; [|reflexivity].
  destruct (passes line_filter holder line); reflexivity.
Qed.

(** X9. The pump of [stream_output]: without a filter it prints every
    non-empty line it reads, prefixed and with its trailing white space
    removed; with the console filter it prints those of them that
    [is_console_line] accepts, whatever is written to the shared cell.  An
    exception in the loop ends the pump: nothing is read after it, and the
    last line printed is the prefix, [Error reading stream: ] and the
    text of the exception.  Whatever the filter, each printed line starts
    with the prefix, and apart from that report no more lines are printed
    than were read.  With the app-mode filter and no exception, the lines
    read before the main thread stores the PID [P] are all printed, and of
    the lines read after it those whose PID field is [P]. *)
Theorem pump_contract (prefix : str) (holder : AppPidHolder)
        (feed : list Feed) :
  pump prefix NoFilter holder feed
  = map (fun line => prefix ++ rstrip line) (filter nonempty (lines_fed feed))
      ++ error_report prefix feed
  /\ pump prefix ConsoleFilter holder feed
     = map (fun line => prefix ++ rstrip line)
         (filter (fun line => nonempty line && is_console_line line)
            (lines_fed feed))
         ++ error_report prefix feed
  /\ (forall line_filter,
         Forall (fun printed => startswith prefix printed = true)
           (pump prefix line_filter holder feed)
         /\ exists printed,
             pump prefix line_filter holder feed
             = printed ++ error_report prefix feed
             /\ (List.length printed <= List.length (lines_fed feed))%nat)
  /\ (forall before e rest,
         read_error before = None ->
         lines_fed (before ++ ReadFailed e :: rest) = lines_fed before
         /\ error_report prefix (before ++ ReadFailed e :: rest)
            = [prefix ++ lit "Error reading stream: " ++ e])
  /\ (forall before after P,
         pump prefix AppFilter {| pid := None |}
           (map Line before ++ PidWritten (Some P) :: map Line after)
         = map (fun line => prefix ++ rstrip line)
             (filter nonempty before
              ++ filter (fun line =>
                           nonempty line
                           && opt_int_eqb (parse_threadtime_pid line) (Some P))
                   after)).
Proof.
  unfold error_report.
  split; [|split; [|split; [|split]]].
  - revert holder.
    induction feed as [|[line|value|e] feed IH]; intros holder;
      cbn [pump lines_fed read_error app filter map passes];
      [reflexivity | |apply IH|reflexivity].
    rewrite IH.
    destruct (nonempty line); reflexivity.
  - revert holder.
    induction feed as [|[line|value|e] feed IH]; intros holder;
      cbn [pump lines_fed read_error app filter map passes];
      [reflexivity | |apply IH|reflexivity].
    rewrite IH.
    destruct (nonempty line); cbn [negb andb]; [|reflexivity].
    destruct (is_console_line line); reflexivity.
  - intros line_filter. revert holder.
    induction feed as [|[line|value|e] feed IH]; intros holder;
      cbn [pump lines_fed read_error app List.length].
    + split; [constructor | exists []; split; [reflexivity | cbn; lia]].
    + destruct (IH holder) as [Hp [printed [Hpump Hl]]].
      destruct (negb (nonempty line));
        [split; [exact Hp | exists printed; split; [exact Hpump | lia]]|].
      destruct (passes line_filter holder line);
        [|split; [exact Hp | exists printed; split; [exact Hpump | lia]]].
      split.
      * constructor; [|exact Hp]. apply startswith_app.
      * exists ((prefix ++ rstrip line) :: printed).
        split; [rewrite Hpump; reflexivity | cbn [List.length]; lia].
    + apply IH.
    + split; [|exists []; split; [reflexivity | cbn; lia]].
      constructor; [|constructor]. apply startswith_app.
  - intros before e rest.
    induction before as [|[line|value|e'] before IH];
      cbn [app lines_fed read_error]; intros Hnone.
    + split; reflexivity.
    + destruct (IH Hnone) as [Hl He]. rewrite Hl. split; [reflexivity | exact He].
    + exact (IH Hnone).
    + discriminate Hnone.
  - intros before after P. rewrite pump_app. cbn [pump].
    rewrite !pump_lines, map_app. f_equal.
    f_equal. apply filter_ext. intros line.
    cbn [passes]. unfold app_line_filter. cbn [pid is_None orb].
    rewrite andb_true_r. reflexivity.
Qed.
End PumpFacts.

(** ** The wait for the PID of the app *)

Lemma after_no_events (f : Frame) : after_events f [] = f.
Proof. destruct f. unfold after_events. simpl. rewrite app_nil_r. reflexivity. Qed.

Lemma after_events_app (f : Frame) (a b : list Event) :
  after_events (after_events f a) b = after_events f (a ++ b).
Proof. unfold after_events. simpl. rewrite app_assoc. reflexivity. Qed.

Lemma emit_after (e : Event) (f : Frame) :
  emit e f = (after_events f [e], Normal tt).
Proof. reflexivity. Qed.

Section WaitForPidFacts.
Context {U : UnicodeData}.

Lemma wait_for_pid_misses (adb_cmd app_id : str) (misses : list RunOutcome)
      (rest : list PidofReply) :
  Forall no_pid misses ->
  forall f,
    wait_for_pid adb_cmd app_id (map Pidof misses ++ rest) f
    = wait_for_pid adb_cmd app_id rest
        (after_events f (repeat (pidof_cmd adb_cmd app_id)
                           (List.length misses))).
Proof.
  induction 1 as [|miss misses Hmiss _ IH]; intros f; cbn [map app List.length repeat].
  - rewrite after_no_events. reflexivity.
  - cbn [wait_for_pid]. unfold bind at 1.
    fold (pidof_cmd adb_cmd app_id). rewrite emit_after.
    change (pidof_cmd adb_cmd app_id
              :: repeat (pidof_cmd adb_cmd app_id) (List.length misses))
      with ([pidof_cmd adb_cmd app_id]
              ++ repeat (pidof_cmd adb_cmd app_id) (List.length misses)).
    rewrite <- after_events_app.
    destruct Hmiss as [-> | ->]; cbn [Z.eqb]; apply IH.
Qed.

(** X10. [wait_for_pid] asks again as long as [get_app_pid] returns
    [None] or 0: after such replies only, it returns [None]; an interrupt
    that arrives after them leaves it as [KeyboardInterrupt]; and the
    first reply with a non-zero PID is returned.  It has run one
    [adb shell pidof] per reply it used and has done nothing else. *)
Theorem wait_for_pid_contract (adb_cmd app_id : str)
        (misses : list RunOutcome) (f : Frame) :
  Forall no_pid misses ->
  let polls := repeat (pidof_cmd adb_cmd app_id) in
  wait_for_pid adb_cmd app_id (map Pidof misses) f
  = (after_events f (polls (List.length misses)), Normal None)
  /\ (forall rest,
         wait_for_pid adb_cmd app_id
           (map Pidof misses ++ PidofInterrupted :: rest) f
         = (after_events f (polls (List.length misses)),
            Raise KeyboardInterrupt))
  /\ (forall hit pid rest,
         get_app_pid hit = Some pid -> pid <> 0%Z ->
         wait_for_pid adb_cmd app_id (map Pidof misses ++ Pidof hit :: rest) f
         = (after_events f (polls (S (List.length misses))),
            Normal (Some pid))).
Proof.
  intros Hmisses polls. subst polls. split; [|split].
  - rewrite <- (app_nil_r (map Pidof misses)).
    rewrite (wait_for_pid_misses adb_cmd app_id misses [] Hmisses).
    reflexivity.
  - intros rest.
    rewrite (wait_for_pid_misses adb_cmd app_id misses _ Hmisses).
    reflexivity.
  - intros hit found rest Hhit Hfound.
    rewrite (wait_for_pid_misses adb_cmd app_id misses _ Hmisses).
    cbn [wait_for_pid]. unfold bind at 1.
    fold (pidof_cmd adb_cmd app_id). rewrite emit_after, Hhit.
    destruct (Z.eqb_spec found 0) as [E|_]; [contradiction|].
    unfold ret. rewrite after_events_app.
    replace (repeat (pidof_cmd adb_cmd app_id) (List.length misses)
               ++ [pidof_cmd adb_cmd app_id])
      with (repeat (pidof_cmd adb_cmd app_id) (S (List.length misses))).
    + reflexivity.
    + change [pidof_cmd adb_cmd app_id]
        with (repeat (pidof_cmd adb_cmd app_id) 1).
      rewrite <- repeat_app. f_equal. lia.
Qed.

(** X11. Whatever the replies, [wait_for_pid] never returns 0: it
    returns a non-zero PID that one of the replies carried, or [None]
    after replies that all carried no PID, or it is left by
    [KeyboardInterrupt]; it has run at most one [adb shell pidof] per
    reply and has changed nothing else. *)
Theorem wait_for_pid_result (adb_cmd app_id : str)
        (replies : list PidofReply) (f : Frame) :
  match snd (wait_for_pid adb_cmd app_id replies f) with
  | Normal (Some found) =>
      found <> 0%Z
      /\ exists hit, In (Pidof hit) replies /\ get_app_pid hit = Some found
  | Normal None =>
      forall reply, In reply replies ->
                    exists miss, reply = Pidof miss /\ no_pid miss
  | Raise e => e = KeyboardInterrupt /\ In PidofInterrupted replies
  | Returned _ => False
  | Running => False
  end
  /\ exists polls,
       (polls <= List.length replies)%nat
       /\ fst (wait_for_pid adb_cmd app_id replies f)
          = after_events f (repeat (pidof_cmd adb_cmd app_id) polls).
Proof.
  revert f. induction replies as [|[outcome|] replies IH]; intros f.
  - cbn. split; [intros reply []|]. exists 0%nat.
    split; [lia | rewrite after_no_events; reflexivity].
  - cbn [wait_for_pid]. unfold bind at 1.
    fold (pidof_cmd adb_cmd app_id). rewrite emit_after.
    assert (Hgo :
      forall f',
        f' = after_events f [pidof_cmd adb_cmd app_id] ->
        no_pid outcome ->
        match snd (wait_for_pid adb_cmd app_id replies f') with
        | Normal (Some found) =>
            found <> 0%Z
            /\ exists hit, In (Pidof hit) (Pidof outcome :: replies)
                           /\ get_app_pid hit = Some found
        | Normal None =>
            forall reply, In reply (Pidof outcome :: replies) ->
                          exists miss, reply = Pidof miss /\ no_pid miss
        | Raise e => e = KeyboardInterrupt
                     /\ In PidofInterrupted (Pidof outcome :: replies)
        | Returned _ => False
        | Running => False
        end
        /\ exists polls,
             (polls <= List.length (Pidof outcome :: replies))%nat
             /\ fst (wait_for_pid adb_cmd app_id replies f')
                = after_events f (repeat (pidof_cmd adb_cmd app_id) polls)).
    { intros f' -> Hmiss.
      destruct (IH (after_events f [pidof_cmd adb_cmd app_id]))
        as [Hres (polls & Hpolls & Hf)].
      split.
      - destruct (snd (wait_for_pid adb_cmd app_id replies
                         (after_events f [pidof_cmd adb_cmd app_id])))
          as [[found|]|code|e|]; try exact Hres.
        + destruct Hres as (Hne & hit & Hin & Hhit).
          split; [exact Hne|]. exists hit. split; [right; exact Hin | exact Hhit].
        + intros reply [<-|Hin]; [exists outcome; split; [reflexivity | exact Hmiss]|].
          exact (Hres reply Hin).
        + destruct Hres as [He Hin]. split; [exact He | right; exact Hin].
      - exists (S polls). split; [cbn [List.length]; lia|].
        rewrite Hf, after_events_app. reflexivity. }
    destruct (get_app_pid outcome) as [found|] eqn:E.
    + destruct (Z.eqb_spec found 0) as [->|Hne].
      * apply Hgo; [reflexivity | right; exact E].
      * cbn [ret fst snd]. split.
        -- split; [exact Hne|]. exists outcome.
           split; [left; reflexivity | exact E].
        -- exists 1%nat. split; [cbn [List.length]; lia | reflexivity].
    + apply Hgo; [reflexivity | left; exact E].
  - cbn. split; [split; [reflexivity | left; reflexivity]|].
    exists 0%nat. split; [lia | rewrite after_no_events; reflexivity].
Qed.
End WaitForPidFacts.

(** ** Reasoning on the blocks of [run] *)

Lemma triple_bind {A B} P (m : M A) (k : A -> M B) Q R X :
  triple P m Q X -> (forall a, triple (Q a) (k a) R X) ->
  triple P (bind m k) R X.
Proof.
  intros Hm Hk f Hf. unfold bind. specialize (Hm f Hf).
  destruct (m f) as [f1 [a|code|e|]]; try exact Hm.
  exact (Hk a f1 Hm).
Qed.

Lemma triple_pre {A} (P P' : Frame -> Prop) (m : M A) Q X :
  (forall f, P' f -> P f) -> triple P m Q X -> triple P' m Q X.
Proof. intros H Hm f Hf. exact (Hm f (H f Hf)). Qed.

Lemma triple_post {A} P (m : M A) (Q Q' : A -> Frame -> Prop) X :
  (forall a f, Q a f -> Q' a f) -> triple P m Q X -> triple P m Q' X.
Proof.
  intros H Hm f Hf. specialize (Hm f Hf).
  destruct (m f) as [f1 [a|code|e|]]; try exact Hm. exact (H a f1 Hm).
Qed.

Lemma triple_pure {A} (fact : Prop) P (m : M A) Q X :
  (fact -> triple P m Q X) -> triple (fun f => fact /\ P f) m Q X.
Proof. intros H f [Hfact Hf]. exact (H Hfact f Hf). Qed.

Lemma triple_ret {A} P (a : A) (Q : A -> Frame -> Prop) X :
  (forall f, P f -> Q a f) -> triple P (ret a) Q X.
Proof. intros H f Hf. exact (H f Hf). Qed.

Lemma triple_bind_ret {A B} P (a : A) (k : A -> M B) Q X :
  triple P (k a) Q X -> triple P (bind (ret a) k) Q X.
Proof. intros H f Hf. exact (H f Hf). Qed.

Lemma triple_emit P (e : Event) (Q : unit -> Frame -> Prop) X :
  (forall f, P f -> Q tt (after_events f [e])) -> triple P (emit e) Q X.
Proof. intros H f Hf. exact (H f Hf). Qed.

Lemma triple_get P (Q : Frame -> Frame -> Prop) X :
  (forall f, P f -> Q f f) -> triple P get Q X.
Proof. intros H f Hf. exact (H f Hf). Qed.

Lemma triple_bind_get {B} P (k : Frame -> M B) R X :
  (forall a, P a -> triple P (k a) R X) -> triple P (bind get k) R X.
Proof. intros H f Hf. exact (H f Hf f Hf). Qed.

Lemma triple_set_dev_proc P p (Q : unit -> Frame -> Prop) X :
  (forall f, P f -> Q tt (fst (set_dev_proc p f))) ->
  triple P (set_dev_proc p) Q X.
Proof. intros H f Hf. exact (H f Hf). Qed.

Lemma triple_set_logcat_proc P p (Q : unit -> Frame -> Prop) X :
  (forall f, P f -> Q tt (fst (set_logcat_proc p f))) ->
  triple P (set_logcat_proc p) Q X.
Proof. intros H f Hf. exact (H f Hf). Qed.

Lemma triple_set_cap_proc P p (Q : unit -> Frame -> Prop) X :
  (forall f, P f -> Q tt (fst (set_cap_proc p f))) ->
  triple P (set_cap_proc p) Q X.
Proof. intros H f Hf. exact (H f Hf). Qed.

Lemma triple_set_app_pid_holder P h (Q : unit -> Frame -> Prop) X :
  (forall f, P f -> Q tt (fst (set_app_pid_holder h f))) ->
  triple P (set_app_pid_holder h) Q X.
Proof. intros H f Hf. exact (H f Hf). Qed.

Lemma triple_return {A} P code (Q : A -> Frame -> Prop) (X : Way -> Frame -> Prop) :
  (forall f, P f -> X (ByReturn code) f) -> triple P (return_ code) Q X.
Proof. intros H f Hf. exact (H f Hf). Qed.

Lemma triple_raise {A} P e (Q : A -> Frame -> Prop) (X : Way -> Frame -> Prop) :
  (forall f, P f -> X (ByRaise e) f) -> triple P (raise e) Q X.
Proof. intros H f Hf. exact (H f Hf). Qed.

Lemma triple_running {A} P (Q : A -> Frame -> Prop) (X : Way -> Frame -> Prop) :
  (forall f, P f -> X StillRunning f) -> triple P running Q X.
Proof. intros H f Hf. exact (H f Hf). Qed.

(** A block that always falls through keeps a fact that does not depend
    on the frame. *)
Lemma triple_normal {A} (fact : Prop) (m : M A) X :
  normal m -> triple (fun _ => fact) m (fun _ _ => fact) X.
Proof. intros H f Hf. destruct (H f) as (f' & a & ->). exact Hf. Qed.

Lemma triple_try_finally {A} P (body : M A) (fin : M unit) Qb Xb Q X :
  triple P body Qb Xb ->
  (forall a, triple (Qb a) fin (fun _ => Q a) X) ->
  (forall code, triple (Xb (ByReturn code)) fin
                  (fun _ => X (ByReturn code)) X) ->
  (forall e, triple (Xb (ByRaise e)) fin (fun _ => X (ByRaise e)) X) ->
  (forall f, Xb StillRunning f -> X StillRunning f) ->
  triple P (try_finally body fin) Q X.
Proof.
  intros Hb Hn Hr He Hs f Hf. unfold try_finally. specialize (Hb f Hf).
  destruct (body f) as [f1 [a|code|e|]].
  - specialize (Hn a f1 Hb). destruct (fin f1) as [f2 [[]|c|e|]]; exact Hn.
  - specialize (Hr code f1 Hb). destruct (fin f1) as [f2 [[]|c|e|]]; exact Hr.
  - specialize (He e f1 Hb). destruct (fin f1) as [f2 [[]|c|e'|]]; exact He.
  - exact (Hs f1 Hb).
Qed.

Lemma triple_except_KeyboardInterrupt {A} P (body handler : M A) Q Xb X :
  triple P body Q Xb ->
  triple (Xb (ByRaise KeyboardInterrupt)) handler Q X ->
  (forall way f, way <> ByRaise KeyboardInterrupt -> Xb way f -> X way f) ->
  triple P (except_KeyboardInterrupt body handler) Q X.
Proof.
  intros Hb Hh Hx f Hf. unfold except_KeyboardInterrupt. specialize (Hb f Hf).
  destruct (body f) as [f1 [a|code|[|argv|]|]]; try exact Hb;
    try (apply Hx; [discriminate | exact Hb]).
  exact (Hh f1 Hb).
Qed.

(** [m ;; k] when [m] keeps the precondition. *)
Ltac bind_same :=
  match goal with
  | |- triple ?P (bind _ _) _ _ =>
      apply triple_bind with (Q := fun _ => P); [|intros ?]
  end.

Lemma triple_wait_for_port (P : Frame -> Prop) (probes : list Probe)
      (X : Way -> Frame -> Prop) :
  (forall f, P f -> In ProbeInterrupted probes ->
             X (ByRaise KeyboardInterrupt) f) ->
  triple P (wait_for_port probes) (fun _ => P) X.
Proof.
  induction probes as [|[] probes IH]; intros H f Hf; cbn.
  - exact Hf.
  - exact Hf.
  - apply IH; [|exact Hf]. intros f' Hf' Hin. apply H; [exact Hf' | right; exact Hin].
  - apply H; [exact Hf | left; reflexivity].
Qed.

Lemma triple_supervise (I : Frame -> Prop) (schedule : list Tick)
      (X : Way -> Frame -> Prop) :
  (forall returncode, triple I (check_cap returncode) (fun _ => I) X) ->
  (forall returncode, triple I (check_dev returncode) (fun _ => I) X) ->
  (forall f, I f -> In Interrupt schedule -> X (ByReturn 0) f) ->
  (forall f, I f -> ~ In Interrupt schedule -> X StillRunning f) ->
  triple I (supervise schedule) (fun _ _ => False) X.
Proof.
  intros Hcap Hdev.
  induction schedule as [|[cap_rc dev_rc|] rest IH]; intros Hret Hrun;
    cbn [supervise].
  - apply triple_running. intros f Hf. apply Hrun; [exact Hf | intros []].
  - bind_same; [apply Hcap|]. bind_same; [apply Hdev|].
    apply IH.
    + intros f Hf Hin. apply Hret; [exact Hf | right; exact Hin].
    + intros f Hf Hin. apply Hrun; [exact Hf|].
      intros [E|Hin']; [discriminate E | exact (Hin Hin')].
  - apply triple_return. intros f Hf. apply Hret; [exact Hf | left; reflexivity].
Qed.

(** ** What the exit of the program tells *)

Lemma try_ports_raises (can_bind : str -> Z -> bool) (host : str) (n : nat) :
  forall p e, try_ports can_bind host p n = Raises e -> e = OverflowError.
Proof.
  induction n as [|n IH]; intros p e; cbn [try_ports]; [discriminate|].
  destruct (socket_bind can_bind host p).
  - discriminate.
  - apply IH.
  - intros H. injection H as <-. reflexivity.
Qed.

Lemma find_free_port_raises (can_bind : str -> Z -> bool) (host : str)
      (P N : Z) (e : Raised) :
  find_free_port can_bind host P N = Raises e -> e = OverflowError.
Proof.
  unfold find_free_port.
  destruct (try_ports can_bind host P (Z.to_nat (Z.max 1 N)))
    as [[r|]|e'] eqn:E; try discriminate.
  intros H. injection H as <-. exact (try_ports_raises _ _ _ _ _ E).
Qed.

Section ExitMeaning.
Context {U : UnicodeData}.

#[local] Hint Resolve normal_wait_for_pid_guarded : session.

(** A block that always falls through, in a proof about the ways out. *)
Ltac falls :=
  bind_same; [solve [apply triple_normal; fall_through]|].

Lemma session_body_exits (w : World) (args : Args) chosen_port npx_cmd
      adb_cmd adb_available target app_id logcat_mode :
  triple (fun _ => True)
    (session_body w args chosen_port npx_cmd adb_cmd adb_available target
       app_id logcat_mode)
    (fun _ _ => False) (fun way _ => session_exit w way).
Proof.
  unfold session_body.
  falls.
  bind_same; [apply triple_wait_for_port; intros f _ H; exact H|].
  falls. falls. falls.
  unfold popen. destruct (cap_popen_ok w) eqn:Hcap.
  - falls. falls. falls. falls. falls. falls.
    eapply triple_pre; [|apply (triple_supervise (fun _ => True))].
    + intros f _. exact Logic.I.
    + intros rc. apply triple_normal. fall_through.
    + intros rc. apply triple_normal. fall_through.
    + intros f _ Hin. repeat split; [exact Hcap | exact Hin].
    + intros f _ Hin. split; [exact Hcap | exact Hin].
  - apply triple_bind with (Q := fun _ _ => False); [|intros ? f []].
    apply triple_raise. intros f _. exact Hcap.
Qed.

Lemma no_child_process_print (line : str) (f : Frame) :
  existsb is_child_process (trace f) = false ->
  existsb is_child_process (trace (after_events f [Print line])) = false.
Proof.
  intros H. cbn [after_events trace]. rewrite existsb_app, H. reflexivity.
Qed.

Lemma run_exits (w : World) (args : Args) :
  triple (fun f => existsb is_child_process (trace f) = false)
    (run w args) (fun _ _ => False) (run_exit w args).
Proof.
  unfold run.
  destruct (is_wifi (args_mode args) && negb (truthy (args_host args)))
    eqn:Hflags.
  { bind_same; [apply triple_emit; intros f; apply no_child_process_print|].
    apply triple_return. intros f Hf. left.
    split; [reflexivity | split; [left; exact Hflags | exact Hf]]. }
  destruct (find_free_port (can_bind w) (lit "127.0.0.1") (args_port args) 20)
    as [chosen_port|e] eqn:Hport; cbn [call].
  2: { apply triple_bind with (Q := fun _ _ => False); [|intros ? f []].
       apply triple_raise. intros f _.
       pose proof (find_free_port_raises _ _ _ _ _ Hport) as ->.
       exact Hport. }
  apply triple_bind_ret.
  bind_same.
  { destruct (negb (chosen_port =? args_port args)%Z).
    - apply triple_emit; intros f; apply no_child_process_print.
    - apply triple_ret. intros f Hf; exact Hf. }
  cbv zeta.
  destruct (which w (resolve_cmd w (lit "npm"))) eqn:Hnpm; cbn [negb].
  2: { bind_same; [apply triple_emit; intros f; apply no_child_process_print|].
       apply triple_return. intros f Hf. left.
       split; [reflexivity | split; [right; left; exact Hnpm | exact Hf]]. }
  destruct (which w (resolve_cmd w (lit "npx"))) eqn:Hnpx; cbn [negb].
  2: { bind_same; [apply triple_emit; intros f; apply no_child_process_print|].
       apply triple_return. intros f Hf. left.
       split; [reflexivity | split; [right; right; exact Hnpx | exact Hf]]. }
  apply triple_pre with (P := fun _ => True); [intros; exact Logic.I|].
  falls. falls. falls.
  unfold popen. destruct (dev_popen_ok w) eqn:Hdev.
  2: { apply triple_bind with (Q := fun _ _ => False); [|intros ? f []].
       apply triple_raise. intros f _. left. exact Hdev. }
  falls. falls. falls. falls. falls.
  assert (Hstarted : cap_popen_ok w = true -> session_started w args).
  { intros Hcap. split; [exact Hflags|].
    split; [exists chosen_port; exact Hport|].
    split; [exact Hnpm|]. split; [exact Hnpx|]. split; [exact Hdev | exact Hcap]. }
  apply triple_try_finally
    with (Qb := fun _ _ => False) (Xb := fun way _ => session_exit w way).
  - apply session_body_exits.
  - intros ? f [].
  - intros code. eapply triple_post;
      [|apply (triple_normal (session_exit w (ByReturn code)));
        apply normal_teardown].
    intros ? f (-> & Hcap & Hint). right.
    split; [reflexivity | split; [exact (Hstarted Hcap) | exact Hint]].
  - intros e. eapply triple_post;
      [|apply (triple_normal (session_exit w (ByRaise e)));
        apply normal_teardown].
    intros ? f H. destruct e as [|argv|]; cbn in *.
    + split; [exact Hdev | exact H].
    + right. exact H.
    + contradiction.
  - intros f [Hcap Hint]. split; [exact (Hstarted Hcap) | exact Hint].
Qed.

(** X12. What a return code of [run] tells.  [run] returns no other code
    than 2 and 0.  Code 2 means a set-up error (wifi mode without host,
    [npm] or [npx] not found) and that no child process was started; code
    0 means that the session had started (the flags were accepted, a port
    was chosen, the tools were found, the dev server and the native app
    runner were started) and that Ctrl+C arrived in the supervisory loop.
    Nothing is said of a [run] that is left by an exception or has not
    returned, nor of a command line that [argparse] refuses: that ends the
    process, with status 2, before [run] has done anything. *)
Theorem run_exit_meaning (w : World) (args : Args) :
  match snd (main w args) with
  | ExitCode code =>
      (code = 2%Z /\ setup_error w args
       /\ existsb is_child_process (fst (main w args)) = false)
      \/ (code = 0%Z /\ session_started w args /\ In Interrupt (ticks w))
  | Uncaught _ | SessionRunning => True
  end.
Proof.
  pose proof (run_exits w args initial eq_refl) as H. unfold main.
  destruct (run w args initial) as [f [[]|code|e|]]; cbn [fst snd].
  - contradiction.
  - exact H.
  - exact I.
  - exact I.
Qed.
End ExitMeaning.

(** ** Invariants of the blocks of [run] *)

Lemma triple_print_all (P : Frame -> Prop) (lines : list str)
      (X : Way -> Frame -> Prop) :
  (forall line f, P f -> P (after_events f [Print line])) ->
  triple P (print_all lines) (fun _ => P) X.
Proof.
  intros H. induction lines as [|line lines IH]; cbn [print_all].
  - apply triple_ret. intros f Hf; exact Hf.
  - bind_same; [|exact IH]. apply triple_emit. intros f. apply H.
Qed.

Section InvariantFacts.
Context {U : UnicodeData}.

Lemma triple_wait_for_pid (I : Frame -> Prop) (adb_cmd app_id : str)
      (replies : list PidofReply) :
  (forall f, I f -> I (after_events f [pidof_cmd adb_cmd app_id])) ->
  triple I (wait_for_pid adb_cmd app_id replies) (fun _ => I) (fun _ => I).
Proof.
  intros H. induction replies as [|[outcome|] replies IH]; cbn [wait_for_pid].
  - apply triple_ret. intros f Hf; exact Hf.
  - bind_same; [apply triple_emit; exact H|].
    destruct (get_app_pid outcome) as [found|]; [|exact IH].
    destruct (found =? 0)%Z; [exact IH|].
    apply triple_ret. intros f Hf; exact Hf.
  - apply triple_raise. intros f Hf; exact Hf.
Qed.

Lemma triple_wait_for_pid_guarded (I : Frame -> Prop) (adb_cmd app_id : str)
      (replies : list PidofReply) :
  (forall f, I f -> I (after_events f [pidof_cmd adb_cmd app_id])) ->
  triple I
    (except_KeyboardInterrupt (wait_for_pid adb_cmd app_id replies)
       (ret None))
    (fun _ => I) (fun _ => I).
Proof.
  intros H.
  apply triple_except_KeyboardInterrupt with (Xb := fun _ => I).
  - apply triple_wait_for_pid. exact H.
  - apply triple_ret. intros f Hf; exact Hf.
  - intros way f _ Hf. exact Hf.
Qed.
End InvariantFacts.

(** Steps through a block that keeps its precondition, leaving to [side]
    what each statement does to the frame. *)
Ltac carry side :=
  repeat match goal with
    | |- triple _ (bind get _) _ _ => apply triple_bind_get; intros ? ?
    | |- triple _ (bind _ _) _ _ => bind_same
    | |- triple _ (emit _) _ _ => apply triple_emit; solve [side]
    | |- triple _ (ret _) _ _ => apply triple_ret; solve [side]
    | |- triple _ (set_dev_proc _) _ _ =>
        apply triple_set_dev_proc; solve [side]
    | |- triple _ (set_logcat_proc _) _ _ =>
        apply triple_set_logcat_proc; solve [side]
    | |- triple _ (set_cap_proc _) _ _ =>
        apply triple_set_cap_proc; solve [side]
    | |- triple _ (set_app_pid_holder _) _ _ =>
        apply triple_set_app_pid_holder; solve [side]
    | |- triple _ (return_ _) _ _ => apply triple_return; solve [side]
    | |- triple _ (raise _) _ _ => apply triple_raise; solve [side]
    | |- triple _ running _ _ => apply triple_running; solve [side]
    | |- triple _ (wait_for_port _) _ _ =>
        apply triple_wait_for_port; solve [side]
    | |- triple _ (print_all _) _ _ => apply triple_print_all; solve [side]
    | |- triple _ (except_KeyboardInterrupt (wait_for_pid _ _ _) _) _ _ =>
        apply triple_wait_for_pid_guarded; solve [side]
    | |- triple _ (if ?b then _ else _) _ _ => destruct b eqn:?
    | |- triple _ (match ?x with _ => _ end) _ _ => destruct x eqn:?
    end.

(** *** Without the log stream *)

Lemma no_logcat_emit (e : Event) (f : Frame) :
  is_logcat_event e = false -> no_logcat f -> no_logcat (after_events f [e]).
Proof.
  intros He (Ht & Hl & Hd). split; [|split; assumption].
  cbn [after_events trace]. rewrite existsb_app, Ht. cbn. rewrite He. reflexivity.
Qed.

Ltac no_logcat_side :=
  first
    [ intros; assumption
    | intros; apply no_logcat_emit; [|assumption];
      repeat match goal with
        | |- context [if ?b then _ else _] => destruct b
        end;
      reflexivity
    | intros ? (? & ? & ?); repeat split; cbn; auto ].

Section NoLogcat.
Context {U : UnicodeData}.

Lemma no_logcat_teardown (w : World) (X : Way -> Frame -> Prop) :
  triple no_logcat (teardown w) (fun _ => no_logcat) X.
Proof.
  unfold teardown, skip. apply triple_bind_get. intros a (_ & Hl & Hd).
  rewrite Hl. destruct Hd as [-> | ->]; carry no_logcat_side.
Qed.

Lemma no_logcat_supervise (schedule : list Tick) :
  triple no_logcat (supervise schedule) (fun _ _ => False)
    (fun _ => no_logcat).
Proof.
  apply triple_supervise.
  - intros rc. unfold check_cap, skip, print. carry no_logcat_side.
  - intros rc. unfold check_dev, skip, print. carry no_logcat_side.
  - intros f Hf _. exact Hf.
  - intros f Hf _. exact Hf.
Qed.

Lemma no_logcat_session_body (w : World) (args : Args) chosen_port npx_cmd
      adb_cmd adb_available target app_id logcat_mode :
  args_logcat args = false ->
  triple no_logcat
    (session_body w args chosen_port npx_cmd adb_cmd adb_available target
       app_id logcat_mode)
    (fun _ _ => False) (fun _ => no_logcat).
Proof.
  intros Hlogcat.
  unfold session_body, start_cdp_console_stream, popen, print, skip.
  rewrite Hlogcat.
  bind_same; [solve [carry no_logcat_side]|].
  bind_same; [solve [carry no_logcat_side]|].
  bind_same; [solve [carry no_logcat_side]|].
  bind_same; [solve [carry no_logcat_side]|].
  bind_same; [solve [carry no_logcat_side]|].
  apply triple_bind with (Q := fun _ => no_logcat).
  { destruct (cap_popen_ok w); carry no_logcat_side. }
  intros _.
  bind_same; [solve [carry no_logcat_side]|].
  bind_same; [solve [carry no_logcat_side]|].
  bind_same; [solve [carry no_logcat_side]|].
  bind_same; [solve [carry no_logcat_side]|].
  bind_same; [solve [carry no_logcat_side]|].
  apply no_logcat_supervise.
Qed.
End NoLogcat.

Section NoLogcatRun.
Context {U : UnicodeData}.

Lemma no_logcat_run (w : World) (args : Args) :
  args_logcat args = false ->
  triple no_logcat (run w args) (fun _ => no_logcat) (fun _ => no_logcat).
Proof.
  intros Hlogcat. unfold run, popen, call, print, skip. cbv zeta.
  carry no_logcat_side.
  apply triple_try_finally
    with (Qb := fun _ _ => False) (Xb := fun _ => no_logcat).
  - apply no_logcat_session_body. exact Hlogcat.
  - intros ? f [].
  - intros code. apply no_logcat_teardown.
  - intros e. apply no_logcat_teardown.
  - intros f Hf. exact Hf.
Qed.

(** X13. With [--no-logcat] nothing is done for the log stream: no
    [adb logcat] and no [adb shell pidof] command is run, and no log
    stream process is started, pumped, terminated, waited for or
    killed. *)
Theorem run_without_logcat (w : World) (args : Args) :
  args_logcat args = false ->
  existsb is_logcat_event (fst (main w args)) = false.
Proof.
  intros Hlogcat.
  assert (Hinit : no_logcat initial).
  { split; [reflexivity | split; [reflexivity | left; reflexivity]]. }
  pose proof (no_logcat_run w args Hlogcat initial Hinit) as H. unfold main.
  destruct (run w args initial) as [f [[]|code|e|]]; exact (proj1 H).
Qed.
End NoLogcatRun.


(** *** One port for the dev server and the native app runner *)

Lemma one_port_emit (w : World) (args : Args) (e : Event) (f : Frame) :
  (forall proc argv, e = Popen proc argv -> proc <> Logcat ->
                     names_chosen_port w args proc argv) ->
  one_port w args f -> one_port w args (after_events f [e]).
Proof.
  intros He Hf proc argv Hin Hproc. cbn [after_events trace] in Hin.
  apply in_app_or in Hin as [Hin|[E|[]]].
  - exact (Hf proc argv Hin Hproc).
  - exact (He proc argv E Hproc).
Qed.

Ltac names_port :=
  match goal with
  | H : find_free_port _ _ _ _ = Returns ?port |- names_chosen_port _ _ _ _ =>
      exists port; split; [exact H|];
      split; [reflexivity|]; split; [reflexivity|];
      let E := fresh in
      let Hmode := fresh in
      intros E Hmode; first [discriminate E | rewrite Hmode; split; reflexivity]
  end.

Ltac one_port_side :=
  first
    [ intros; assumption
    | intros; apply one_port_emit; [|assumption];
      unfold pidof_cmd;
      let proc := fresh "proc" in
      let argv := fresh "argv" in
      let E := fresh "E" in
      let Hproc := fresh "Hproc" in
      intros proc argv E Hproc;
      first [ discriminate E
            | injection E as <- <-;
              first [ exfalso; apply Hproc; reflexivity | names_port ] ] ].

Section OnePort.
Context {U : UnicodeData}.
Variable w : World.
Variable args : Args.

Lemma one_port_teardown (X : Way -> Frame -> Prop) :
  triple (one_port w args) (teardown w) (fun _ => one_port w args) X.
Proof. unfold teardown, skip. carry one_port_side. Qed.

Lemma one_port_supervise (schedule : list Tick) :
  triple (one_port w args) (supervise schedule) (fun _ _ => False)
    (fun _ => one_port w args).
Proof.
  apply triple_supervise.
  - intros rc. unfold check_cap, skip, print. carry one_port_side.
  - intros rc. unfold check_dev, skip, print. carry one_port_side.
  - intros f Hf _. exact Hf.
  - intros f Hf _. exact Hf.
Qed.

Lemma one_port_session_body chosen_port npx_cmd adb_cmd adb_available target
      app_id logcat_mode :
  find_free_port (can_bind w) (lit "127.0.0.1") (args_port args) 20
  = Returns chosen_port ->
  triple (one_port w args)
    (session_body w args chosen_port npx_cmd adb_cmd adb_available target
       app_id logcat_mode)
    (fun _ _ => False) (fun _ => one_port w args).
Proof.
  intros Hport.
  unfold session_body, start_logcat, start_cdp_console_stream, popen, print,
    skip.
  bind_same; [solve [carry one_port_side]|].
  bind_same; [solve [carry one_port_side]|].
  bind_same; [solve [carry one_port_side]|].
  bind_same; [solve [carry one_port_side]|].
  bind_same; [solve [carry one_port_side]|].
  apply triple_bind with (Q := fun _ => one_port w args).
  { destruct (cap_popen_ok w); carry one_port_side. }
  intros _.
  bind_same; [solve [carry one_port_side]|].
  bind_same; [solve [carry one_port_side]|].
  bind_same; [solve [carry one_port_side]|].
  bind_same; [solve [carry one_port_side]|].
  bind_same; [solve [carry one_port_side]|].
  apply one_port_supervise.
Qed.

Lemma one_port_run :
  triple (one_port w args) (run w args) (fun _ => one_port w args)
    (fun _ => one_port w args).
Proof.
  unfold run.
  destruct (is_wifi (args_mode args) && negb (truthy (args_host args))).
  { unfold print. carry one_port_side. }
  destruct (find_free_port (can_bind w) (lit "127.0.0.1") (args_port args) 20)
    as [chosen_port|e] eqn:Hport; cbn [call].
  2: { apply triple_bind with (Q := fun _ _ => False); [|intros ? f []].
       apply triple_raise. intros f Hf; exact Hf. }
  apply triple_bind_ret. unfold popen, print, skip. cbv zeta.
  carry one_port_side.
  apply triple_try_finally
    with (Qb := fun _ _ => False) (Xb := fun _ => one_port w args).
  - apply one_port_session_body. exact Hport.
  - intros ? f [].
  - intros code. apply one_port_teardown.
  - intros e. apply one_port_teardown.
  - intros f Hf. exact Hf.
Qed.

(** X14. The dev server and the native app runner are given the same
    port, the one [find_free_port] returned: in every command line [run]
    starts for them [--port] is followed by that port, and in usb mode the
    runner is told to forward that port to itself. *)
Theorem run_uses_one_port (proc : Proc) (argv : list str) :
  In (Popen proc argv) (fst (main w args)) -> proc <> Logcat ->
  exists port,
    find_free_port (can_bind w) (lit "127.0.0.1") (args_port args) 20
    = Returns port
    /\ nth 7 argv [] = lit "--port"
    /\ nth 8 argv [] = str_of_Z port
    /\ (proc = Cap -> args_mode args = Usb ->
        nth 9 argv [] = lit "--forwardPorts"
        /\ nth 10 argv [] = str_of_Z port ++ lit ":" ++ str_of_Z port).
Proof.
  assert (Hinit : one_port w args initial) by (intros ? ? []).
  pose proof (one_port_run initial Hinit) as H. unfold main.
  destruct (run w args initial) as [f [[]|code|e|]]; exact (H proc argv).
Qed.
End OnePort.

(** *** Release of the dev server and of the log stream *)

Lemma teardown_effect (w : World) (f : Frame) :
  teardown w f
  = (after_events f (logcat_release w f ++ dev_release w f), Normal tt).
Proof.
  unfold teardown, logcat_release, dev_release, release, after_events, skip.
  destruct f as [t d l c h]. unfold bind, get, emit, ret. cbn.
  destruct l as [pl|], d as [pd|];
    destruct (logcat_alive_at_exit w), (logcat_wait_expires w),
      (dev_wait_expires w);
    cbn; rewrite <- ?app_assoc, ?app_nil_r; reflexivity.
Qed.

Lemma unspawned_released (w : World) (f : Frame) :
  unspawned f -> released w (trace f).
Proof.
  intros (Hd & Hl & _). split; intros H; rewrite H in *; discriminate.
Qed.

Lemma held_released (w : World) (f : Frame) :
  held f -> released w (trace (fst (teardown w f))).
Proof.
  intros [Hdev Hlogcat]. rewrite teardown_effect. cbn [fst after_events trace].
  unfold logcat_release, dev_release. split.
  - intros _. destruct Hdev as [-> | [-> (code & Hin)]].
    + right. eexists. rewrite app_assoc. reflexivity.
    + left. exists code. apply in_or_app. left. exact Hin.
  - intros Hspawned Halive.
    destruct Hlogcat as [[Hs Hl] | Hl]; rewrite Hl in *.
    + exfalso. cbn [app] in Hspawned. rewrite existsb_app, Hs in Hspawned.
      destruct (dev_proc f) as [p|]; unfold release in Hspawned;
        [destruct (dev_wait_expires w)|]; cbn in Hspawned;
        discriminate Hspawned.
    + rewrite Halive. exists (trace f).
      destruct Hdev as [-> | [-> _]].
      * eexists. split; [reflexivity | right; reflexivity].
      * exists []. split; [reflexivity | left; reflexivity].
Qed.

Lemma dev_held_emit (e : Event) (f : Frame) :
  dev_held f -> dev_held (after_events f [e]).
Proof.
  intros [Hd | [Hd (code & Hin)]]; [left; exact Hd|].
  right. split; [exact Hd|]. exists code.
  cbn [after_events trace]. apply in_or_app. left. exact Hin.
Qed.

Lemma held_emit (e : Event) (f : Frame) :
  spawns Logcat e = false -> held f -> held (after_events f [e]).
Proof.
  intros He [Hdev Hlogcat]. split; [exact (dev_held_emit e f Hdev)|].
  - destruct Hlogcat as [[Hs Hl] | Hl]; [left | right; exact Hl].
    split; [|exact Hl]. cbn [after_events trace].
    rewrite existsb_app, Hs. cbn. rewrite He. reflexivity.
Qed.

Lemma held_before_logcat_emit (e : Event) (f : Frame) :
  spawns Logcat e = false ->
  held_before_logcat f -> held_before_logcat (after_events f [e]).
Proof.
  intros He [Hdev Hlogcat].
  destruct (held_emit e f He (conj Hdev (or_introl Hlogcat))) as [Hdev' _].
  split; [exact Hdev'|]. destruct Hlogcat as [Hs Hl].
  split; [|exact Hl]. cbn [after_events trace].
  rewrite existsb_app, Hs. cbn. rewrite He. reflexivity.
Qed.

Lemma unspawned_emit (e : Event) (f : Frame) :
  spawns Dev e = false -> spawns Logcat e = false ->
  unspawned f -> unspawned (after_events f [e]).
Proof.
  intros Hed Hel (Hd & Hl & Hdp & Hlp).
  unfold unspawned, after_events. cbn [trace dev_proc logcat_proc].
  rewrite !existsb_app, Hd, Hl. cbn. rewrite Hed, Hel. auto.
Qed.

Ltac held_side :=
  first
    [ intros; assumption
    | intros; apply held_emit; [reflexivity | assumption] ].

Ltac held_before_logcat_side :=
  first
    [ intros; assumption
    | intros; apply held_before_logcat_emit; [reflexivity | assumption] ].

Ltac unspawned_side w :=
  first
    [ intros; assumption
    | intros; apply unspawned_emit; [reflexivity | reflexivity | assumption]
    | intros ? ? ?; apply (unspawned_released w); assumption ].

Section Release.
Context {U : UnicodeData}.
Variable w : World.

Lemma held_check_dev (returncode : option Z) (X : Way -> Frame -> Prop) :
  triple held (check_dev returncode) (fun _ => held) X.
Proof.
  unfold check_dev, skip, print. apply triple_bind_get. intros a _.
  destruct (dev_proc a) as [p|], returncode as [code|];
    try (apply triple_ret; intros f Hf; exact Hf).
  apply triple_bind
    with (Q := fun _ f => held f
                          /\ In (Print (dev_exit_line code)) (trace f)).
  - apply triple_emit. intros f Hf.
    split; [apply held_emit; [reflexivity | exact Hf]|].
    cbn [after_events trace]. apply in_or_app. right. left. reflexivity.
  - intros _. apply triple_set_dev_proc. intros f [[_ Hlogcat] Hin].
    split; [|exact Hlogcat]. right. split; [reflexivity|].
    exists code. exact Hin.
Qed.

Lemma held_supervise (schedule : list Tick) :
  triple held (supervise schedule) (fun _ _ => False) (fun _ => held).
Proof.
  apply triple_supervise.
  - intros rc. unfold check_cap, skip, print. carry held_side.
  - intros rc. apply held_check_dev.
  - intros f Hf _. exact Hf.
  - intros f Hf _. exact Hf.
Qed.

Lemma held_start_logcat (adb_cmd : str) (target tags : option str)
      (all_logs : bool) :
  triple held_before_logcat (start_logcat w adb_cmd target tags all_logs)
    (fun proc f => dev_held f
                   /\ (proc = None /\ logcat_unspawned f
                       \/ proc = Some Logcat))
    (fun _ => held).
Proof.
  unfold start_logcat, print.
  destruct (negb (which w adb_cmd)).
  { bind_same; [carry held_before_logcat_side|].
    apply triple_ret. intros f [Hd Hl].
    split; [exact Hd | left; split; [reflexivity | exact Hl]]. }
  destruct (logcat_popen_ok w).
  - apply triple_bind with (Q := fun _ f => dev_held f).
    + apply triple_emit. intros f [Hd Hl]. exact (dev_held_emit _ f Hd).
    + intros _. apply triple_ret. intros f Hd.
      split; [exact Hd | right; reflexivity].
  - bind_same; [carry held_before_logcat_side|].
    apply triple_ret. intros f [Hd Hl].
    split; [exact Hd | left; split; [reflexivity | exact Hl]].
Qed.

Lemma held_session_body (args : Args) chosen_port npx_cmd adb_cmd
      adb_available target app_id logcat_mode :
  triple held_before_logcat
    (session_body w args chosen_port npx_cmd adb_cmd adb_available target
       app_id logcat_mode)
    (fun _ _ => False) (fun _ => held).
Proof.
  assert (Hweak : forall f, held_before_logcat f -> held f).
  { intros f [Hd Hl]. split; [exact Hd | left; exact Hl]. }
  unfold session_body, start_cdp_console_stream, popen, print, skip.
  apply triple_bind with (Q := fun _ => held_before_logcat).
  { apply triple_emit. held_before_logcat_side. }
  intros _.
  apply triple_bind with (Q := fun _ => held_before_logcat).
  { apply triple_wait_for_port. intros f Hf _. exact (Hweak f Hf). }
  intros ready.
  apply triple_bind with (Q := fun _ => held_before_logcat).
  { destruct (negb ready).
    - apply triple_emit. held_before_logcat_side.
    - apply triple_ret. held_before_logcat_side. }
  intros _.
  apply triple_bind with (Q := fun _ => held).
  { destruct (args_logcat args).
    2: { apply triple_ret. exact Hweak. }
    apply triple_bind with (Q := fun _ => held_before_logcat).
    { destruct (is_app logcat_mode && negb (truthy app_id)).
      - apply triple_bind with (Q := fun _ => held_before_logcat).
        + apply triple_emit. held_before_logcat_side.
        + intros _. apply triple_ret. held_before_logcat_side.
      - apply triple_ret. held_before_logcat_side. }
    intros mode.
    apply triple_bind with (Q := fun _ => held_before_logcat).
    { apply triple_set_app_pid_holder. intros f Hf; exact Hf. }
    intros _.
    apply triple_bind with (Q := fun _ => held_before_logcat).
    { apply triple_emit. held_before_logcat_side. }
    intros _.
    apply triple_bind with (Q := fun _ => held_before_logcat).
    { apply triple_emit. held_before_logcat_side. }
    intros _.
    eapply triple_bind; [apply held_start_logcat|].
    intros proc.
    apply triple_bind with (Q := fun _ => held).
    { apply triple_set_logcat_proc.
      intros f [Hd [[-> [Hs Hl]] | ->]]; (split; [exact Hd|]).
      - left. split; [exact Hs | reflexivity].
      - right. reflexivity. }
    intros _. carry held_side. }
  intros mode.
  bind_same; [solve [carry held_side]|].
  apply triple_bind with (Q := fun _ => held).
  { destruct (cap_popen_ok w); carry held_side. }
  intros _.
  bind_same; [solve [carry held_side]|].
  bind_same; [solve [carry held_side]|].
  bind_same; [solve [carry held_side]|].
  bind_same; [solve [carry held_side]|].
  bind_same; [solve [carry held_side]|].
  apply held_supervise.
Qed.

Lemma released_run (args : Args) :
  triple unspawned (run w args) (fun _ _ => False)
    (fun way f => way <> StillRunning -> released w (trace f)).
Proof.
  unfold run.
  destruct (is_wifi (args_mode args) && negb (truthy (args_host args))).
  { unfold print. carry ltac:(unspawned_side w). }
  unfold call, print, skip. cbv zeta.
  apply triple_bind with (Q := fun _ => unspawned).
  { carry ltac:(unspawned_side w). }
  intros chosen_port.
  bind_same; [solve [carry ltac:(unspawned_side w)]|].
  destruct (negb (which w (resolve_cmd w (lit "npm")))).
  { carry ltac:(unspawned_side w). }
  destruct (negb (which w (resolve_cmd w (lit "npx")))).
  { carry ltac:(unspawned_side w). }
  bind_same; [solve [carry ltac:(unspawned_side w)]|].
  bind_same; [solve [carry ltac:(unspawned_side w)]|].
  bind_same; [solve [carry ltac:(unspawned_side w)]|].
  apply triple_bind with (Q := fun _ => logcat_unspawned).
  { unfold popen. destruct (dev_popen_ok w).
    - apply triple_emit. intros f (_ & Hl & _ & Hlp).
      split; [|exact Hlp]. cbn [after_events trace].
      rewrite existsb_app, Hl. reflexivity.
    - apply triple_raise. unspawned_side w. }
  intros _.
  apply triple_bind with (Q := fun _ => held_before_logcat).
  { apply triple_set_dev_proc. intros f Hf.
    split; [left; reflexivity | exact Hf]. }
  intros _.
  apply triple_bind with (Q := fun _ => held_before_logcat).
  { apply triple_emit. held_before_logcat_side. }
  intros _.
  apply triple_bind with (Q := fun _ => held_before_logcat).
  { apply triple_set_logcat_proc. intros f [Hd [Hs _]].
    split; [exact Hd | split; [exact Hs | reflexivity]]. }
  intros _.
  apply triple_bind with (Q := fun _ => held_before_logcat).
  { apply triple_set_app_pid_holder. intros f Hf; exact Hf. }
  intros _.
  apply triple_try_finally
    with (Qb := fun _ _ => False) (Xb := fun _ => held).
  - apply held_session_body.
  - intros ? f [].
  - intros code f Hf. pose proof (held_released w f Hf) as H.
    rewrite teardown_effect in *. intros _. exact H.
  - intros e f Hf. pose proof (held_released w f Hf) as H.
    rewrite teardown_effect in *. intros _. exact H.
  - intros f _ H. contradiction H. reflexivity.
Qed.

(** X15. When [run] returns after the dev server was started, the dev
    server is released or had exited: either the supervisory loop has
    printed its exit, or the last thing [run] did was to terminate it, to
    wait 10 seconds for it and, when the wait expired, to kill it.  When a
    log stream was started and is still alive it is released the same way,
    with a wait of 5 seconds, right before the dev server.  A [run] that
    is left by an exception is not covered: the [finally] block runs then
    too, but only as far as a further signal lets it. *)
Theorem run_releases_on_exit (args : Args) (code : Z) :
  snd (main w args) = ExitCode code ->
  let t := fst (main w args) in
  (existsb (spawns Dev) t = true ->
   (exists code, In (Print (dev_exit_line code)) t)
   \/ exists before, t = before ++ release Dev 10 (dev_wait_expires w))
  /\ (existsb (spawns Logcat) t = true ->
      logcat_alive_at_exit w = true ->
      exists before after,
        t = before ++ release Logcat 5 (logcat_wait_expires w) ++ after
        /\ (after = [] \/ after = release Dev 10 (dev_wait_expires w))).
Proof.
  assert (Hinit : unspawned initial) by (repeat split).
  pose proof (released_run args initial Hinit) as H. unfold main.
  destruct (run w args initial) as [f [[]|code'|e|]]; cbn [fst snd]; intros Hend.
  - contradiction.
  - apply H. discriminate.
  - discriminate Hend.
  - discriminate Hend.
Qed.
End Release.

(** *** The DevTools capture is opt-in *)

Lemma devtools_opt_in_emit (w : World) (args : Args) (e : Event) (f : Frame) :
  is_devtools_event e = false \/ devtools_allowed w args e ->
  devtools_opt_in w args f -> devtools_opt_in w args (after_events f [e]).
Proof.
  intros He Hf e' Hin Hdev. cbn [after_events trace] in Hin.
  apply in_app_or in Hin as [Hin|[<-|[]]].
  - exact (Hf e' Hin Hdev).
  - destruct He as [He|He]; [congruence | exact He].
Qed.

Ltac devtools_facts :=
  repeat match goal with
    | H : _ && _ = true |- _ => apply andb_prop in H; destruct H
    | H : negb _ = false |- _ => apply negb_false_iff in H
    end;
  split; [congruence|]; split; [congruence|];
  intros ?; first [discriminate | split; [assumption | eexists; eassumption]].

Ltac devtools_side :=
  first
    [ intros; assumption
    | intros; apply devtools_opt_in_emit; [|assumption];
      unfold pidof_cmd;
      repeat match goal with
        | |- context [if ?b then _ else _] => destruct b
        end;
      first [left; reflexivity | right; devtools_facts] ].

Section DevToolsOptIn.
Context {U : UnicodeData}.
Variable w : World.
Variable args : Args.

Lemma devtools_opt_in_teardown (X : Way -> Frame -> Prop) :
  triple (devtools_opt_in w args) (teardown w)
    (fun _ => devtools_opt_in w args) X.
Proof. unfold teardown, skip. carry devtools_side. Qed.

Lemma devtools_opt_in_supervise (schedule : list Tick) :
  triple (devtools_opt_in w args) (supervise schedule) (fun _ _ => False)
    (fun _ => devtools_opt_in w args).
Proof.
  apply triple_supervise.
  - intros rc. unfold check_cap, skip, print. carry devtools_side.
  - intros rc. unfold check_dev, skip, print. carry devtools_side.
  - intros f Hf _. exact Hf.
  - intros f Hf _. exact Hf.
Qed.

Lemma devtools_opt_in_session_body chosen_port npx_cmd adb_cmd target app_id
      logcat_mode :
  triple (devtools_opt_in w args)
    (session_body w args chosen_port npx_cmd adb_cmd
       (which w (resolve_cmd w (lit "adb"))) target app_id logcat_mode)
    (fun _ _ => False) (fun _ => devtools_opt_in w args).
Proof.
  unfold session_body, start_logcat, start_cdp_console_stream, popen, print,
    skip.
  bind_same; [solve [carry devtools_side]|].
  bind_same; [solve [carry devtools_side]|].
  bind_same; [solve [carry devtools_side]|].
  bind_same; [solve [carry devtools_side]|].
  bind_same; [solve [carry devtools_side]|].
  apply triple_bind with (Q := fun _ => devtools_opt_in w args).
  { destruct (cap_popen_ok w); carry devtools_side. }
  intros _.
  bind_same; [solve [carry devtools_side]|].
  bind_same; [solve [carry devtools_side]|].
  bind_same; [solve [carry devtools_side]|].
  bind_same; [solve [carry devtools_side]|].
  bind_same; [solve [carry devtools_side]|].
  apply devtools_opt_in_supervise.
Qed.

Lemma devtools_opt_in_run :
  triple (devtools_opt_in w args) (run w args)
    (fun _ => devtools_opt_in w args) (fun _ => devtools_opt_in w args).
Proof.
  unfold run, popen, call, print, skip. cbv zeta.
  carry devtools_side.
  apply triple_try_finally
    with (Qb := fun _ _ => False) (Xb := fun _ => devtools_opt_in w args).
  - apply devtools_opt_in_session_body.
  - intros ? f [].
  - intros code. apply devtools_opt_in_teardown.
  - intros e. apply devtools_opt_in_teardown.
  - intros f Hf. exact Hf.
Qed.

(** X16. The DevTools capture is opt-in: without [--devtools], or
    without [adb] on PATH, no [adb forward] command is run and the worker
    is not started; and the worker is started only if the web-socket
    module is installed and the [adb forward] of
    [start_cdp_console_stream] completed. *)
Theorem run_devtools_opt_in :
  (args_devtools args = false
   \/ which w (resolve_cmd w (lit "adb")) = false ->
   existsb is_devtools_event (fst (main w args)) = false)
  /\ (In StartCdpPump (fst (main w args)) ->
      args_devtools args = true
      /\ which w (resolve_cmd w (lit "adb")) = true
      /\ has_websocket w = true
      /\ exists stdout, cdp_forward w = Completed stdout).
Proof.
  assert (Hinit : devtools_opt_in w args initial) by (intros ? []).
  pose proof (devtools_opt_in_run initial Hinit) as H.
  assert (Ht : devtools_opt_in w args (fst (run w args initial))).
  { destruct (run w args initial) as [f [[]|code|e|]]; exact H. }
  assert (Et : fst (main w args) = trace (fst (run w args initial))).
  { unfold main. destruct (run w args initial) as [f [[]|code|e|]];
      reflexivity. }
  rewrite Et. clear H Et. split.
  - intros Hoff.
    destruct (existsb is_devtools_event (trace (fst (run w args initial))))
      eqn:E; [|reflexivity].
    apply existsb_exists in E as (e & Hin & He).
    destruct (Ht e Hin He) as (Hd & Ha & _).
    destruct Hoff; congruence.
  - intros Hin. destruct (Ht StartCdpPump Hin eq_refl) as (Hd & Ha & Hs).
    destruct (Hs eq_refl) as [Hw Hf].
    split; [exact Hd | split; [exact Ha | split; [exact Hw | exact Hf]]].
Qed.
End DevToolsOptIn.

(** *** The prefix and the filter of each stream *)

Lemma streams_as_asked_emit (args : Args) (app_id : option str) (e : Event)
      (f : Frame) :
  (forall proc prefix line_filter,
      e = StreamOutput proc prefix line_filter ->
      (prefix, line_filter) = stream_of args app_id proc
      /\ (proc = Logcat -> args_logcat args = true)) ->
  streams_as_asked args app_id f ->
  streams_as_asked args app_id (after_events f [e]).
Proof.
  intros He Hf proc prefix line_filter Hin. cbn [after_events trace] in Hin.
  apply in_app_or in Hin as [Hin|[E|[]]].
  - exact (Hf proc prefix line_filter Hin).
  - exact (He proc prefix line_filter E).
Qed.

Ltac streams_side :=
  first
    [ intros; assumption
    | intros; apply streams_as_asked_emit; [|assumption];
      unfold pidof_cmd;
      let E := fresh "E" in
      intros ? ? ? E;
      first [ discriminate E
            | injection E as <- <- <-;
              split; [reflexivity | intros E'; discriminate E'] ] ].

Section Streams.
Context {U : UnicodeData}.
Variable w : World.
Variable args : Args.
Variable app_id : option str.

Lemma streams_teardown (X : Way -> Frame -> Prop) :
  triple (streams_as_asked args app_id) (teardown w)
    (fun _ => streams_as_asked args app_id) X.
Proof. unfold teardown, skip. carry streams_side. Qed.

Lemma streams_supervise (schedule : list Tick) :
  triple (streams_as_asked args app_id) (supervise schedule)
    (fun _ _ => False) (fun _ => streams_as_asked args app_id).
Proof.
  apply triple_supervise.
  - intros rc. unfold check_cap, skip, print. carry streams_side.
  - intros rc. unfold check_dev, skip, print. carry streams_side.
  - intros f Hf _. exact Hf.
  - intros f Hf _. exact Hf.
Qed.

Lemma streams_start_logcat (adb_cmd : str) (target tags : option str)
      (all_logs : bool) :
  triple (streams_as_asked args app_id)
    (start_logcat w adb_cmd target tags all_logs)
    (fun proc f => (proc = None \/ proc = Some Logcat)
                   /\ streams_as_asked args app_id f)
    (fun _ => streams_as_asked args app_id).
Proof.
  unfold start_logcat, print.
  destruct (negb (which w adb_cmd)).
  { bind_same; [carry streams_side|].
    apply triple_ret. intros f Hf. split; [left; reflexivity | exact Hf]. }
  destruct (logcat_popen_ok w).
  - bind_same; [carry streams_side|].
    apply triple_ret. intros f Hf. split; [right; reflexivity | exact Hf].
  - bind_same; [carry streams_side|].
    apply triple_ret. intros f Hf. split; [left; reflexivity | exact Hf].
Qed.

Lemma streams_session_body chosen_port npx_cmd adb_cmd adb_available target :
  triple (streams_as_asked args app_id)
    (session_body w args chosen_port npx_cmd adb_cmd adb_available target
       app_id
       (if args_logcat_all args then AllMode else args_logcat_mode args))
    (fun _ _ => False) (fun _ => streams_as_asked args app_id).
Proof.
  unfold session_body, start_cdp_console_stream, popen, print, skip.
  bind_same; [solve [carry streams_side]|].
  bind_same; [solve [carry streams_side]|].
  bind_same; [solve [carry streams_side]|].
  bind_same.
  { destruct (args_logcat args) eqn:Hlogcat; [|carry streams_side].
    apply triple_bind
      with (Q := fun mode f =>
                   mode = (if is_app (if args_logcat_all args then AllMode
                                      else args_logcat_mode args)
                              && negb (truthy app_id)
                           then AllMode
                           else if args_logcat_all args then AllMode
                                else args_logcat_mode args)
                   /\ streams_as_asked args app_id f).
    { destruct (is_app (if args_logcat_all args then AllMode
                        else args_logcat_mode args)
                && negb (truthy app_id)).
      - apply triple_bind with (Q := fun _ => streams_as_asked args app_id).
        + apply triple_emit. streams_side.
        + intros _. apply triple_ret. intros f Hf. split; [reflexivity | exact Hf].
      - apply triple_ret. intros f Hf. split; [reflexivity | exact Hf]. }
    intros mode. apply triple_pure. intros Hmode.
    bind_same; [solve [carry streams_side]|].
    bind_same; [solve [carry streams_side]|].
    bind_same; [solve [carry streams_side]|].
    eapply triple_bind; [apply streams_start_logcat|].
    intros proc. apply triple_pure. intros Hproc.
    bind_same; [solve [carry streams_side]|].
    bind_same; [|carry streams_side].
    destruct Hproc as [-> | ->]; [carry streams_side|].
    apply triple_emit. intros f Hf.
    apply streams_as_asked_emit; [|exact Hf].
    intros proc prefix line_filter E. injection E as <- <- <-.
    split; [|intros _; exact Hlogcat].
    cbn [stream_of]. f_equal. rewrite Hmode.
    destruct (args_logcat_all args), (args_logcat_mode args),
      (truthy app_id); reflexivity. }
  bind_same; [solve [carry streams_side]|].
  apply triple_bind with (Q := fun _ => streams_as_asked args app_id).
  { destruct (cap_popen_ok w); carry streams_side. }
  intros _.
  bind_same; [solve [carry streams_side]|].
  bind_same; [solve [carry streams_side]|].
  bind_same; [solve [carry streams_side]|].
  bind_same; [solve [carry streams_side]|].
  bind_same; [solve [carry streams_side]|].
  apply streams_supervise.
Qed.
End Streams.

Section StreamsRun.
Context {U : UnicodeData}.
Variable w : World.
Variable args : Args.

Lemma streams_run :
  let app_id :=
    or_else (args_app_id args) (read_app_id (capacitor_config w)) in
  triple (streams_as_asked args app_id) (run w args)
    (fun _ => streams_as_asked args app_id)
    (fun _ => streams_as_asked args app_id).
Proof.
  intros app_id. unfold run, popen, call, print, skip. cbv zeta.
  carry streams_side.
  apply triple_try_finally
    with (Qb := fun _ _ => False)
         (Xb := fun _ => streams_as_asked args app_id).
  - apply streams_session_body.
  - intros ? f [].
  - intros code. apply streams_teardown.
  - intros e. apply streams_teardown.
  - intros f Hf. exact Hf.
Qed.

(** X17. Each stream gets the prefix and the filter the command line
    asks for.  The dev server and the native app runner are printed
    unfiltered; the log stream is pumped only when logcat is enabled, and
    [--logcat-all] or the mode [all] give no filter, the mode [app] the
    PID filter when an app id is known and no filter otherwise, the mode
    [console] the console filter. *)
Theorem run_streams_as_asked (proc : Proc) (prefix : str)
        (line_filter : LineFilter) :
  In (StreamOutput proc prefix line_filter) (fst (main w args)) ->
  let app_id :=
    or_else (args_app_id args) (read_app_id (capacitor_config w)) in
  match proc with
  | Dev => prefix = lit "[dev] " /\ line_filter = NoFilter
  | Cap => prefix = lit "[cap] " /\ line_filter = NoFilter
  | Logcat =>
      prefix = lit "[logcat] "
      /\ args_logcat args = true
      /\ line_filter
         = if args_logcat_all args then NoFilter
           else match args_logcat_mode args with
                | AllMode => NoFilter
                | AppMode => if truthy app_id then AppFilter else NoFilter
                | ConsoleMode => ConsoleFilter
                end
  end.
Proof.
  intros Hin app_id.
  assert (Hinit : streams_as_asked args app_id initial) by (intros ? ? ? []).
  pose proof (streams_run initial Hinit) as H. fold app_id in H.
  assert (Ht : streams_as_asked args app_id (fst (run w args initial))).
  { destruct (run w args initial) as [f [[]|code|e|]]; exact H. }
  assert (Et : fst (main w args) = trace (fst (run w args initial))).
  { unfold main. destruct (run w args initial) as [f [[]|code|e|]];
      reflexivity. }
  rewrite Et in Hin. destruct (Ht proc prefix line_filter Hin) as [E Hl].
  destruct proc; cbn [stream_of] in E; injection E as -> ->.
  - split; reflexivity.
  - split; [reflexivity | split; [exact (Hl eq_refl) | reflexivity]].
  - split; reflexivity.
Qed.
End StreamsRun.

(** *** The exit of a child is reported once *)

Lemma check_cap_effect (returncode : option Z) (f : Frame) :
  check_cap returncode f
  = (match cap_proc f, returncode with
     | Some _, Some code => cap_exit_logged f code
     | _, _ => f
     end, Normal tt).
Proof.
  unfold check_cap, bind, get.
  destruct (cap_proc f) eqn:E, returncode; try reflexivity.
Qed.

Lemma check_dev_effect (returncode : option Z) (f : Frame) :
  check_dev returncode f
  = (match dev_proc f, returncode with
     | Some _, Some code => dev_exit_logged f code
     | _, _ => f
     end, Normal tt).
Proof.
  unfold check_dev, bind, get.
  destruct (dev_proc f) eqn:E, returncode; try reflexivity.
Qed.

Lemma unreported_emit (e : Event) (f : Frame) :
  is_dev_exit e = false -> is_cap_exit e = false ->
  unreported f -> unreported (after_events f [e]).
Proof.
  intros Hd Hc [Hfd Hfc]. unfold unreported. cbn [after_events trace].
  rewrite !filter_app, Hfd, Hfc. cbn [filter app]. rewrite Hd, Hc.
  split; reflexivity.
Qed.

Lemma reported_once_emit (e : Event) (f : Frame) :
  is_dev_exit e = false -> is_cap_exit e = false ->
  reported_once f -> reported_once (after_events f [e]).
Proof.
  intros Hd Hc [Hfd Hfc]. unfold reported_once.
  cbn [after_events trace dev_proc cap_proc].
  rewrite !filter_app. cbn [filter]. rewrite Hd, Hc, !app_nil_r.
  split; assumption.
Qed.

Lemma unreported_once (f : Frame) : unreported f -> reported_once f.
Proof. intros [Hd Hc]. split; left; assumption. Qed.

Ltac unreported_side :=
  first
    [ intros; assumption
    | intros; apply unreported_emit; [| |assumption];
      repeat match goal with
        | |- context [if ?b then _ else _] => destruct b
        end;
      reflexivity
    | intros; apply unreported_once; assumption ].

Ltac reported_once_side :=
  first
    [ intros; assumption
    | intros; apply reported_once_emit; [reflexivity | reflexivity | assumption] ].

Section ReportedOnce.
Context {U : UnicodeData}.
Variable w : World.

Lemma reported_once_check_cap (returncode : option Z)
      (X : Way -> Frame -> Prop) :
  triple reported_once (check_cap returncode) (fun _ => reported_once) X.
Proof.
  intros f Hf. rewrite check_cap_effect.
  destruct (cap_proc f) as [p|] eqn:Hp, returncode as [code|]; try exact Hf.
  destruct Hf as [Hd [Hc | [Hc _]]]; [|congruence].
  unfold reported_once, cap_exit_logged. cbn [trace dev_proc cap_proc].
  rewrite !filter_app, Hc. cbn [filter app is_dev_exit is_cap_exit].
  replace (startswith (lit "[dev] process exited")
             (lit "[cap] process exited with code " ++ str_of_Z code
              ++ lit "; keeping wrapper alive."))
    with false by reflexivity.
  replace (startswith (lit "[cap] process exited")
             (lit "[cap] process exited with code " ++ str_of_Z code
              ++ lit "; keeping wrapper alive."))
    with true by reflexivity.
  rewrite app_nil_r. split; [exact Hd | right; split; reflexivity].
Qed.

Lemma reported_once_check_dev (returncode : option Z)
      (X : Way -> Frame -> Prop) :
  triple reported_once (check_dev returncode) (fun _ => reported_once) X.
Proof.
  intros f Hf. rewrite check_dev_effect.
  destruct (dev_proc f) as [p|] eqn:Hp, returncode as [code|]; try exact Hf.
  destruct Hf as [[Hd | [Hd _]] Hc]; [|congruence].
  unfold reported_once, dev_exit_logged. cbn [trace dev_proc cap_proc].
  rewrite !filter_app, Hd. cbn [filter app is_dev_exit is_cap_exit].
  replace (startswith (lit "[cap] process exited")
             (lit "[dev] process exited with code " ++ str_of_Z code
              ++ lit "; keeping wrapper alive."))
    with false by reflexivity.
  replace (startswith (lit "[dev] process exited")
             (lit "[dev] process exited with code " ++ str_of_Z code
              ++ lit "; keeping wrapper alive."))
    with true by reflexivity.
  rewrite app_nil_r. split; [right; split; reflexivity | exact Hc].
Qed.

Lemma reported_once_supervise (schedule : list Tick) :
  triple reported_once (supervise schedule) (fun _ _ => False)
    (fun _ => reported_once).
Proof.
  apply triple_supervise.
  - intros rc. apply reported_once_check_cap.
  - intros rc. apply reported_once_check_dev.
  - intros f Hf _. exact Hf.
  - intros f Hf _. exact Hf.
Qed.

Lemma reported_once_teardown (X : Way -> Frame -> Prop) :
  triple reported_once (teardown w) (fun _ => reported_once) X.
Proof. unfold teardown, skip. carry reported_once_side. Qed.

Lemma reported_once_session_body (args : Args) chosen_port npx_cmd adb_cmd
      adb_available target app_id logcat_mode :
  triple unreported
    (session_body w args chosen_port npx_cmd adb_cmd adb_available target
       app_id logcat_mode)
    (fun _ _ => False) (fun _ => reported_once).
Proof.
  unfold session_body, start_logcat, start_cdp_console_stream, popen, print,
    skip.
  bind_same; [solve [carry unreported_side]|].
  bind_same; [solve [carry unreported_side]|].
  bind_same; [solve [carry unreported_side]|].
  bind_same; [solve [carry unreported_side]|].
  bind_same; [solve [carry unreported_side]|].
  apply triple_bind with (Q := fun _ => unreported).
  { destruct (cap_popen_ok w); carry unreported_side. }
  intros _.
  bind_same; [solve [carry unreported_side]|].
  bind_same; [solve [carry unreported_side]|].
  bind_same.
  { destruct (args_logcat args); [|carry unreported_side].
    apply triple_bind_get. intros frame _.
    match goal with
    | |- triple _ (if ?b then _ else _) _ _ => destruct b
    end; [|carry unreported_side].
    bind_same; [solve [carry unreported_side]|].
    apply triple_bind with (Q := fun _ => unreported).
    { apply triple_except_KeyboardInterrupt with (Xb := fun _ => unreported).
      - apply triple_post with (Q := fun _ => unreported); [intros; assumption|].
        eapply triple_pre; [|apply (triple_wait_for_pid unreported)].
        + intros f Hf; exact Hf.
        + unreported_side.
      - apply triple_ret. intros f Hf; exact Hf.
      - intros way f _ Hf. apply unreported_once. exact Hf. }
    intros found. carry unreported_side. }
  bind_same; [solve [carry unreported_side]|].
  bind_same; [solve [carry unreported_side]|].
  eapply triple_pre; [|apply reported_once_supervise].
  exact unreported_once.
Qed.

Lemma reported_once_run (args : Args) :
  triple unreported (run w args) (fun _ _ => False) (fun _ => reported_once).
Proof.
  unfold run, choose_target, list_adb_devices, popen, call, print, skip.
  cbv zeta.
  destruct (adb_devices w); cbn [print_all]; unfold print, skip;
    carry unreported_side;
    (apply triple_try_finally
       with (Qb := fun _ _ => False) (Xb := fun _ => reported_once);
     [ apply reported_once_session_body
     | intros ? f []
     | intros code; apply reported_once_teardown
     | intros e; apply reported_once_teardown
     | intros f Hf; exact Hf ]).
Qed.

(** X18. The exit of a child is reported once: whatever the children and
    the user do, the trace of the program holds at most one line
    [[dev] process exited ...] and at most one line
    [[cap] process exited ...]. *)
Theorem run_reports_exit_once (args : Args) :
  (List.length (filter is_dev_exit (fst (main w args))) <= 1)%nat
  /\ (List.length (filter is_cap_exit (fst (main w args))) <= 1)%nat.
Proof.
  assert (Hinit : unreported initial) by (split; reflexivity).
  pose proof (reported_once_run args initial Hinit) as H.
  assert (Ht : reported_once (fst (run w args initial))).
  { destruct (run w args initial) as [f [[]|code|e|]];
      [contradiction | exact H | exact H | exact H]. }
  assert (Et : fst (main w args) = trace (fst (run w args initial))).
  { unfold main. destruct (run w args initial) as [f [[]|code|e|]];
      reflexivity. }
  rewrite Et. destruct Ht as [[-> | [_ ->]] [-> | [_ ->]]]; cbn; lia.
Qed.
End ReportedOnce.

(** *** One device for the log stream, the app runner and the bridge *)

Lemma one_device_emit (w : World) (args : Args) (target : option str)
      (e : Event) (f : Frame) :
  names_target w args target e ->
  one_device w args target f -> one_device w args target (after_events f [e]).
Proof.
  intros He Hf e' Hin. cbn [after_events trace] in Hin.
  apply in_app_or in Hin as [Hin|[<-|[]]].
  - exact (Hf e' Hin).
  - exact He.
Qed.

Ltac names_device :=
  cbn [names_target]; unfold pidof_cmd;
  repeat match goal with
    | |- context [if truthy ?t then _ else _] =>
        let E := fresh "E" in destruct (truthy t) eqn:E
    | |- context [if is_wifi ?m then _ else _] => destruct (is_wifi m)
    | |- context [if ?b then _ else _] => destruct b
    end;
  first
    [ exact Logic.I
    | let H := fresh in
      intros H; first [discriminate H | split; reflexivity]
    | eexists; reflexivity
    | eexists; split; [|rewrite ?app_nil_r; cbn [app]; reflexivity]; reflexivity
    | match goal with
      | |- exists front, _ /\ ?l = _ =>
          exists (firstn 11 l); split; reflexivity
      | |- exists front, _ /\ ?l = _ =>
          exists (firstn 9 l); split; reflexivity
      end ].

Ltac one_device_side :=
  first
    [ intros; assumption
    | intros; apply one_device_emit; [|assumption]; solve [names_device] ].

Section OneDevice.
Context {U : UnicodeData}.
Variable w : World.
Variable args : Args.
Variable target : option str.

Lemma one_device_teardown (X : Way -> Frame -> Prop) :
  triple (one_device w args target) (teardown w)
    (fun _ => one_device w args target) X.
Proof. unfold teardown, skip. carry one_device_side. Qed.

Lemma one_device_supervise (schedule : list Tick) :
  triple (one_device w args target) (supervise schedule) (fun _ _ => False)
    (fun _ => one_device w args target).
Proof.
  apply triple_supervise.
  - intros rc. unfold check_cap, skip, print. carry one_device_side.
  - intros rc. unfold check_dev, skip, print. carry one_device_side.
  - intros f Hf _. exact Hf.
  - intros f Hf _. exact Hf.
Qed.

Lemma one_device_session_body chosen_port npx_cmd adb_available app_id
      logcat_mode :
  triple (one_device w args target)
    (session_body w args chosen_port npx_cmd (resolve_cmd w (lit "adb"))
       adb_available target app_id logcat_mode)
    (fun _ _ => False) (fun _ => one_device w args target).
Proof.
  unfold session_body, start_logcat, start_cdp_console_stream, popen, print,
    skip.
  bind_same; [solve [carry one_device_side]|].
  bind_same; [solve [carry one_device_side]|].
  bind_same; [solve [carry one_device_side]|].
  bind_same; [solve [carry one_device_side]|].
  bind_same; [solve [carry one_device_side]|].
  apply triple_bind with (Q := fun _ => one_device w args target).
  { destruct (cap_popen_ok w); carry one_device_side. }
  intros _.
  bind_same; [solve [carry one_device_side]|].
  bind_same; [solve [carry one_device_side]|].
  bind_same; [solve [carry one_device_side]|].
  bind_same; [solve [carry one_device_side]|].
  bind_same; [solve [carry one_device_side]|].
  apply one_device_supervise.
Qed.
End OneDevice.

(** Where a list that ends in [y] holds [x]: at its end, or before. *)
Lemma app_cons_last {A} (before after t : list A) (x y : A) :
  before ++ x :: after = t ++ [y] ->
  (after = [] /\ before = t /\ x = y)
  \/ exists after', after = after' ++ [y] /\ t = before ++ x :: after'.
Proof.
  destruct after as [|z after' _] using rev_ind; intros E.
  - left. apply app_inj_tail in E as [-> ->]. repeat split.
  - right. rewrite app_comm_cons, app_assoc in E.
    apply app_inj_tail in E as [<- ->]. exists after'. split; reflexivity.
Qed.

Lemma forwards_first_emit (w : World) (target : option str) (e : Event)
      (f : Frame) :
  e <> StartCdpPump ->
  forwards_first w target f -> forwards_first w target (after_events f [e]).
Proof.
  intros He Hf before after E. cbn [after_events trace] in E.
  symmetry in E.
  apply app_cons_last in E as [(_ & _ & E)|(after' & _ & E)].
  - contradiction He. symmetry. exact E.
  - exact (Hf before after' E).
Qed.

Lemma forwards_first_start (w : World) (target : option str) (f : Frame) :
  (exists earlier, trace f = earlier ++ [bridge_forward w target]) ->
  forwards_first w target f ->
  forwards_first w target (after_events f [StartCdpPump]).
Proof.
  intros Hlast Hf before after E. cbn [after_events trace] in E.
  symmetry in E.
  apply app_cons_last in E as [(_ & -> & _)|(after' & _ & E)].
  - exact Hlast.
  - exact (Hf before after' E).
Qed.

Ltac forwards_side :=
  first
    [ intros; assumption
    | intros; apply forwards_first_emit; [|assumption];
      unfold pidof_cmd; discriminate ].

Section ForwardsFirst.
Context {U : UnicodeData}.
Variable w : World.
Variable args : Args.
Variable target : option str.

Lemma forwards_first_teardown (X : Way -> Frame -> Prop) :
  triple (forwards_first w target) (teardown w)
    (fun _ => forwards_first w target) X.
Proof. unfold teardown, skip. carry forwards_side. Qed.

Lemma forwards_first_supervise (schedule : list Tick) :
  triple (forwards_first w target) (supervise schedule) (fun _ _ => False)
    (fun _ => forwards_first w target).
Proof.
  apply triple_supervise.
  - intros rc. unfold check_cap, skip, print. carry forwards_side.
  - intros rc. unfold check_dev, skip, print. carry forwards_side.
  - intros f Hf _. exact Hf.
  - intros f Hf _. exact Hf.
Qed.

(** The bridge: the worker is started right after the port forwarding. *)
Lemma forwards_first_start_cdp_console_stream (X : Way -> Frame -> Prop) :
  triple (forwards_first w target)
    (start_cdp_console_stream w (resolve_cmd w (lit "adb")) target)
    (fun _ => forwards_first w target) X.
Proof.
  unfold start_cdp_console_stream, print. cbv zeta.
  destruct (negb (has_websocket w)); [carry forwards_side|].
  apply triple_bind
    with (Q := fun _ f =>
                 forwards_first w target f
                 /\ exists earlier,
                      trace f = earlier ++ [bridge_forward w target]).
  { apply triple_emit. intros f Hf. split.
    - apply forwards_first_emit; [discriminate | exact Hf].
    - exists (trace f). reflexivity. }
  intros _. destruct (cdp_forward w); apply triple_emit; intros f [Hf Hlast].
  - apply forwards_first_start; assumption.
  - apply forwards_first_emit; [discriminate | exact Hf].
  - apply forwards_first_emit; [discriminate | exact Hf].
Qed.

Lemma forwards_first_session_body chosen_port npx_cmd adb_available app_id
      logcat_mode :
  triple (forwards_first w target)
    (session_body w args chosen_port npx_cmd (resolve_cmd w (lit "adb"))
       adb_available target app_id logcat_mode)
    (fun _ _ => False) (fun _ => forwards_first w target).
Proof.
  unfold session_body, start_logcat, popen, print, skip.
  bind_same; [solve [carry forwards_side]|].
  bind_same; [solve [carry forwards_side]|].
  bind_same; [solve [carry forwards_side]|].
  bind_same; [solve [carry forwards_side]|].
  bind_same; [solve [carry forwards_side]|].
  apply triple_bind with (Q := fun _ => forwards_first w target).
  { destruct (cap_popen_ok w); carry forwards_side. }
  intros _.
  bind_same; [solve [carry forwards_side]|].
  bind_same; [solve [carry forwards_side]|].
  bind_same; [solve [carry forwards_side]|].
  apply triple_bind with (Q := fun _ => forwards_first w target).
  { destruct (adb_available && args_devtools args).
    - bind_same; [solve [carry forwards_side]|].
      apply forwards_first_start_cdp_console_stream.
    - carry forwards_side. }
  intros _.
  bind_same; [solve [carry forwards_side]|].
  apply forwards_first_supervise.
Qed.
End ForwardsFirst.

Section OneDeviceRun.
Context {U : UnicodeData}.
Variable w : World.
Variable args : Args.

Lemma one_device_run :
  triple (one_device w args (session_target w args)) (run w args)
    (fun _ _ => False) (fun _ => one_device w args (session_target w args)).
Proof.
  unfold run, popen, call, print, skip. cbv zeta.
  destruct (is_wifi (args_mode args) && negb (truthy (args_host args)));
    [carry one_device_side|].
  bind_same; [solve [carry one_device_side]|].
  bind_same; [solve [carry one_device_side]|].
  destruct (negb (which w (resolve_cmd w (lit "npm"))));
    [carry one_device_side|].
  destruct (negb (which w (resolve_cmd w (lit "npx"))));
    [carry one_device_side|].
  apply triple_bind
    with (Q := fun auto_target f =>
                 auto_target
                 = (if which w (resolve_cmd w (lit "adb"))
                    then fst (choose_target (adb_devices w)) else None)
                 /\ one_device w args (session_target w args) f).
  { destruct (which w (resolve_cmd w (lit "adb"))).
    - bind_same; [solve [carry one_device_side]|].
      destruct (choose_target (adb_devices w)) as [auto_target printed].
      bind_same; [solve [carry one_device_side]|].
      bind_same; [solve [carry one_device_side]|].
      apply triple_ret. intros f Hf. split; [reflexivity | exact Hf].
    - bind_same; [solve [carry one_device_side]|].
      apply triple_ret. intros f Hf. split; [reflexivity | exact Hf]. }
  intros auto_target. apply triple_pure. intros ->.
  fold (session_target w args).
  bind_same; [solve [carry one_device_side]|].
  bind_same; [solve [carry one_device_side]|].
  apply triple_bind
    with (Q := fun _ => one_device w args (session_target w args)).
  { destruct (dev_popen_ok w); carry one_device_side. }
  intros _.
  bind_same; [solve [carry one_device_side]|].
  bind_same; [solve [carry one_device_side]|].
  bind_same; [solve [carry one_device_side]|].
  bind_same; [solve [carry one_device_side]|].
  apply triple_try_finally
    with (Qb := fun _ _ => False)
         (Xb := fun _ => one_device w args (session_target w args)).
  - apply one_device_session_body.
  - intros ? f [].
  - intros code. apply one_device_teardown.
  - intros e. apply one_device_teardown.
  - intros f Hf. exact Hf.
Qed.

Lemma forwards_first_run :
  triple (forwards_first w (session_target w args)) (run w args)
    (fun _ _ => False) (fun _ => forwards_first w (session_target w args)).
Proof.
  unfold run, popen, call, print, skip. cbv zeta.
  destruct (is_wifi (args_mode args) && negb (truthy (args_host args)));
    [carry forwards_side|].
  bind_same; [solve [carry forwards_side]|].
  bind_same; [solve [carry forwards_side]|].
  destruct (negb (which w (resolve_cmd w (lit "npm"))));
    [carry forwards_side|].
  destruct (negb (which w (resolve_cmd w (lit "npx"))));
    [carry forwards_side|].
  apply triple_bind
    with (Q := fun auto_target f =>
                 auto_target
                 = (if which w (resolve_cmd w (lit "adb"))
                    then fst (choose_target (adb_devices w)) else None)
                 /\ forwards_first w (session_target w args) f).
  { destruct (which w (resolve_cmd w (lit "adb"))).
    - bind_same; [solve [carry forwards_side]|].
      destruct (choose_target (adb_devices w)) as [auto_target printed].
      bind_same; [solve [carry forwards_side]|].
      bind_same; [solve [carry forwards_side]|].
      apply triple_ret. intros f Hf. split; [reflexivity | exact Hf].
    - bind_same; [solve [carry forwards_side]|].
      apply triple_ret. intros f Hf. split; [reflexivity | exact Hf]. }
  intros auto_target. apply triple_pure. intros ->.
  fold (session_target w args).
  bind_same; [solve [carry forwards_side]|].
  bind_same; [solve [carry forwards_side]|].
  apply triple_bind
    with (Q := fun _ => forwards_first w (session_target w args)).
  { destruct (dev_popen_ok w); carry forwards_side. }
  intros _.
  bind_same; [solve [carry forwards_side]|].
  bind_same; [solve [carry forwards_side]|].
  bind_same; [solve [carry forwards_side]|].
  bind_same; [solve [carry forwards_side]|].
  apply triple_try_finally
    with (Qb := fun _ _ => False)
         (Xb := fun _ => forwards_first w (session_target w args)).
  - apply forwards_first_session_body.
  - intros ? f [].
  - intros code. apply forwards_first_teardown.
  - intros e. apply forwards_first_teardown.
  - intros f Hf. exact Hf.
Qed.

(** X19. The log stream, the native app runner and the port forwarding of
    the bridge are given one device, [args.target or auto_target]: the
    [adb logcat] command line names it with [-s], [cap run] with
    [--target], and the worker of the bridge is started right after
    [adb -s target forward tcp:9222 localabstract:chrome_devtools_remote];
    when there is no target, none of them names a device.  No [adb -s ...]
    command that [run] runs names another device.  The [adb forward] that
    [run] itself does first under [--devtools] names no device even when
    there is a target: it is not one of the three. *)
Theorem run_names_one_device :
  let target := session_target w args in
  let named flag :=
    if truthy target then [flag; unwrap target] else [] in
  (forall argv,
      In (Popen Logcat argv) (fst (main w args)) ->
      exists rest,
        argv = resolve_cmd w (lit "adb") :: named (lit "-s")
               ++ lit "logcat" :: rest)
  /\ (forall argv,
         In (Popen Cap argv) (fst (main w args)) ->
         exists front,
           List.length front
           = (if is_wifi (args_mode args) then 9 else 11)%nat
           /\ argv = front ++ named (lit "--target"))
  /\ (forall before after,
         fst (main w args) = before ++ StartCdpPump :: after ->
         exists earlier,
           before
           = earlier
             ++ [RunCmd (resolve_cmd w (lit "adb") :: named (lit "-s")
                         ++ [lit "forward"; lit "tcp:9222";
                             lit "localabstract:chrome_devtools_remote"])])
  /\ (forall argv,
         In (RunCmd argv) (fst (main w args)) ->
         nth 1 argv [] = lit "-s" ->
         truthy target = true /\ nth 2 argv [] = unwrap target).
Proof.
  intros target named.
  assert (Hinit : one_device w args target initial) by (intros ? []).
  pose proof (one_device_run initial Hinit) as H.
  assert (Ht : one_device w args target (fst (run w args initial))).
  { destruct (run w args initial) as [f [[]|code|e|]];
      [contradiction | exact H | exact H | exact H]. }
  assert (Hinit' : forwards_first w target initial).
  { intros [|? ?] after E; discriminate E. }
  pose proof (forwards_first_run initial Hinit') as H'.
  assert (Hf : forwards_first w target (fst (run w args initial))).
  { destruct (run w args initial) as [f [[]|code|e|]];
      [contradiction | exact H' | exact H' | exact H']. }
  assert (Et : fst (main w args) = trace (fst (run w args initial))).
  { unfold main. destruct (run w args initial) as [f [[]|code|e|]];
      reflexivity. }
  rewrite Et. split; [|split; [|split]].
  - intros argv Hin. exact (Ht _ Hin).
  - intros argv Hin. exact (Ht _ Hin).
  - intros before after E. exact (Hf before after E).
  - intros argv Hin. exact (Ht _ Hin).
Qed.
End OneDeviceRun.

(** ** Examples of the further properties *)

(** The seven facts that make a text a line of fields: the padding, the
    first field, the further fields, the tail, the number of fields, the
    third field and the text itself. *)
Ltac threadtime_line :=
  [> reflexivity
   | split; [discriminate | reflexivity]
   | repeat (constructor;
             [split; [discriminate
                     | split; [reflexivity
                              | split; [discriminate | reflexivity]]]|]);
     constructor
   | reflexivity
   | simpl; lia
   | reflexivity
   | reflexivity ].

(** A line of the app's process passes once the cell holds its PID, a
    line of another process does not. *)
Lemma app_line_filter_contract_witness :
  (parse_threadtime_pid
     (lit "11-03 10:00:00.000  4321  4400 I chromium: ready")
   = Some 4321%Z
   /\ passes (logcat_line_filter AppMode) {| pid := Some 4321%Z |}
        (lit "11-03 10:00:00.000  4321  4400 I chromium: ready")
      = true)
  /\ passes (logcat_line_filter AppMode) {| pid := Some 977%Z |}
       (lit "11-03 10:00:00.000  4321  4400 I chromium: ready")
     = false.
Proof.
  split.
  - refine (proj1 (proj2 (proj2
              (app_line_filter_contract
                 (lit "11-03 10:00:00.000  4321  4400 I chromium: ready"))))
              4321%Z 4321%Z [] (lit "11-03")
              [(lit " ", lit "10:00:00.000"); (lit "  ", lit "4321");
               (lit "  ", lit "4400"); (lit " ", lit "I");
               (lit " ", lit "chromium:"); (lit " ", lit "ready")] []
              _ _ _ _ _ _ _).
    all: threadtime_line.
  - refine (proj2 (proj1 (proj2 (proj2
              (app_line_filter_contract
                 (lit "11-03 10:00:00.000  4321  4400 I chromium: ready"))))
              4321%Z 977%Z [] (lit "11-03")
              [(lit " ", lit "10:00:00.000"); (lit "  ", lit "4321");
               (lit "  ", lit "4400"); (lit " ", lit "I");
               (lit " ", lit "chromium:"); (lit " ", lit "ready")] []
              _ _ _ _ _ _ _)).
    all: threadtime_line.
Defined.

(** [pidof] printed the PID and a line feed. *)
Lemma get_app_pid_reads_pidof_witness :
  get_app_pid (Completed (lit "4321" ++ [10])) = Some 4321%Z.
Proof.
  exact (proj1 (get_app_pid_reads_pidof 4321 [] [] [10] [])
           eq_refl (Forall_nil _) eq_refl).
Defined.

(** One phone attached: it is the target, and its serial is one token. *)
Lemma choose_target_some_iff_ready_witness :
  is_field (lit "R58M1234")
  /\ truthy (Some (lit "R58M1234")) = true
  /\ exists e,
       In (lit "R58M1234", e)
         (fst (list_adb_devices (Completed (lit "R58M1234 device")))).
Proof.
  apply (proj2 (choose_target_some_iff_ready
                  (Completed (lit "R58M1234 device")))).
  reflexivity.
Defined.

(** Two empty replies of [pidof], then the PID. *)
Lemma wait_for_pid_contract_witness :
  wait_for_pid (lit "adb") (lit "com.example.app")
    (map Pidof [Completed []; TimeoutExpired]
       ++ [Pidof (Completed (lit "4321"))])
    initial
  = (after_events initial
       (repeat (pidof_cmd (lit "adb") (lit "com.example.app")) 3),
     Normal (Some 4321%Z)).
Proof.
  refine (proj2 (proj2 (wait_for_pid_contract (lit "adb")
                          (lit "com.example.app")
                          [Completed []; TimeoutExpired] initial _))
            (Completed (lit "4321")) 4321%Z [] _ _).
  - repeat constructor.
  - reflexivity.
  - discriminate.
Defined.

(** What [late_runtime] sends before the connection breaks. *)
Lemma receive_loop_contract_witness :
  receive_loop (received late_runtime 7)
  = ([CdpPrint (lit "[console.log] ready");
      CdpPrint (lit "[cdp] Error: Connection is already closed.")], true).
Proof.
  exact (proj2 (proj2 (receive_loop_contract (received late_runtime 7)))
           [RecvEmpty; Handled (Some (lit "[console.log] ready"));
            RecvTimeout; Handled None]
           (lit "Connection is already closed.") [] eq_refl eq_refl).
Defined.

(** Against [late_runtime] the worker sleeps twice before it connects. *)
Lemma cdp_pump_discovery_witness :
  exists rest,
    fst (cdp_pump late_runtime)
    = [GetUrl; CdpSleep 1; GetUrl; CdpSleep 1; GetUrl;
       Connect (lit "ws://localhost:9222/devtools/page/1") SuppressOrigin]
      ++ rest.
Proof.
  apply (proj2 (proj2 (cdp_pump_discovery late_runtime)) 2%nat
           (lit "ws://localhost:9222/devtools/page/1")).
  - unfold max_retries. lia.
  - intros [|[|i]] Hi; [reflexivity | reflexivity | lia].
  - reflexivity.
  - reflexivity.
Defined.

(** Against [late_runtime] the worker closes the socket of the second
    attempt, once, at its end. *)
Lemma cdp_pump_socket_discipline_witness :
  filter is_close (fst (cdp_pump late_runtime)) = [Close 7]
  /\ last (fst (cdp_pump late_runtime)) GetUrl = Close 7.
Proof.
  apply (proj1 (proj2 (proj2 (cdp_pump_socket_discipline late_runtime)))
           eq_refl (lit "ws://localhost:9222/devtools/page/1")
           (WithOrigin (lit "chrome://inspect")) 7).
  - vm_compute. repeat (first [left; reflexivity | right]).
  - reflexivity.
Defined.

(** The command line of the native app runner on the workstation. *)
Lemma run_uses_one_port_witness :
  exists port,
    find_free_port (can_bind (workstation 1)) (lit "127.0.0.1")
      (args_port default_args) 20
    = Returns port
    /\ nth 7 [lit "npx"; lit "cap"; lit "run"; lit "android"; lit "-l";
              lit "--host"; lit "localhost"; lit "--port"; lit "5173";
              lit "--forwardPorts"; lit "5173:5173"; lit "--target";
              lit "R58M1234"] []
       = lit "--port"
    /\ nth 8 [lit "npx"; lit "cap"; lit "run"; lit "android"; lit "-l";
              lit "--host"; lit "localhost"; lit "--port"; lit "5173";
              lit "--forwardPorts"; lit "5173:5173"; lit "--target";
              lit "R58M1234"] []
       = str_of_Z port
    /\ (Cap = Cap -> args_mode default_args = Usb ->
        nth 9 [lit "npx"; lit "cap"; lit "run"; lit "android"; lit "-l";
               lit "--host"; lit "localhost"; lit "--port"; lit "5173";
               lit "--forwardPorts"; lit "5173:5173"; lit "--target";
               lit "R58M1234"] []
        = lit "--forwardPorts"
        /\ nth 10 [lit "npx"; lit "cap"; lit "run"; lit "android"; lit "-l";
                   lit "--host"; lit "localhost"; lit "--port"; lit "5173";
                   lit "--forwardPorts"; lit "5173:5173"; lit "--target";
                   lit "R58M1234"] []
           = str_of_Z port ++ lit ":" ++ str_of_Z port).
Proof.
  apply (run_uses_one_port (workstation 1) default_args Cap).
  - vm_compute. repeat (first [left; reflexivity | right]).
  - discriminate.
Defined.

(** Ctrl+C on the workstation: [run] returns 0, the log stream and the dev
    server are released. *)
Lemma run_releases_on_exit_witness :
  released (workstation 2) (fst (main (workstation 2) default_args)).
Proof.
  unfold released.
  refine (run_releases_on_exit (workstation 2) default_args 0 _).
  vm_compute. reflexivity.
Defined.

(** With [--devtools] on [debug_workstation] the worker is started. *)
Lemma run_devtools_opt_in_witness :
  args_devtools args_devtools_on = true
  /\ which debug_workstation (resolve_cmd debug_workstation (lit "adb"))
     = true
  /\ has_websocket debug_workstation = true
  /\ exists stdout, cdp_forward debug_workstation = Completed stdout.
Proof.
  apply (proj2 (run_devtools_opt_in debug_workstation args_devtools_on)).
  vm_compute. repeat (first [left; reflexivity | right]).
Defined.

(** The log stream of the default session is pumped through the console
    filter. *)
Lemma run_streams_as_asked_witness :
  lit "[logcat] " = lit "[logcat] "
  /\ args_logcat default_args = true
  /\ ConsoleFilter
     = (if args_logcat_all default_args then NoFilter
        else match args_logcat_mode default_args with
             | AllMode => NoFilter
             | AppMode =>
                 if truthy (or_else (args_app_id default_args)
                              (read_app_id
                                 (capacitor_config (workstation 1))))
                 then AppFilter else NoFilter
             | ConsoleMode => ConsoleFilter
             end).
Proof.
  apply (run_streams_as_asked (workstation 1) default_args Logcat
           (lit "[logcat] ") ConsoleFilter).
  vm_compute. repeat (first [left; reflexivity | right]).
Defined.

(** The workstation session with [--no-logcat]. *)
Lemma run_without_logcat_witness :
  existsb is_logcat_event (fst (main (workstation 1) args_no_logcat)) = false.
Proof.
  apply (run_without_logcat (workstation 1) args_no_logcat). reflexivity.
Defined.

(** The native app runner of the workstation is told to use the phone,
    and with [--devtools] the bridge forwards the port of the phone right
    before it starts its worker, the seventeenth thing [run] does. *)
Lemma run_names_one_device_witness :
  (exists front,
      List.length front = 11%nat
      /\ [lit "npx"; lit "cap"; lit "run"; lit "android"; lit "-l";
          lit "--host"; lit "localhost"; lit "--port"; lit "5173";
          lit "--forwardPorts"; lit "5173:5173"; lit "--target";
          lit "R58M1234"]
         = front ++ [lit "--target"; lit "R58M1234"])
  /\ exists earlier,
       firstn 16 (fst (main debug_workstation args_devtools_on))
       = earlier
         ++ [RunCmd [lit "adb"; lit "-s"; lit "R58M1234"; lit "forward";
                     lit "tcp:9222";
                     lit "localabstract:chrome_devtools_remote"]].
Proof.
  split.
  - apply (proj1 (proj2 (run_names_one_device (workstation 1) default_args))
             [lit "npx"; lit "cap"; lit "run"; lit "android"; lit "-l";
              lit "--host"; lit "localhost"; lit "--port"; lit "5173";
              lit "--forwardPorts"; lit "5173:5173"; lit "--target";
              lit "R58M1234"]).
    vm_compute. repeat (first [left; reflexivity | right]).
  - refine (proj1 (proj2 (proj2 (run_names_one_device debug_workstation
                                   args_devtools_on)))
              (firstn 16 (fst (main debug_workstation args_devtools_on)))
              (skipn 17 (fst (main debug_workstation args_devtools_on))) _).
    vm_compute. reflexivity.
Defined.
